(** * GraphQL AI Chat API: request resolution and session state

    A shallow embedding of the resolver ([executeGraphQL],
    [handleSendMessage]), of the completion-service adapter
    ([getChatCompletion]), of the helpers of [utils] and of the HTTP
    handler ([handleGraphQLRequest]), followed by the properties of the
    specification that are settled on them.  The rest of the code of
    these modules comes after: the validation of a query, the
    statistics and the cleanup of the sessions, the responses of
    [utils], the HTTP entry of the handler and the router, with
    further properties of the code.

    Conventions of the embedding.
    - A JavaScript string is the sequence of bytes of its UTF-8 encoding
      (well-formed text), so the ASCII literals of the source are
      themselves and substring tests agree with those on code units.
    - The session store is the module-level [Map] of the resolver; a
      session is mutated in place right after it is looked up, which is
      a write back under the key it was found at.
    - Messages are objects shared between a session and the code that
      streams into them: they live in a heap and a session holds
      references.
    - The clock, the random source, the completion endpoint and
      [JSON.parse] belong to the platform and are taken as an
      environment.
    - A stream is the list of the chunks that its reader receives, in
      order.  The reader keeps pace with the stream: whenever the code
      that feeds the stream waits for its own input, the reader has
      taken what was queued and waits for the next chunk.  The
      interleaving of two requests inside one operation is outside the
      embedding.
    - What the code logs is left out, except where computing the
      line to log can throw: the log line of [deleteChatSession]
      prints a session id that may be any value. *)

From Stdlib Require Import ZArith NArith Ascii String List Lia.
From stdpp Require Import base option list gmap strings.

Set Warnings "-register-all".

Local Open Scope string_scope.
Local Open Scope list_scope.
Local Open Scope Z_scope.

(** ** Strings *)

Module Str.

Definition chr (n : N) : ascii := ascii_of_N n.

(** The double quote, written by its code. *)
Definition dquote : ascii := chr 34.
Definition backslash : ascii := chr 92.
Definition newline : ascii := chr 10.

Definition single (c : ascii) : string := String c EmptyString.

Fixpoint concat_all (l : list string) : string :=
  match l with
  | [] => EmptyString
  | s :: r => s +:+ concat_all r
  end.

Fixpoint join (sep : string) (l : list string) : string :=
  match l with
  | [] => EmptyString
  | [s] => s
  | s :: r => s +:+ sep +:+ join sep r
  end.

Definition is_empty (s : string) : bool :=
  match s with EmptyString => true | String _ _ => false end.

(** [s.startsWith(p)] *)
Fixpoint startsWith (s p : string) {struct p} : bool :=
  match p, s with
  | EmptyString, _ => true
  | String a p', String b s' => Ascii.eqb a b && startsWith s' p'
  | String _ _, EmptyString => false
  end.

(** [s.slice(n)] for a non-negative [n]. *)
Fixpoint slice (n : nat) (s : string) : string :=
  match n, s with
  | O, _ => s
  | S n', String _ s' => slice n' s'
  | S _, EmptyString => EmptyString
  end.

(** [s.includes(p)] *)
Fixpoint includes (s p : string) : bool :=
  startsWith s p ||
  match s with
  | EmptyString => false
  | String _ s' => includes s' p
  end.

(** [s.split(c)] for a one-character separator: never empty. *)
Fixpoint split (c : ascii) (s : string) : list string :=
  match s with
  | EmptyString => [EmptyString]
  | String a r =>
      if Ascii.eqb a c then EmptyString :: split c r
      else match split c r with
           | h :: t => String a h :: t
           | [] => [single a]
           end
  end.

(** UTF-8 encoding of a code point of the basic plane. *)
Definition utf8 (cp : N) : string :=
  if (cp <? 128)%N then single (chr cp)
  else if (cp <? 2048)%N then
    String (chr (192 + cp / 64)) (single (chr (128 + cp mod 64)))
  else
    String (chr (224 + cp / 4096))
      (String (chr (128 + (cp / 64) mod 64)) (single (chr (128 + cp mod 64)))).

(** WhiteSpace and LineTerminator of ECMAScript: what [trim] strips
    and what the class [\s] of a regular expression matches. *)
Definition whitespace : list string :=
  map utf8
    [9; 10; 11; 12; 13; 32; 160; 5760;
     8192; 8193; 8194; 8195; 8196; 8197; 8198; 8199; 8200; 8201; 8202;
     8232; 8233; 8239; 8287; 12288; 65279]%N.

(** The rest of [s] after the first entry of [tbl] that starts it. *)
Fixpoint strip_one (tbl : list string) (s : string) : option string :=
  match tbl with
  | [] => None
  | t :: tbl' =>
      if startsWith s t then Some (slice (String.length t) s)
      else strip_one tbl' s
  end.

Fixpoint strip_many (fuel : nat) (tbl : list string) (s : string) : string :=
  match fuel with
  | O => s
  | S f =>
      match strip_one tbl s with
      | Some r => strip_many f tbl r
      | None => s
      end
  end.

(** Leading white space removed: [\s*] at the head of [s]. *)
Definition skip_ws (s : string) : string :=
  strip_many (String.length s) whitespace s.

Definition trimStart := skip_ws.

(** Cut at the first place from which only white space follows. *)
Fixpoint trimEnd (s : string) : string :=
  match s with
  | EmptyString => EmptyString
  | String c r =>
      if is_empty (skip_ws s) then EmptyString else String c (trimEnd r)
  end.

(** The bytes that occur in the encodings of white space. *)
Definition space_byte (c : ascii) : bool :=
  let n := N_of_ascii c in
  (((9 <=? n) && (n <=? 13)) || (n =? 32) || (128 <=? n))%N.

Fixpoint spaces_only (s : string) : bool :=
  match s with
  | EmptyString => true
  | String c r => space_byte c && spaces_only r
  end.

Definition first_ok (p : string) : bool :=
  match p with
  | EmptyString => false
  | String c _ => negb (space_byte c)
  end.

Fixpoint last_ok (p : string) : bool :=
  match p with
  | EmptyString => false
  | String c EmptyString => negb (space_byte c)
  | String _ r => last_ok r
  end.

(** [s.trim()] *)
Definition trim (s : string) : string := trimEnd (trimStart s).

(** Case folding of the ignore-case flag without the unicode flag:
    only the ASCII letters fold onto each other. *)
Definition upper (c : ascii) : ascii :=
  let n := N_of_ascii c in
  if ((97 <=? n) && (n <=? 122))%N then chr (n - 32) else c.

Definition eqb_nocase (a b : ascii) : bool := Ascii.eqb (upper a) (upper b).

(** The rest of [s] after a case-insensitive copy of [p] at its head. *)
Fixpoint strip_nocase (p s : string) : option string :=
  match p, s with
  | EmptyString, _ => Some s
  | String a p', String b s' =>
      if eqb_nocase a b then strip_nocase p' s' else None
  | String _ _, EmptyString => None
  end.

(** The text before the first occurrence of [c], when there is one. *)
Fixpoint take_until (c : ascii) (s : string) : option string :=
  match s with
  | EmptyString => None
  | String a r =>
      if Ascii.eqb a c then Some EmptyString
      else option_map (String a) (take_until c r)
  end.

(** Digits of a natural number in a radix up to 36, lower case. *)
Definition digit (d : N) : ascii :=
  if (d <? 10)%N then chr (48 + d) else chr (87 + d).

Fixpoint digits_go (fuel : nat) (radix n : N) (acc : string) : string :=
  match fuel with
  | O => acc
  | S f =>
      let acc' := String (digit (n mod radix)) acc in
      if (n / radix =? 0)%N then acc' else digits_go f radix (n / radix) acc'
  end.

(** One digit is put per step, and there are no more digits than bits. *)
Definition digits (radix n : N) : string :=
  digits_go (S (N.to_nat (N.log2 n))) radix n EmptyString.

(** [n.toString(radix)] of an integer. *)
Definition of_Z (radix : N) (z : Z) : string :=
  if z <? 0 then String (chr 45) (digits radix (Z.to_N (- z)))
  else digits radix (Z.to_N z).

(** Decimal digits padded with zeros on the left up to [w]. *)
Fixpoint pad_go (k : nat) (s : string) : string :=
  match k with O => s | S k' => String (chr 48) (pad_go k' s) end.

Definition pad (w : nat) (n : Z) : string :=
  let s := digits 10 (Z.to_N n) in
  pad_go (w - String.length s) s.

End Str.

Import Str.

(** ** JavaScript values *)

(** The values a JSON document and the [variables] of a request are made
    of.  A number is kept by the two things the source observes of it:
    whether it is truthy (neither zero nor NaN) and the text that
    [String] and [JSON.stringify] print for it. *)
Inductive JsValue :=
  | JUndefined
  | JNull
  | JBool (b : bool)
  | JNum (nonzero : bool) (text : string)
  | JStr (s : string)
  | JArr (items : list JsValue)
  | JObj (props : list (string * JsValue)).

(** What a [throw] carries: an [Error] object with its message, or any
    other value. *)
Inductive Thrown :=
  | ErrorObject (message : string)
  | ThrownValue (v : JsValue).

(** A computation that returns or throws. *)
Definition Exc (A : Type) : Type := A + Thrown.

Definition exc_bind {A B} (c : Exc A) (k : A -> Exc B) : Exc B :=
  match c with
  | inl a => k a
  | inr e => inr e
  end.

Module JS.

Definition truthy (v : JsValue) : bool :=
  match v with
  | JUndefined | JNull => false
  | JBool b => b
  | JNum nz _ => nz
  | JStr s => negb (is_empty s)
  | JArr _ | JObj _ => true
  end.

(** [a || b] *)
Definition or (a b : JsValue) : JsValue := if truthy a then a else b.

Definition is_undefined (v : JsValue) : bool :=
  match v with JUndefined => true | _ => false end.

Definition nullish (v : JsValue) : bool :=
  match v with JUndefined | JNull => true | _ => false end.

Fixpoint assoc (k : string) (props : list (string * JsValue)) : JsValue :=
  match props with
  | [] => JUndefined
  | (k', v) :: r => if String.eqb k k' then v else assoc k r
  end.

(** The own property [k] of a value that is not null or undefined.
    Inherited and built-in properties are not modelled: the source
    reads none of them. *)
Definition own (v : JsValue) (k : string) : JsValue :=
  match v with
  | JObj props => assoc k props
  | _ => JUndefined
  end.

(** [v.k]: a TypeError on null and undefined. *)
Definition member (v : JsValue) (k : string) : Exc JsValue :=
  if nullish v then inr (ErrorObject "Cannot read properties of null or undefined")
  else inl (own v k).

(** [v?.k] *)
Definition opt_member (v : JsValue) (k : string) : JsValue :=
  if nullish v then JUndefined else own v k.

(** [v?.[0]]: the first element of an array, the first character of a
    string, the property named 0 of an object. *)
Definition opt_first (v : JsValue) : JsValue :=
  match v with
  | JArr (x :: _) => x
  | JStr (String c _) => JStr (single c)
  | JObj props => assoc "0" props
  | _ => JUndefined
  end.

(** [String(v)], as a template literal applies it.  An object is
    printed by its [toString]: the inherited one prints [object Object];
    an own property of that name, which is no function in a value read
    from JSON, leaves no way to print the object, its [valueOf]
    returning no primitive either, and the conversion throws a
    TypeError.  An array prints its elements in order, null and
    undefined as nothing. *)
Fixpoint toString (v : JsValue) : Exc string :=
  match v with
  | JUndefined => inl "undefined"
  | JNull => inl "null"
  | JBool true => inl "true"
  | JBool false => inl "false"
  | JNum _ text => inl text
  | JStr s => inl s
  | JArr items =>
      let fix elements (l : list JsValue) : Exc (list string) :=
        match l with
        | [] => inl []
        | x :: r =>
            exc_bind (if nullish x then inl EmptyString else toString x)
              (fun s => exc_bind (elements r) (fun t => inl (s :: t)))
        end in
      exc_bind (elements items) (fun l => inl (join "," l))
  | JObj props =>
      if existsb (fun p => String.eqb (fst p) "toString") props
      then inr (ErrorObject "Cannot convert object to primitive value")
      else inl "[object Object]"
  end.

Definition hex_digit (d : N) : ascii :=
  if (d <? 10)%N then chr (48 + d) else chr (87 + d).

(** One character of a string inside a JSON text. *)
Definition escape (c : ascii) : string :=
  let n := N_of_ascii c in
  if (n =? 34)%N then String backslash (single dquote)
  else if (n =? 92)%N then String backslash (single backslash)
  else if (n =? 8)%N then String backslash "b"
  else if (n =? 9)%N then String backslash "t"
  else if (n =? 10)%N then String backslash "n"
  else if (n =? 12)%N then String backslash "f"
  else if (n =? 13)%N then String backslash "r"
  else if (n <? 32)%N then
    String backslash ("u00" +:+ String (hex_digit (n / 16)) (single (hex_digit (n mod 16))))
  else single c.

Fixpoint escape_all (s : string) : string :=
  match s with
  | EmptyString => EmptyString
  | String c r => escape c +:+ escape_all r
  end.

Definition quote (s : string) : string :=
  String dquote (escape_all s +:+ single dquote).

(** [JSON.stringify(v)] without indentation.  An undefined property is
    left out of an object and printed as null inside an array; the
    source never prints an undefined value on its own. *)
Fixpoint stringify (v : JsValue) : string :=
  match v with
  | JUndefined | JNull => "null"
  | JBool true => "true"
  | JBool false => "false"
  | JNum _ text => text
  | JStr s => quote s
  | JArr items => "[" +:+ join "," (map stringify items) +:+ "]"
  | JObj props =>
      let fix members (l : list (string * JsValue)) : list string :=
        match l with
        | [] => []
        | (k, x) :: r =>
            if is_undefined x then members r
            else (quote k +:+ ":" +:+ stringify x) :: members r
        end in
      "{" +:+ join "," (members props) +:+ "}"
  end.

(** A number that is an integer. *)
Definition num (z : Z) : JsValue := JNum (negb (z =? 0)) (of_Z 10 z).

End JS.

(** ** Dates *)

(** An instant is the number of milliseconds since the epoch that
    [Date.now()] returns; [toISOString] prints it.  The records below
    keep the instant of a [new Date().toISOString()]: for the years 0000
    to 9999 the printed texts have one width and are ordered as the
    instants are. *)
Module Date.

Definition ms_per_day : Z := 86400000.

(** Year, month and day of a day number counted from 1970-01-01. *)
Definition civil (days : Z) : Z * Z * Z :=
  let z := days + 719468 in
  let era := z / 146097 in
  let doe := z - era * 146097 in
  let yoe := (doe - doe / 1460 + doe / 36524 - doe / 146096) / 365 in
  let doy := doe - (365 * yoe + yoe / 4 - yoe / 100) in
  let mp := (5 * doy + 2) / 153 in
  let d := doy - (153 * mp + 2) / 5 + 1 in
  let m := if mp <? 10 then mp + 3 else mp - 9 in
  let y := yoe + era * 400 + (if m <=? 2 then 1 else 0) in
  (y, m, d).

Definition year_text (y : Z) : string :=
  if (0 <=? y) && (y <=? 9999) then pad 4 y
  else if y <? 0 then "-" +:+ pad 6 (- y)
  else "+" +:+ pad 6 y.

Definition toISOString (ms : Z) : string :=
  let days := ms / ms_per_day in
  let rest := ms mod ms_per_day in
  let '(y, m, d) := civil days in
  year_text y +:+ "-" +:+ pad 2 m +:+ "-" +:+ pad 2 d +:+ "T" +:+
  pad 2 (rest / 3600000) +:+ ":" +:+ pad 2 ((rest / 60000) mod 60) +:+ ":" +:+
  pad 2 ((rest / 1000) mod 60) +:+ "." +:+ pad 3 (rest mod 1000) +:+ "Z".

End Date.

Import JS.

(** ** Data model ([types]) *)

Inductive Role := user | assistant | system.

Definition role_name (r : Role) : string :=
  match r with
  | user => "user"
  | assistant => "assistant"
  | system => "system"
  end.

Module ChatMessage.
Record t := make {
  id : string;
  role : Role;
  content : string;
  timestamp : Z
}.
Definition with_content (c : string) (m : t) : t :=
  make (id m) (role m) c (timestamp m).
End ChatMessage.

(** A reference to a message object. *)
Abbreviation MessageRef := nat.

Module ChatSession.
Record t := make {
  id : string;
  messages : list MessageRef;
  createdAt : Z;
  updatedAt : Z
}.
Definition with_messages (l : list MessageRef) (s : t) : t :=
  make (id s) l (createdAt s) (updatedAt s).
Definition with_updatedAt (u : Z) (s : t) : t :=
  make (id s) (messages s) (createdAt s) u.
End ChatSession.

(** A field of an object literal: left out, null, or set. *)
Inductive Field (A : Type) :=
  | Absent
  | Null
  | Value (a : A).
Arguments Absent {A}.
Arguments Null {A}.
Arguments Value {A} a.

(** ** The platform *)

(** What the completion endpoint is sent for a message. *)
Record ApiMessage := { api_role : string; api_content : string }.

(** The body of a response as it is read: the decoded chunks in order,
    whether the read after them fails, and the instants at which the
    decoder, which runs after the resolver has returned, reads the
    clock. *)
Record Body := {
  chunks : list string;
  failure : option Thrown;
  stamps : nat -> Z
}.

Record Response := {
  ok : bool;
  status : Z;
  text : Exc string;
  body : option Body
}.

Inductive FetchResult :=
  | Rejected (e : Thrown)
  | Responded (r : Response).

Record Env := {
  (** the successive readings of the wall clock, in milliseconds *)
  clock : nat -> Z;
  (** the successive values of [Math.random().toString(36).substr(2, 9)] *)
  random : nat -> string;
  (** [JSON.parse]; [None] is a SyntaxError *)
  JSON_parse : string -> option JsValue;
  (** the answer of the completion endpoint to a request *)
  fetch : list ApiMessage -> FetchResult
}.

(** ** The state of the worker *)

Record World := {
  (** [chatSessions], the session store of the resolver *)
  chatSessions : gmap string ChatSession.t;
  (** the message objects *)
  heap : list ChatMessage.t;
  (** how many times the clock and the random source were read *)
  ticks : nat;
  draws : nat
}.

Definition init : World :=
  {| chatSessions := ∅; heap := []; ticks := 0; draws := 0 |}.

Definition set_sessions (m : gmap string ChatSession.t) (w : World) : World :=
  {| chatSessions := m; heap := heap w; ticks := ticks w; draws := draws w |}.

Definition set_heap (h : list ChatMessage.t) (w : World) : World :=
  {| chatSessions := chatSessions w; heap := h; ticks := ticks w; draws := draws w |}.

(** The messages a session holds, read through its references. *)
Definition contents (w : World) (s : ChatSession.t) : list ChatMessage.t :=
  omap (fun r => heap w !! r) (ChatSession.messages s).

(** A computation on the state that returns or throws. *)
Definition M (A : Type) : Type := World -> Exc A * World.

Definition ret {A} (a : A) : M A := fun w => (inl a, w).

Definition bind {A B} (c : M A) (k : A -> M B) : M B :=
  fun w =>
    match c w with
    | (inl a, w') => k a w'
    | (inr e, w') => (inr e, w')
    end.

Definition lift {A} (x : Exc A) : M A := fun w => (x, w).

Definition try_catch {A} (c : M A) (handler : Thrown -> M A) : M A :=
  fun w =>
    match c w with
    | (inl a, w') => (inl a, w')
    | (inr e, w') => handler e w'
    end.

Notation "'let*' x ':=' c 'in' k" := (bind c (fun x => k))
  (at level 10, x pattern, c at level 100, k at level 200).

Definition get_world : M World := fun w => (inl w, w).

Definition modify (f : World -> World) : M unit := fun w => (inl tt, f w).

(** [error instanceof Error ? error.message : fallback] *)
Definition message_or (fallback : string) (e : Thrown) : string :=
  match e with
  | ErrorObject m => m
  | ThrownValue _ => fallback
  end.

(** ** Helpers ([utils]) *)

(** [extractVariableFromQuery]: the first match of a regular expression
    with the ignore-case flag, built from the name, a colon, any white
    space, a double quote, a group of as many characters other than a
    double quote as there are, and a double quote; the result is the
    first group of the match.

    The name is part of the expression.  An ASCII character that is not
    a syntax character of regular expressions stands for itself, so a
    name made of such characters, as is every name the resolver passes,
    is matched as written and the first group is the quoted text.  Of
    the syntax characters the embedding reads the parentheses: they
    group and match nothing themselves; they must pair up, or building
    the expression throws a SyntaxError; and the first group of a name
    that has one is the first group of the expression, so that the
    result is what that group matched, not the quoted text.  The other
    syntax characters (the dot, the quantifiers, brackets, braces, the
    bar, the anchors and the backslash) are read as themselves, which
    the expression does not do: a name that holds one is outside the
    embedding, and so is a name with letters outside ASCII. *)
Definition opens (c : ascii) : bool := Ascii.eqb c "("%char.

Definition closes (c : ascii) : bool := Ascii.eqb c ")"%char.

(** Whether the parentheses of a name pair up, [depth] of them being
    open. *)
Fixpoint pairs_up (depth : nat) (name : string) : bool :=
  match name with
  | EmptyString => (depth =? 0)%nat
  | String c r =>
      if opens c then pairs_up (S depth) r
      else if closes c then
        match depth with
        | O => false
        | S d => pairs_up d r
        end
      else pairs_up depth r
  end.

(** The characters of a name that are matched. *)
Fixpoint matched_text (name : string) : string :=
  match name with
  | EmptyString => EmptyString
  | String c r =>
      if opens c || closes c then matched_text r else String c (matched_text r)
  end.

(** How many characters are matched up to the parenthesis that closes
    the group at hand, [depth] groups being open inside it. *)
Fixpoint group_length (depth : nat) (s : string) : nat :=
  match s with
  | EmptyString => O
  | String c r =>
      if opens c then group_length (S depth) r
      else if closes c then
        match depth with
        | O => O
        | S d => group_length d r
        end
      else S (group_length depth r)
  end.

(** Where the first group of a name lies in the text it matches: the
    number of characters before it and the number in it. *)
Fixpoint first_group (name : string) : option (nat * nat) :=
  match name with
  | EmptyString => None
  | String c r =>
      if opens c then Some (O, group_length O r)
      else
        match first_group r with
        | Some (before, inside) => Some (S before, inside)
        | None => None
        end
  end.

(** A match of the expression at the head of [s], and the first group
    of that match. *)
Definition match_here (variableName s : string) : option string :=
  r ← strip_nocase (matched_text variableName) s;
  r ← strip_nocase ":" r;
  r ← strip_nocase (single dquote) (skip_ws r);
  quoted ← take_until dquote r;
  Some (match first_group variableName with
        | Some (before, inside) => String.substring before inside s
        | None => quoted
        end).

Fixpoint first_match (variableName s : string) : option string :=
  match match_here variableName s with
  | Some v => Some v
  | None =>
      match s with
      | EmptyString => None
      | String _ r => first_match variableName r
      end
  end.

Definition extractVariableFromQuery (query variableName : string) : Exc JsValue :=
  if pairs_up 0 variableName then
    inl (match first_match variableName query with
         | Some v => JStr v
         | None => JNull
         end)
  else inr (ErrorObject "Invalid regular expression").

(** The idiom [variables.name || extractVariableFromQuery(query, name)]
    of the resolver: the query is searched only when the variable is
    falsy. *)
Definition resolveVariable
    (variables : JsValue) (query name : string) : Exc JsValue :=
  exc_bind (member variables name)
    (fun v => if truthy v then inl v else extractVariableFromQuery query name).

Section Worker.

Variable env : Env.

(** [new Date()] and [Date.now()] *)
Definition now : M Z :=
  fun w =>
    (inl (clock env (ticks w)),
     {| chatSessions := chatSessions w; heap := heap w;
        ticks := S (ticks w); draws := draws w |}).

Definition random_text : M string :=
  fun w =>
    (inl (random env (draws w)),
     {| chatSessions := chatSessions w; heap := heap w;
        ticks := ticks w; draws := S (draws w) |}).

(** [generateId] *)
Definition generateId : M string :=
  let* r := random_text in
  let* t := now in
  ret ("id_" +:+ r +:+ of_Z 36 t).

(** A new message object. *)
Definition alloc (m : ChatMessage.t) : M MessageRef :=
  fun w => (inl (length (heap w)), set_heap (heap w ++ [m]) w).

End Worker.

(** ** The completion service ([services/deepseek]) *)

(** What the adapter puts on its stream. *)
Inductive Event :=
  | Start (timestamp : Z)
  | Content (content : JsValue)
  | End (timestamp : Z)
  | Error (error : JsValue).

(** The object literal of an event and the text enqueued for it. *)
Definition event_object (e : Event) : JsValue :=
  match e with
  | Start t => JObj [("type", JStr "start"); ("timestamp", JStr (Date.toISOString t))]
  | Content c => JObj [("type", JStr "content"); ("content", c)]
  | End t => JObj [("type", JStr "end"); ("timestamp", JStr (Date.toISOString t))]
  | Error e => JObj [("type", JStr "error"); ("error", e)]
  end.

Definition serialize (e : Event) : string := stringify (event_object e).

(** The local variables of the decoding loop. *)
Record Decoder := {
  buffer : string;
  isFirstChunk : bool;
  hasError : bool;
  (** clock readings taken so far *)
  readings : nat
}.

(** Whether the loop goes on or the function has closed the stream and
    returned. *)
Inductive Flow := Continue | Returned.

Definition system_prompt : string :=
  "You are a helpful AI assistant. Please provide accurate and helpful responses in Chinese.".

Definition apiMessages (messages : list ChatMessage.t) : list ApiMessage :=
  {| api_role := "system"; api_content := system_prompt |} ::
  map (fun msg => {| api_role := role_name (ChatMessage.role msg);
                     api_content := ChatMessage.content msg |}) messages.

Section Service.

Variable env : Env.

(** The body of [try] for one payload, and its [catch]. *)
Definition on_data (stamps : nat -> Z) (st : Decoder) (data : string)
    : Decoder * list Event * Flow :=
  let parsed_error :=
    match JSON_parse env data with
    | None => inr (ErrorObject "Unexpected token")
    | Some parsed => exc_bind (member parsed "error") (fun e => inl (parsed, e))
    end in
  match parsed_error with
  | inr _ => (st, [Error (JStr "数据解析错误")], Continue)
  | inl (parsed, err) =>
      if truthy err then
        ({| buffer := buffer st; isFirstChunk := isFirstChunk st;
            hasError := true; readings := readings st |},
         [Error (JS.or (own err "message") (JStr "未知错误"))],
         Returned)
      else
        let content :=
          opt_member (opt_member (opt_first (own parsed "choices")) "delta") "content" in
        if truthy content then
          if isFirstChunk st then
            ({| buffer := buffer st; isFirstChunk := false;
                hasError := hasError st; readings := S (readings st) |},
             [Start (stamps (readings st)); Content content],
             Continue)
          else (st, [Content content], Continue)
        else (st, [], Continue)
  end.

(** One line of the buffer. *)
Definition on_line (stamps : nat -> Z) (st : Decoder) (line : string)
    : Decoder * list Event * Flow :=
  if startsWith line "data: " then
    let data := slice 6 line in
    if String.eqb data "[DONE]" then (st, [], Returned)
    else on_data stamps st data
  else (st, [], Continue).

(** [for (const line of lines)] *)
Fixpoint on_lines (stamps : nat -> Z) (st : Decoder) (lines : list string)
    : Decoder * list Event * Flow :=
  match lines with
  | [] => (st, [], Continue)
  | line :: rest =>
      match on_line stamps st line with
      | (st', out, Returned) => (st', out, Returned)
      | (st', out, Continue) =>
          let '(st'', out', flow) := on_lines stamps st' rest in
          (st'', out ++ out', flow)
      end
  end.

(** What follows the loop once the body is exhausted: the handler of
    a failed read, or the end marker. *)
Definition after_loop (b : Body) (st : Decoder) : list Event :=
  match failure b with
  | Some e => [Error (JStr (message_or "未知错误" e))]
  | None => if hasError st then [] else [End (stamps b (readings st))]
  end.

(** [while (true)] over the chunks that are read: the events put on
    the stream, and whether the function returned from inside the
    loop or fell out of it. *)
Fixpoint read_loop (b : Body) (st : Decoder) (pending : list string)
    : list Event * Flow :=
  match pending with
  | [] => (after_loop b st, Continue)
  | value :: rest =>
      let lines := split newline (buffer st +:+ value) in
      let st1 := {| buffer := List.last lines EmptyString;
                    isFirstChunk := isFirstChunk st;
                    hasError := hasError st; readings := readings st |} in
      match on_lines (stamps b) st1 (removelast lines) with
      | (_, out, Returned) => (out, Returned)
      | (st2, out, Continue) =>
          let '(out', flow) := read_loop b st2 rest in
          (out ++ out', flow)
      end
  end.

Definition start (b : Body) : list Event * Flow :=
  read_loop b
    {| buffer := EmptyString; isFirstChunk := true; hasError := false; readings := 0 |}
    (chunks b).

(** Everything the decoder puts on the stream. *)
Definition decode (b : Body) : list Event := fst (start b).

(** What the reader of the stream receives of it.  The events put on
    the stream while one chunk of the body is handled are enqueued in
    one go: the first is handed to the reader, who was waiting, and the
    others are queued; they are taken while the decoder waits for the
    next chunk, or once the stream is closed after the loop.  When the
    decoder closes the stream inside the loop and returns, [finally]
    calls [close()] a second time, which throws a TypeError: [start]
    rejects, and a stream that still has events queued is put in error
    and loses them, so that of the events of that chunk the reader
    receives the first alone. *)
Fixpoint receive_loop (b : Body) (st : Decoder) (pending : list string)
    : list Event :=
  match pending with
  | [] => after_loop b st
  | value :: rest =>
      let lines := split newline (buffer st +:+ value) in
      let st1 := {| buffer := List.last lines EmptyString;
                    isFirstChunk := isFirstChunk st;
                    hasError := hasError st; readings := readings st |} in
      match on_lines (stamps b) st1 (removelast lines) with
      | (_, out, Returned) => firstn 1 out
      | (st2, out, Continue) => out ++ receive_loop b st2 rest
      end
  end.

Definition received (b : Body) : list Event :=
  receive_loop b
    {| buffer := EmptyString; isFirstChunk := true; hasError := false; readings := 0 |}
    (chunks b).

(** The outer [catch]: an [Error] is thrown again as it is. *)
Definition rethrow (e : Thrown) : Thrown :=
  match e with
  | ErrorObject m => ErrorObject m
  | ThrownValue _ => ErrorObject "调用 DeepSeek API 时发生未知错误"
  end.

(** [DeepSeekService.getChatCompletion]: what the reader of the stream
    it returns receives, or what it throws. *)
Definition getChatCompletion (messages : list ChatMessage.t) : Exc (list Event) :=
  match fetch env (apiMessages messages) with
  | Rejected e => inr (rethrow e)
  | Responded response =>
      if negb (ok response) then
        match text response with
        | inl errorText =>
            inr (ErrorObject
                   ("DeepSeek API 错误: " +:+ of_Z 10 (status response) +:+ " " +:+ errorText))
        | inr e => inr (rethrow e)
        end
      else
        match body response with
        | None => inr (ErrorObject "DeepSeek API 没有返回流式响应")
        | Some b => inl (received b)
        end
  end.

Definition callDeepSeekAPI := getChatCompletion.

End Service.

(** ** The resolver ([graphql/resolvers]) *)

(** The readable end handed to the caller, together with the loop that
    feeds it: the chunks still to come from the adapter and the
    assistant message they are accumulated into.  Whether the stream
    of the adapter ends closed or in error, upon which the loop aborts
    the readable end, is not recorded: the loop stops either way. *)
Record Readable := {
  pending : list string;
  sink : MessageRef
}.

Module ChatResponse.
Record t := make {
  success : bool;
  message : Field MessageRef;
  stream : Field Readable;
  session : ChatSession.t;
  error : Field string
}.
End ChatResponse.

Inductive Data :=
  | hello_data (greeting : string)
  (** the object whose JSON text, indented by two, is returned *)
  | apiInfo_data (apiInfo : JsValue)
  | getChatSession_data (session : option ChatSession.t)
  | createChatSession_data (session : ChatSession.t)
  | clearChatSession_data (session : ChatSession.t)
  | deleteChatSession_data (deleted : bool)
  | sendMessage_data (response : ChatResponse.t).

(** [{ data: ... }] or [{ errors: [{ message }, ...] }] *)
Inductive GraphQLResult :=
  | data_result (d : Data)
  | errors_result (messages : list string).

Definition SCHEMA_VERSION : string := "1.0.0".

Definition SCHEMA_METADATA : list (string * JsValue) :=
  [("version", JStr SCHEMA_VERSION);
   ("description", JStr "GraphQL AI Chat API Schema");
   ("author", JStr "AI Chat API");
   ("features",
    JArr [JStr "Chat session management"; JStr "AI message processing";
          JStr "Real-time subscriptions (planned)"; JStr "Message history";
          JStr "Multi-session support"]);
   ("endpoints",
    JObj [("graphql", JStr "/graphql"); ("playground", JStr "/graphql (GET)");
          ("documentation", JStr "/")])].

(** [chatSessions.get(sessionId)]: the keys of the store are strings. *)
Definition store_get (sessionId : JsValue) (w : World) : option (string * ChatSession.t) :=
  match sessionId with
  | JStr key => (fun s => (key, s)) <$> chatSessions w !! key
  | _ => None
  end.

(** [chatSessions.delete(sessionId)] *)
Definition store_delete (sessionId : JsValue) : M bool :=
  fun w =>
    match sessionId with
    | JStr key =>
        (inl (bool_decide (is_Some (chatSessions w !! key))),
         set_sessions (delete key (chatSessions w)) w)
    | _ => (inl false, w)
    end.

(** [chatSessions.set(key, session)]; also the state of the store after
    the session object it holds under [key] was mutated into [session]. *)
Definition store_set (key : string) (session : ChatSession.t) : M unit :=
  modify (fun w => set_sessions (<[key := session]> (chatSessions w)) w).

(** The asynchronous loop that copies the adapter's stream to the
    readable end: every chunk read is appended to [fullContent], which
    becomes the content of the assistant message. *)
Definition set_content (target : MessageRef) (c : string) (w : World) : World :=
  match heap w !! target with
  | Some m => set_heap (<[target := ChatMessage.with_content c m]> (heap w)) w
  | None => w
  end.

Fixpoint pump_from (target : MessageRef) (fullContent : string)
    (source : list string) (w : World) : World :=
  match source with
  | [] => w
  | value :: rest =>
      let fullContent' := fullContent +:+ value in
      pump_from target fullContent' rest (set_content target fullContent' w)
  end.

(** The state once the stream has been consumed to its end. *)
Definition pump (r : Readable) : World -> World :=
  pump_from (sink r) EmptyString (pending r).

Section Resolvers.

Variable env : Env.

(** [getSchemaInfo] *)
Definition getSchemaInfo : M (list (string * JsValue)) :=
  let* t := now env in
  ret (SCHEMA_METADATA ++ [("timestamp", JStr (Date.toISOString t))]).

Definition validation_error : GraphQLResult :=
  errors_result ["Message content is required and cannot be empty"].

(** The session of a send: the one stored under a truthy id, or a new
    one. *)
Definition resolve_session (sessionId : JsValue) : M (string * ChatSession.t) :=
  let* w := get_world in
  match (if truthy sessionId then store_get sessionId w else None) with
  | Some found => ret found
  | None =>
      let* newSessionId := generateId env in
      let* created := now env in
      let* updated := now env in
      let session := ChatSession.make newSessionId [] created updated in
      let* _ := store_set newSessionId session in
      ret (newSessionId, session)
  end.

(** [handleSendMessage] from the resolution of the session to the
    appended user message. *)
Definition append_user (sessionId : JsValue) (trimmed : string)
    : M (string * ChatSession.t) :=
  let* (key, session) := resolve_session sessionId in
  let* userId := generateId env in
  let* userTime := now env in
  let* userMessage :=
    alloc (ChatMessage.make userId user trimmed userTime) in
  let session := ChatSession.with_messages
                   (ChatSession.messages session ++ [userMessage]) session in
  let* _ := store_set key session in
  ret (key, session).

(** The [try] around the completion call and its [catch]. *)
Definition complete (key : string) (session : ChatSession.t) : M GraphQLResult :=
  try_catch
    (let* w := get_world in
     let* events := lift (callDeepSeekAPI env (contents w session)) in
     let* assistantId := generateId env in
     let* assistantTime := now env in
     let* assistantMessage :=
       alloc (ChatMessage.make assistantId assistant EmptyString assistantTime) in
     let session := ChatSession.with_messages
                      (ChatSession.messages session ++ [assistantMessage]) session in
     let* updated := now env in
     let session := ChatSession.with_updatedAt updated session in
     let* _ := store_set key session in
     ret (data_result (sendMessage_data
            (ChatResponse.make true Absent
               (Value {| pending := map serialize events; sink := assistantMessage |})
               session Null))))
    (fun error =>
     let* updated := now env in
     let session := ChatSession.with_updatedAt updated session in
     let* _ := store_set key session in
     ret (data_result (sendMessage_data
            (ChatResponse.make false Null Absent session
               (Value (message_or "AI service temporarily unavailable" error)))))).

(** [handleSendMessage] after validation, with the trimmed text. *)
Definition send (sessionId : JsValue) (trimmed : string) : M GraphQLResult :=
  let* (key, session) := append_user sessionId trimmed in
  complete key session.

(** [handleSendMessage] *)
Definition handleSendMessage (query : string) (variables : JsValue) : M GraphQLResult :=
  let* sessionId := lift (resolveVariable variables query "sessionId") in
  let* message := lift (resolveVariable variables query "message") in
  let* useStream :=
    lift (exc_bind (resolveVariable variables query "stream")
            (fun v => inl (JS.or v (JBool true)))) in
  match message with
  | JStr text =>
      if negb (truthy message) || (String.length (trim text) =? 0)%nat
      then ret validation_error
      else send sessionId (trim text)
  | _ => ret validation_error
  end.

End Resolvers.

(** The operations the resolver tells apart. *)
Inductive Operation :=
  | hello
  | apiInfo
  | getChatSession
  | createChatSession
  | clearChatSession
  | deleteChatSession
  | sendMessage
  | unknown.

Definition operation_name (op : Operation) : string :=
  match op with
  | hello => "hello"
  | apiInfo => "apiInfo"
  | getChatSession => "getChatSession"
  | createChatSession => "createChatSession"
  | clearChatSession => "clearChatSession"
  | deleteChatSession => "deleteChatSession"
  | sendMessage => "sendMessage"
  | unknown => EmptyString
  end.

Definition unknown_operation : GraphQLResult :=
  errors_result ["Unknown GraphQL operation. Please check your query syntax."].

Section Execute.

Variable env : Env.

Definition hello_branch : M GraphQLResult :=
  ret (data_result (hello_data "Hello from GraphQL AI Chat API! 🚀")).

Definition apiInfo_branch : M GraphQLResult :=
  let* info := getSchemaInfo env in
  let* w := get_world in
  let* uptime := now env in
  ret (data_result (apiInfo_data
         (JObj (info ++
                [("sessionsCount", num (Z.of_nat (size (chatSessions w))));
                 ("uptime", num uptime);
                 ("status", JStr "healthy")])))).

Definition getChatSession_branch (query : string) (variables : JsValue) : M GraphQLResult :=
  let* sessionId := lift (resolveVariable variables query "id") in
  if negb (truthy sessionId) then
    ret (errors_result ["Session ID is required for getChatSession query"])
  else
    let* w := get_world in
    ret (data_result (getChatSession_data (snd <$> store_get sessionId w))).

Definition createChatSession_branch : M GraphQLResult :=
  let* sessionId := generateId env in
  let* created := now env in
  let* updated := now env in
  let session := ChatSession.make sessionId [] created updated in
  let* _ := store_set sessionId session in
  ret (data_result (createChatSession_data session)).

Definition clearChatSession_branch (query : string) (variables : JsValue) : M GraphQLResult :=
  let* sessionId := lift (resolveVariable variables query "sessionId") in
  if negb (truthy sessionId) then
    ret (errors_result ["Session ID is required for clearChatSession mutation"])
  else
    let* w := get_world in
    match store_get sessionId w with
    | None =>
        let* printed := lift (JS.toString sessionId) in
        ret (errors_result ["Session " +:+ printed +:+ " not found"])
    | Some (key, session) =>
        let session := ChatSession.with_messages [] session in
        let* updated := now env in
        let session := ChatSession.with_updatedAt updated session in
        let* _ := store_set key session in
        (** the id that is logged here is a key of the store, a string *)
        ret (data_result (clearChatSession_data session))
    end.

Definition deleteChatSession_branch (query : string) (variables : JsValue) : M GraphQLResult :=
  let* sessionId := lift (resolveVariable variables query "sessionId") in
  if negb (truthy sessionId) then
    ret (errors_result ["Session ID is required for deleteChatSession mutation"])
  else
    let* deleted := store_delete sessionId in
    (** the template literal that is logged *)
    let* logged := lift (JS.toString sessionId) in
    ret (data_result (deleteChatSession_data deleted)).

(** The body of the [try] of [executeGraphQL]. *)
Definition resolve (query : string) (variables : JsValue) : M GraphQLResult :=
  let queryStr := trim query in
  if includes queryStr "hello" then hello_branch
  else if includes queryStr "apiInfo" then apiInfo_branch
  else if includes queryStr "getChatSession" then getChatSession_branch query variables
  else if includes queryStr "createChatSession" then createChatSession_branch
  else if includes queryStr "clearChatSession" then clearChatSession_branch query variables
  else if includes queryStr "deleteChatSession" then deleteChatSession_branch query variables
  else if includes queryStr "sendMessage" then handleSendMessage env query variables
  else ret unknown_operation.

(** [executeGraphQL]: whatever the body throws becomes an error entry. *)
Definition executeGraphQL (query : string) (variables : JsValue)
    (w : World) : GraphQLResult * World :=
  match resolve query variables w with
  | (inl result, w') => (result, w')
  | (inr error, w') =>
      (errors_result [message_or "An unexpected error occurred" error], w')
  end.

End Execute.

(** ** The HTTP handler ([handlers/graphql]) *)

(** The body of a request once parsed, as the handler reads it. *)
Module GraphQLRequest.
Record t := make {
  query : JsValue;
  variables : JsValue;
  operationName : JsValue
}.
End GraphQLRequest.

Inductive HttpResponse :=
  (** [createJsonResponse(result, status)] *)
  | json_response (status : Z) (result : GraphQLResult)
  (** [new Response(stream, { headers })] *)
  | stream_response (headers : list (string * string)) (body : Readable).

Section Handler.

Variable env : Env.

(** [handleGraphQLRequest], from the parsed body on. *)
Definition handleGraphQLRequest (body : GraphQLRequest.t) (w : World)
    : HttpResponse * World :=
  match GraphQLRequest.query body with
  | JStr q =>
      if negb (truthy (GraphQLRequest.query body)) then
        (json_response 400
           (errors_result ["GraphQL query is required and must be a string"]), w)
      else if (String.length (trim q) =? 0)%nat then
        (json_response 400 (errors_result ["GraphQL query cannot be empty"]), w)
      else
        let '(result, w') :=
          executeGraphQL env q (JS.or (GraphQLRequest.variables body) (JObj [])) w in
        match result with
        | data_result (sendMessage_data
            (ChatResponse.make _ _ (Value stream) session _)) =>
            (stream_response
               [("Content-Type", "text/event-stream");
                ("Cache-Control", "no-cache");
                ("Connection", "keep-alive");
                ("X-Session-Id", ChatSession.id session)]
               stream, w')
        | _ => (json_response 200 result, w')
        end
  | _ =>
      (json_response 400
         (errors_result ["GraphQL query is required and must be a string"]), w)
  end.

End Handler.

(** What happens to the worker: a request is resolved, or the stream of
    an earlier answer is consumed. *)
Inductive Step :=
  | Request (query : string) (variables : JsValue)
  | Consume (r : Readable).

Definition step (env : Env) (s : Step) (w : World) : World :=
  match s with
  | Request query variables => snd (executeGraphQL env query variables w)
  | Consume r => pump r w
  end.

Definition run (env : Env) (steps : list Step) (w : World) : World :=
  fold_left (fun w s => step env s w) steps w.

(** ** Validation of a query ([handlers/graphql]) *)

Module Validation.
Record t := make {
  valid : bool;
  (** left out of the object when the query is valid *)
  error : option string
}.
End Validation.

(** The alternatives of the expression that [validateGraphQLQuery]
    tests. *)
Definition operation_keywords : list string :=
  ["query"; "mutation"; "subscription"; "{"].

(** The test of that expression: at the start of the text, any white
    space and then one of the alternatives, without regard to case. *)
Definition hasValidKeyword (s : string) : bool :=
  existsb (fun keyword =>
             match strip_nocase keyword (skip_ws s) with
             | Some _ => true
             | None => false
             end)
    operation_keywords.

(** [validateGraphQLQuery] *)
Definition validateGraphQLQuery (query : JsValue) : Validation.t :=
  match query with
  | JStr q =>
      if negb (truthy query) then
        Validation.make false (Some "Query must be a non-empty string")
      else
        let trimmedQuery := trim q in
        if (String.length trimmedQuery =? 0)%nat then
          Validation.make false (Some "Query cannot be empty")
        else if negb (hasValidKeyword trimmedQuery) then
          Validation.make false
            (Some "Query must start with query, mutation, subscription, or {")
        else Validation.make true None
  | _ => Validation.make false (Some "Query must be a non-empty string")
  end.

(** ** Statistics and maintenance of the store ([graphql/resolvers]) *)

(** The time value of [new Date(t)] for a number [t]: none, an invalid
    date, beyond the range of dates.  The text of a timestamp of a
    session was printed from a date and gives it back. *)
Definition time_value (t : Z) : option Z :=
  if Z.abs t <=? 8640000000000000 then Some t else None.

(** [a < b] on two dates: false as soon as one is invalid. *)
Definition date_lt (a b : option Z) : bool :=
  match a, b with
  | Some x, Some y => x <? y
  | _, _ => false
  end.

Record SessionStats := {
  totalSessions : nat;
  totalMessages : nat;
  activeSessions : nat;
  (** the createdAt of a session, or null *)
  oldestSession : option Z;
  newestSession : option Z
}.

(** [array.reduce(f)] without an initial value, on an array that is
    not empty. *)
Definition reduce {A} (f : A -> A -> A) (l : list A) : option A :=
  match l with
  | [] => None
  | x :: rest => Some (fold_left f rest x)
  end.

Section Maintenance.

Variable env : Env.

(** The callback of the filter of [getSessionStats]: it reads the
    clock at every session. *)
Definition updated_lately (session : ChatSession.t) : M bool :=
  let lastUpdate := Some (ChatSession.updatedAt session) in
  let* t := now env in
  let oneHourAgo := time_value (t - 60 * 60 * 1000) in
  ret (date_lt oneHourAgo lastUpdate).

Fixpoint filter_lately (sessions : list ChatSession.t) : M (list ChatSession.t) :=
  match sessions with
  | [] => ret []
  | session :: rest =>
      let* keep := updated_lately session in
      let* kept := filter_lately rest in
      ret (if keep then session :: kept else kept)
  end.

(** [getSessionStats], from the array of the values of the store. *)
Definition session_stats (sessions : list ChatSession.t) : M SessionStats :=
  let total :=
    fold_left (fun sum session => (sum + length (ChatSession.messages session))%nat)
      sessions 0%nat in
  let* active := filter_lately sessions in
  ret {| totalSessions := length sessions;
         totalMessages := total;
         activeSessions := length active;
         oldestSession :=
           if (0 <? length sessions)%nat then
             ChatSession.createdAt <$>
               reduce (fun oldest session =>
                         if date_lt (Some (ChatSession.createdAt session))
                                    (Some (ChatSession.createdAt oldest))
                         then session else oldest) sessions
           else None;
         newestSession :=
           if (0 <? length sessions)%nat then
             ChatSession.createdAt <$>
               reduce (fun newest session =>
                         if date_lt (Some (ChatSession.createdAt newest))
                                    (Some (ChatSession.createdAt session))
                         then session else newest) sessions
           else None |}.

(** [getSessionStats]: the store is enumerated in some order. *)
Definition getSessionStats : M SessionStats :=
  let* w := get_world in
  session_stats (snd <$> map_to_list (chatSessions w)).

(** The loop of [cleanupExpiredSessions] over the entries of the
    store. *)
Fixpoint cleanup_loop (cutoffTime : option Z) (entries : list (string * ChatSession.t))
    (cleanedCount : nat) : M nat :=
  match entries with
  | [] => ret cleanedCount
  | (sessionId, session) :: rest =>
      if date_lt (Some (ChatSession.updatedAt session)) cutoffTime then
        let* _ := store_delete (JStr sessionId) in
        cleanup_loop cutoffTime rest (S cleanedCount)
      else cleanup_loop cutoffTime rest cleanedCount
  end.

(** [cleanupExpiredSessions], for a whole number of hours. *)
Definition cleanupExpiredSessions (maxAgeHours : Z) : M nat :=
  let* t := now env in
  let cutoffTime := time_value (t - maxAgeHours * 60 * 60 * 1000) in
  let* w := get_world in
  cleanup_loop cutoffTime (map_to_list (chatSessions w)) 0.

End Maintenance.

(** ** Responses ([utils]) *)

(** [s.toUpperCase()] of a text of ASCII characters, which the method
    of a request is. *)
Fixpoint toUpperCase (s : string) : string :=
  match s with
  | EmptyString => EmptyString
  | String c r => String (upper c) (toUpperCase r)
  end.

(** An object that holds texts under names that are not array indices:
    its properties in the order in which they were first put. *)
Abbreviation TextObject := (list (string * string)).

(** [o[k] = v] *)
Fixpoint put (k v : string) (o : TextObject) : TextObject :=
  match o with
  | [] => [(k, v)]
  | (k', v') :: rest =>
      if String.eqb k k' then (k, v) :: rest else (k', v') :: put k v rest
  end.

(** [{ ...target, ...source }] *)
Definition spread (target source : TextObject) : TextObject :=
  fold_left (fun o '(k, v) => put k v o) source target.

(** A [Headers] object: its list of headers, in order, with the names
    as they were given.  The names are compared without regard to
    case.  The platform checks the names and the values it is given;
    those that the source gives are well formed. *)
Module Headers.

Definition t := list (string * string).

Definition same_name (a b : string) : bool :=
  String.eqb (toUpperCase a) (toUpperCase b).

(** [headers.get(name)]: the values of the headers of that name,
    joined, or null. *)
Definition get (name : string) (h : t) : option string :=
  match List.filter (fun e => same_name name e.1) h with
  | [] => None
  | found => Some (join ", " (map snd found))
  end.

(** [headers.set(name, value)]: the first header of that name takes
    the value and the others are removed; without one, the header is
    added at the end. *)
Fixpoint set (name value : string) (h : t) : t :=
  match h with
  | [] => [(name, value)]
  | (n, v) :: rest =>
      if same_name name n then
        (n, value) :: List.filter (fun e => negb (same_name name e.1)) rest
      else (n, v) :: set name value rest
  end.

End Headers.

(** What [JSON.stringify] is given for the body of a response: a value
    or the result of the resolver. *)
Inductive JsonData :=
  | value_data (v : JsValue)
  | result_data (r : GraphQLResult).

Inductive ReplyBody :=
  | no_body
  | text_body (text : string)
  (** the JSON text of the data *)
  | json_body (data : JsonData)
  | stream_body (stream : Readable).

(** A [Response] that the worker returns. *)
Module Reply.
Record t := make {
  status : Z;
  statusText : string;
  headers : Headers.t;
  body : ReplyBody
}.
End Reply.

(** [createCorsHeaders] *)
Definition createCorsHeaders : TextObject :=
  [("Access-Control-Allow-Origin", "*");
   ("Access-Control-Allow-Methods", "GET, POST, OPTIONS");
   ("Access-Control-Allow-Headers", "Content-Type, Authorization")].

(** [createJsonResponse] *)
Definition createJsonResponse (data : JsonData) (status : Z)
    (additionalHeaders : TextObject) : Reply.t :=
  let corsHeaders := createCorsHeaders in
  Reply.make status EmptyString
    (spread (spread corsHeaders [("Content-Type", "application/json")]) additionalHeaders)
    (json_body data).

(** [createHtmlResponse] *)
Definition createHtmlResponse (html : string) (status : Z)
    (additionalHeaders : TextObject) : Reply.t :=
  let corsHeaders := createCorsHeaders in
  Reply.make status EmptyString
    (spread (spread corsHeaders [("Content-Type", "text/html")]) additionalHeaders)
    (text_body html).

(** [createErrorResponse] *)
Definition createErrorResponse (message : string) (status : Z) : Reply.t :=
  createJsonResponse
    (value_data (JObj [("error", JStr "Server Error"); ("message", JStr message)]))
    status [].

(** [safeJsonParse] *)
Definition safeJsonParse (env : Env) (jsonString : string) : JsValue :=
  match JSON_parse env jsonString with
  | Some v => v
  | None => JNull
  end.

(** ** Requests ([handlers/graphql], [handlers/router]) *)

(** What [request.json()] gives: the value of the body, a SyntaxError
    for a body that is not JSON, or another failure. *)
Inductive JsonOutcome :=
  | Parsed (v : JsValue)
  | Malformed (message : string)
  | Unread (e : Thrown).

Module HttpRequest.
Record t := make {
  (** [request.method], a token of ASCII characters *)
  method : string;
  (** [new URL(request.url).pathname] *)
  pathname : string;
  json : JsonOutcome
}.
End HttpRequest.

(** The response that stands behind an answer of
    [handleGraphQLRequest]. *)
Definition render (answer : HttpResponse) : Reply.t :=
  match answer with
  | json_response status result => createJsonResponse (result_data result) status []
  | stream_response headers stream =>
      Reply.make 200 EmptyString headers (stream_body stream)
  end.

Module Http.

Section Handlers.

Variable env : Env.

(** The page of the playground, a constant of the source, and the page
    of the documentation, which the source fills with the version of
    the schema and a date. *)
Variable playground : string.
Variable documentation : JsValue -> Z -> string.

(** [handleGraphQLRequest], from the request on. *)
Definition handleGraphQLRequest (request : HttpRequest.t) : M Reply.t :=
  fun w =>
    match HttpRequest.json request with
    | Parsed body =>
        match member body "query" with
        | inl _ =>
            let '(answer, w') :=
              handleGraphQLRequest env
                (GraphQLRequest.make (own body "query") (own body "variables")
                   (own body "operationName")) w in
            (inl (render answer), w')
        | inr error =>
            (inl (createJsonResponse
                    (result_data
                       (errors_result
                          [message_or "Failed to process GraphQL request" error]))
                    500 []), w)
        end
    | Malformed message =>
        (inl (createJsonResponse
                (value_data
                   (JObj [("errors",
                           JArr [JObj [("message", JStr "Invalid JSON in request body");
                                       ("details", JStr message)]])]))
                400 []), w)
    | Unread error =>
        (inl (createJsonResponse
                (result_data
                   (errors_result [message_or "Failed to process GraphQL request" error]))
                500 []), w)
    end.

(** [handleGraphQLPlayground] *)
Definition handleGraphQLPlayground : Reply.t :=
  createHtmlResponse playground 200 [].

(** [handleDocumentation] *)
Definition handleDocumentation : M Reply.t :=
  let* schemaInfo := getSchemaInfo env in
  let* built := now env in
  ret (createHtmlResponse (documentation (assoc "version" schemaInfo) built) 200 []).

End Handlers.

End Http.

(** ** The router ([handlers/router]) *)

Module Router.

Record RouteConfig := {
  path : string;
  method : string;
  handler : HttpRequest.t -> M Reply.t;
  description : option string
}.

(** [route.path === path && route.method === method] *)
Definition serves (path method : string) (route : RouteConfig) : bool :=
  String.eqb (Router.path route) path && String.eqb (Router.method route) method.

(** [findMatchingRoute], on the table of routes *)
Definition findMatchingRoute (routes : list RouteConfig) (path method : string)
    : option RouteConfig :=
  List.find (serves path method) routes.

(** [addRoute]: the table after the call *)
Definition addRoute (route : RouteConfig) (routes : list RouteConfig)
    : list RouteConfig :=
  let exists_ := existsb (serves (Router.path route) (Router.method route)) routes in
  if exists_ then routes else routes ++ [route].

(** [[...new Set(array)]]: the elements in the order of their first
    occurrence *)
Definition distinct (l : list string) : list string :=
  fold_left (fun seen x => if existsb (String.eqb x) seen then seen else seen ++ [x]) l [].

Record RouteInfo := {
  info_method : string;
  info_path : string;
  info_description : string
}.

Record RouteStats := {
  totalRoutes : nat;
  routes_info : list RouteInfo;
  supportedMethods : list string;
  corsEnabled : bool;
  features : list string
}.

(** [route.description || 'No description'] *)
Definition description_or (fallback : string) (route : RouteConfig) : string :=
  match description route with
  | Some d => if is_empty d then fallback else d
  | None => fallback
  end.

(** [getRouteStats] *)
Definition getRouteStats (routes : list RouteConfig) : RouteStats :=
  {| totalRoutes := length routes;
     routes_info :=
       map (fun route =>
              {| info_method := Router.method route;
                 info_path := Router.path route;
                 info_description := description_or "No description" route |}) routes;
     supportedMethods := distinct (map Router.method routes);
     corsEnabled := true;
     features := ["CORS support"; "Request logging"; "Error handling"; "Route validation"] |}.

(** [handleCorsPreflightRequest] *)
Definition handleCorsPreflightRequest (corsHeaders : TextObject) : Reply.t :=
  Reply.make 204 EmptyString
    (spread corsHeaders [("Access-Control-Max-Age", "86400")]) no_body.

(** [handleNotFound] *)
Definition handleNotFound (routes : list RouteConfig) (path method : string)
    (corsHeaders : TextObject) : Reply.t :=
  let errorResponse :=
    JObj [("error", JStr "Not Found");
          ("message", JStr ("Route '" +:+ method +:+ " " +:+ path +:+ "' not found"));
          ("availableRoutes",
           JArr (map (fun route =>
                        JObj [("method", JStr (Router.method route));
                              ("path", JStr (Router.path route));
                              ("description",
                               match description route with
                               | Some d => JStr d
                               | None => JUndefined
                               end)]) routes));
          ("suggestion",
           JStr "Check the API documentation at / for available endpoints")] in
  createJsonResponse (value_data errorResponse) 404 [].

(** [handleServerError] *)
Definition handleServerError (error : Thrown) (corsHeaders : TextObject) : Reply.t :=
  let errorMessage := message_or "Unknown server error" error in
  createErrorResponse errorMessage 500.

(** [addCorsHeaders] *)
Definition addCorsHeaders (response : Reply.t) (corsHeaders : TextObject) : Reply.t :=
  match Headers.get "Access-Control-Allow-Origin" (Reply.headers response) with
  | Some (String _ _) => response
  | _ =>
      let newHeaders :=
        fold_left (fun h '(key, value) => Headers.set key value h)
          corsHeaders (Reply.headers response) in
      Reply.make (Reply.status response) (Reply.statusText response) newHeaders
        (Reply.body response)
  end.

Section Dispatch.

Variable env : Env.
Variable playground : string.
Variable documentation : JsValue -> Z -> string.

(** The table of routes when the worker starts. *)
Definition routes : list RouteConfig :=
  [{| path := "/graphql"; method := "POST";
      handler := Http.handleGraphQLRequest env;
      description := Some "GraphQL API endpoint for queries and mutations" |};
   {| path := "/graphql"; method := "GET";
      handler := fun _ => ret (Http.handleGraphQLPlayground playground);
      description := Some "GraphQL Playground interactive interface" |};
   {| path := "/"; method := "GET";
      handler := fun _ => Http.handleDocumentation env documentation;
      description := Some "API documentation and examples" |}].

(** [logRequest]: it reads the clock for the line it prints. *)
Definition logRequest (request : HttpRequest.t) (path method : string) : M unit :=
  let* timestamp := now env in
  ret tt.

(** [handleRequest], on the table of routes as it stands *)
Definition handleRequest (table : list RouteConfig) (request : HttpRequest.t)
    : M Reply.t :=
  let corsHeaders := createCorsHeaders in
  let path := HttpRequest.pathname request in
  let method := toUpperCase (HttpRequest.method request) in
  let* _ := logRequest request path method in
  try_catch
    (if String.eqb method "OPTIONS" then
       ret (handleCorsPreflightRequest corsHeaders)
     else
       match findMatchingRoute table path method with
       | None => ret (handleNotFound table path method corsHeaders)
       | Some route =>
           let* response := handler route request in
           ret (addCorsHeaders response corsHeaders)
       end)
    (fun error => ret (handleServerError error corsHeaders)).

End Dispatch.

End Router.

(** ** Sample environments and requests *)

Module Sample.

(** A parser that reads back the documents of [docs] and rejects any
    other text. *)
Definition parser_of (docs : list JsValue) (s : string) : option JsValue :=
  List.find (fun v => String.eqb (stringify v) s) docs.

(** A delta of the completion service carrying [s]. *)
Definition delta (s : string) : JsValue :=
  JObj [("choices", JArr [JObj [("delta", JObj [("content", JStr s)])]])].

Definition data_line (payload : string) : string :=
  "data: " +:+ payload +:+ single newline +:+ single newline.

(** A streamed answer: one delta, then the sentinel. *)
Definition answer : Body :=
  {| chunks := [data_line (stringify (delta "Hi")) +:+ data_line "[DONE]"];
     failure := None;
     stamps := fun n => 1754697600500 + Z.of_nat n |}.

Definition env_with (f : FetchResult) : Env :=
  {| clock := fun n => 1754697600000 + Z.of_nat n;
     random := fun n => "r" +:+ of_Z 10 (Z.of_nat n);
     JSON_parse := parser_of [delta "Hi"];
     fetch := fun _ => f |}.

Definition streaming : Env :=
  env_with (Responded {| ok := true; status := 200; text := inl EmptyString;
                         body := Some answer |}).

Definition failing : Env :=
  env_with (Responded {| ok := false; status := 503; text := inl "busy";
                         body := None |}).

(** The same answer with the sentinel in a chunk of its own. *)
Definition answer_in_two : Body :=
  {| chunks := [data_line (stringify (delta "Hi")); data_line "[DONE]"];
     failure := None;
     stamps := fun n => 1754697600500 + Z.of_nat n |}.

Definition streaming_in_two : Env :=
  env_with (Responded {| ok := true; status := 200; text := inl EmptyString;
                         body := Some answer_in_two |}).

(** An endpoint that cannot be reached, the platform giving no reason
    in the error it throws. *)
Definition unreachable : Env := env_with (Rejected (ErrorObject EmptyString)).

(** A clock that is set back by one second after its second reading. *)
Definition set_back : Env :=
  {| clock := fun n => if (n <? 2)%nat then 1754697600000 + Z.of_nat n
                       else 1754697599000 + Z.of_nat n;
     random := fun n => "r" +:+ of_Z 10 (Z.of_nat n);
     JSON_parse := parser_of [];
     fetch := fun _ => Rejected (ErrorObject "offline") |}.

(** A clock that does not advance between two requests. *)
Definition frozen : Env :=
  {| clock := fun _ => 1754697600000;
     random := fun n => "r" +:+ of_Z 10 (Z.of_nat n);
     JSON_parse := parser_of [];
     fetch := fun _ => Rejected (ErrorObject "offline") |}.

(** [name(arg: QUOTE value QUOTE)] inside a mutation. *)
Definition call (name arg value : string) : string :=
  "mutation { " +:+ name +:+ "(" +:+ arg +:+ ": " +:+
  String dquote (value +:+ String dquote ") { id } }").

Definition vars (l : list (string * string)) : JsValue :=
  JObj (map (fun '(k, v) => (k, JStr v)) l).

(** A session is created, a message is sent without a session id, and
    the first session is cleared. *)
Definition three_steps : list Step :=
  [Request "mutation { createChatSession { id } }" (JObj []);
   Request "mutation { sendMessage }" (vars [("message", "hi")]);
   Request (call "clearChatSession" "sessionId" "id_r0me3hn9c0") (JObj [])].

End Sample.


(** ** Notions of the specification *)

(** The fixed order in which the operation names are tried. *)
Definition priority : list Operation :=
  [hello; apiInfo; getChatSession; createChatSession; clearChatSession;
   deleteChatSession; sendMessage].

(** The classifier as the specification words it: the first operation
    of [priority] whose name the query contains, or [unknown]. *)
Definition classify (query : string) : Operation :=
  match List.find (fun op => includes query (operation_name op)) priority with
  | Some op => op
  | None => unknown
  end.

(** What the resolver does for an operation. *)
Definition branch (env : Env) (op : Operation) (query : string) (variables : JsValue)
    : M GraphQLResult :=
  match op with
  | hello => hello_branch
  | apiInfo => apiInfo_branch env
  | getChatSession => getChatSession_branch query variables
  | createChatSession => createChatSession_branch env
  | clearChatSession => clearChatSession_branch env query variables
  | deleteChatSession => deleteChatSession_branch query variables
  | sendMessage => handleSendMessage env query variables
  | unknown => ret unknown_operation
  end.



(** A run of white space. *)
Inductive ws_run : string -> Prop :=
  | ws_nil : ws_run EmptyString
  | ws_cons t s : In t whitespace -> ws_run s -> ws_run (t +:+ s).

(** Equality of two texts up to the case of the ASCII letters. *)
Inductive same_nocase : string -> string -> Prop :=
  | nocase_nil : same_nocase EmptyString EmptyString
  | nocase_cons a b s t :
      eqb_nocase a b = true -> same_nocase s t -> same_nocase (String a s) (String b t).





(** The clock never goes back. *)
Definition clock_monotone (env : Env) : Prop :=
  forall i j : nat, (i <= j)%nat -> clock env i <= clock env j.

(** A session found under [key] in a state the worker can be in: its
    timestamps are in order and not ahead of the clock, its references
    point into the heap, and [key] is the id that was generated for it. *)
Definition session_ok (env : Env) (w : World) (key : string) (s : ChatSession.t) : Prop :=
  ChatSession.createdAt s <= ChatSession.updatedAt s /\
  ChatSession.updatedAt s <= clock env (ticks w) /\
  Forall (fun r => (r < length (heap w))%nat) (ChatSession.messages s) /\
  startsWith key "id_" = true /\
  ChatSession.id s = key.

Definition sound (env : Env) (w : World) : Prop :=
  forall key s, chatSessions w !! key = Some s -> session_ok env w key s.

(** The identifier that [generateId] returns in a state. *)
Definition fresh_key (env : Env) (w : World) : string :=
  "id_" +:+ random env (draws w) +:+ of_Z 36 (clock env (ticks w)).

(** The text an event carries for the reply: that of a content event. *)
Definition event_text (e : Event) : string :=
  match e with
  | Content c =>
      match JS.toString c with
      | inl printed => printed
      | inr _ => EmptyString
      end
  | _ => EmptyString
  end.

Definition reply_text (events : list Event) : string :=
  concat_all (map event_text events).

(** The start event is put once, right before the first content event:
    [first] says that no content event came before [events]. *)
Fixpoint well_started (first : bool) (events : list Event) : Prop :=
  match events with
  | [] => True
  | Start _ :: rest =>
      first = true /\
      match rest with
      | Content _ :: rest' => well_started false rest'
      | _ => False
      end
  | Content _ :: rest => first = false /\ well_started false rest
  | _ :: rest => well_started first rest
  end.

Definition is_content (e : Event) : bool :=
  match e with Content _ => true | _ => false end.

(** A failure of the completion call that the platform describes: an
    [Error] it throws has a message. *)
Definition described (f : FetchResult) : Prop :=
  match f with
  | Rejected (ErrorObject m) => m <> EmptyString
  | Rejected (ThrownValue _) => True
  | Responded r =>
      if ok r then True
      else match text r with
           | inr (ErrorObject m) => m <> EmptyString
           | _ => True
           end
  end.

(** The session a send continues, if any. *)
Definition continued (sessionId : JsValue) (w : World) : option (string * ChatSession.t) :=
  if truthy sessionId then store_get sessionId w else None.

(** The references and the messages of the session a send continues:
    none for a fresh session. *)
Definition earlier_refs (sessionId : JsValue) (w : World) : list MessageRef :=
  match continued sessionId w with
  | Some (_, s) => ChatSession.messages s
  | None => []
  end.

Definition earlier_messages (sessionId : JsValue) (w : World) : list ChatMessage.t :=
  omap (fun r => heap w !! r) (earlier_refs sessionId w).

(** ** Notions of the further properties *)

(** No line break inside. *)
Fixpoint newline_free (s : string) : Prop :=
  match s with
  | EmptyString => True
  | String c r => c <> newline /\ newline_free r
  end.

(** The same body delivered in other chunks. *)
Definition with_chunks (cs : list string) (b : Body) : Body :=
  {| chunks := cs; failure := failure b; stamps := stamps b |}.

Definition set_buffer (buf : string) (st : Decoder) : Decoder :=
  {| buffer := buf; isFirstChunk := isFirstChunk st;
     hasError := hasError st; readings := readings st |}.

(** The lines of a text that are ended by a line break. *)
Definition complete_lines (text : string) : list string :=
  removelast (split newline text).

(** The decoding loop seen from the lines it is given. *)
Definition run_lines (env : Env) (b : Body) (st : Decoder) (lines : list string)
    : list Event * Flow :=
  match on_lines env (stamps b) st lines with
  | (_, out, Returned) => (out, Returned)
  | (st', out, Continue) => (out ++ after_loop b st', Continue)
  end.

(** The text of a body whose lines are [lines], each ended by a line
    break. *)
Definition lines_text (lines : list string) : string :=
  concat_all (map (fun l => l +:+ single newline) lines).

(** Whether the decoder reads a line as a data field. *)
Definition is_data (line : string) : bool := startsWith line "data: ".

(** The state of the decoding loop when it is entered. *)
Definition entry : Decoder :=
  {| buffer := EmptyString; isFirstChunk := true; hasError := false; readings := 0 |}.

(** The same platform with another completion endpoint. *)
Definition with_fetch (f : list ApiMessage -> FetchResult) (env : Env) : Env :=
  {| clock := clock env; random := random env; JSON_parse := JSON_parse env; fetch := f |}.

(** What the completion endpoint is sent for a message. *)
Definition api_message (m : ChatMessage.t) : ApiMessage :=
  {| api_role := role_name (ChatMessage.role m); api_content := ChatMessage.content m |}.

(** No byte of white space inside. *)
Fixpoint solid (s : string) : bool :=
  match s with
  | EmptyString => true
  | String c r => negb (space_byte c) && solid r
  end.

(** Whether a copy of [keyword], in any case, starts [s]. *)
Definition starts_nocase (keyword s : string) : bool :=
  match strip_nocase keyword s with
  | Some _ => true
  | None => false
  end.

(** A session last updated before the cutoff. *)
Definition expired (cutoffTime : option Z) (session : ChatSession.t) : bool :=
  date_lt (Some (ChatSession.updatedAt session)) cutoffTime.

(** The store after the expired sessions among [entries] are deleted
    from it. *)
Definition purge (cutoffTime : option Z) (store : gmap string ChatSession.t)
    (entries : list (string * ChatSession.t)) : gmap string ChatSession.t :=
  fold_left (fun m '(sessionId, session) =>
               if expired cutoffTime session then delete sessionId m else m)
    entries store.

(** The number that a digit stands for, and the number that a text of
    digits stands for in a radix: what reads back [Str.digits]. *)
Definition digit_value (c : ascii) : N :=
  let n := N_of_ascii c in
  if (n <? 58)%N then (n - 48)%N else (n - 87)%N.

Fixpoint value_go (radix acc : N) (s : string) : N :=
  match s with
  | EmptyString => acc
  | String c r => value_go radix (acc * radix + digit_value c)%N r
  end.

Definition value_of (radix : N) (s : string) : N := value_go radix 0 s.

(** The state after the clock was read once more. *)
Definition tick (w : World) : World :=
  {| chatSessions := chatSessions w; heap := heap w;
     ticks := S (ticks w); draws := draws w |}.

(** The path and the method that a route is registered under. *)
Definition route_key (route : Router.RouteConfig) : string * string :=
  (Router.path route, Router.method route).

(** ** Further sample data *)

Module Scenario.

(** The text of [Sample.answer], delivered in four pieces that cut
    across its lines. *)
Definition pieces : list string :=
  ["da";
   "ta: " +:+ stringify (Sample.delta "Hi") +:+ single newline;
   single newline +:+ "data: [DONE]";
   single newline +:+ single newline].

(** A body that is read to its end: no chunk yet. *)
Definition silent : Body :=
  {| chunks := []; failure := None; stamps := fun n => 1754697600500 + Z.of_nat n |}.

(** A comment, an event field, a data field without the space after
    the colon, a data field and an empty line. *)
Definition mixed : list string :=
  [": ping";
   "event: message";
   "data:" +:+ stringify (Sample.delta "Hi");
   "data: " +:+ stringify (Sample.delta "Hi");
   EmptyString].

(** Two sessions are created. *)
Definition two_sessions : World :=
  run Sample.failing
    [Request "mutation { createChatSession { id } }" (JObj []);
     Request "mutation { createChatSession { id } }" (JObj [])] init.

(** A route registered for the method of a preflight. *)
Definition options_route : Router.RouteConfig :=
  {| Router.path := "/graphql"; Router.method := "OPTIONS";
     Router.handler := fun _ => ret (createErrorResponse "reached" 500);
     Router.description := None |}.

(** The pages are of no account in the scenarios. *)
Definition table : list Router.RouteConfig :=
  Router.routes Sample.streaming "playground" (fun _ _ => "documentation").

End Scenario.

(** ** Proof steps *)

(** The state steps of the monad, for unfolding. *)
Ltac run :=
  cbv beta iota zeta
    delta [bind ret lift try_catch get_world modify store_set store_delete
           now random_text generateId alloc exc_bind].

(** The five parts of [session_ok]. *)
Ltac session_ok_split :=
  unfold session_ok;
  cbn [ChatSession.createdAt ChatSession.updatedAt ChatSession.messages ChatSession.id
       ChatSession.with_messages ChatSession.with_updatedAt ticks heap
       set_sessions set_heap];
  refine (conj _ (conj _ (conj _ (conj _ _)))).

(** * Properties *)

(** ** Strings *)

Module StrFacts.

Lemma app_cons a s t : String a s +:+ t = String a (s +:+ t).
Proof. reflexivity. Qed.

Lemma app_nil_l t : EmptyString +:+ t = t.
Proof. reflexivity. Qed.

Lemma app_nil_r s : s +:+ EmptyString = s.
Proof. induction s as [|a s IH]; [reflexivity|]. rewrite app_cons. now rewrite IH. Qed.

Lemma app_assoc s t u : (s +:+ t) +:+ u = s +:+ (t +:+ u).
Proof.
  induction s as [|a s IH]; [reflexivity|].
  rewrite !app_cons. now rewrite IH.
Qed.

Lemma length_app s t : String.length (s +:+ t) = (String.length s + String.length t)%nat.
Proof.
  induction s as [|a s IH]; [reflexivity|].
  rewrite app_cons. cbn. now rewrite IH.
Qed.

Lemma startsWith_nil s : startsWith s EmptyString = true.
Proof. destruct s; reflexivity. Qed.

Lemma startsWith_app p r : startsWith (p +:+ r) p = true.
Proof.
  induction p as [|a p IH]; [apply startsWith_nil|].
  rewrite app_cons. cbn. rewrite Ascii.eqb_refl. exact IH.
Qed.

Lemma startsWith_slice s p :
  startsWith s p = true -> s = p +:+ slice (String.length p) s.
Proof.
  revert s. induction p as [|a p IH]; intros s H.
  - reflexivity.
  - destruct s as [|b s]; [discriminate|].
    cbn in H. apply andb_prop in H as [Hab H].
    apply Ascii.eqb_eq in Hab. subst b.
    rewrite app_cons. cbn. f_equal. now apply IH.
Qed.

Lemma startsWith_spec s p : startsWith s p = true <-> exists r, s = p +:+ r.
Proof.
  split.
  - intros H. eexists. now apply startsWith_slice.
  - intros [r ->]. apply startsWith_app.
Qed.

Lemma slice_app p r : slice (String.length p) (p +:+ r) = r.
Proof. induction p as [|a p IH]; [reflexivity|]. rewrite app_cons. exact IH. Qed.

(** [includes] is substring containment. *)
Lemma includes_spec s p : includes s p = true <-> exists a b, s = a +:+ p +:+ b.
Proof.
  split.
  - induction s as [|c s IH]; cbn [includes]; intros H.
    + apply orb_prop in H as [H|H]; [|discriminate].
      apply startsWith_spec in H as [r ->]. now exists EmptyString, r.
    + apply orb_prop in H as [H|H].
      * apply startsWith_spec in H as [r ->]. now exists EmptyString, r.
      * destruct (IH H) as (a & b & ->). now exists (String c a), b.
  - intros (a & b & ->). induction a as [|c a IH].
    + rewrite app_nil_l. destruct (p +:+ b) eqn:E; cbn [includes]; rewrite <- ?E.
      * now rewrite startsWith_app.
      * now rewrite startsWith_app.
    + rewrite app_cons. cbn [includes]. rewrite IH. apply orb_true_r.
Qed.

Lemma spaces_only_app s t :
  spaces_only (s +:+ t) = spaces_only s && spaces_only t.
Proof.
  induction s as [|a s IH]; [reflexivity|].
  rewrite app_cons. cbn. rewrite IH. now rewrite andb_assoc.
Qed.

Lemma whitespace_spaces t : In t whitespace -> spaces_only t = true.
Proof.
  intros H. cbv [whitespace map] in H.
  repeat (destruct H as [<-|H]; [vm_compute; reflexivity|]).
  destruct H.
Qed.

Lemma strip_one_spec tbl s r :
  strip_one tbl s = Some r -> exists t, In t tbl /\ s = t +:+ r.
Proof.
  induction tbl as [|t tbl IH]; cbn; [discriminate|].
  destruct (startsWith s t) eqn:E.
  - intros [= <-]. exists t. split; [now left|]. now apply startsWith_slice.
  - intros H. destruct (IH H) as (t' & Hin & ->). exists t'. split; [now right|reflexivity].
Qed.

Lemma strip_many_spec fuel s :
  exists pre, ws_run pre /\ s = pre +:+ strip_many fuel whitespace s.
Proof.
  revert s. induction fuel as [|f IH]; intros s; cbn [strip_many].
  - exists EmptyString. split; [constructor|reflexivity].
  - destruct (strip_one whitespace s) as [r|] eqn:E.
    + apply strip_one_spec in E as (t & Hin & ->).
      destruct (IH r) as (pre & Hpre & Hr).
      exists (t +:+ pre). split; [now constructor|].
      rewrite app_assoc. now rewrite <- Hr.
    + exists EmptyString. split; [constructor|reflexivity].
Qed.

Lemma skip_ws_spec s : exists pre, ws_run pre /\ s = pre +:+ skip_ws s.
Proof. apply strip_many_spec. Qed.

Lemma ws_run_spaces s : ws_run s -> spaces_only s = true.
Proof.
  induction 1 as [|t s Hin _ IH]; [reflexivity|].
  rewrite spaces_only_app, IH. now rewrite (whitespace_spaces _ Hin).
Qed.

Lemma startsWith_first s p c :
  space_byte c = true -> first_ok p = true -> startsWith (String c s) p = false.
Proof.
  intros Hc Hp. destruct p as [|d p]; [discriminate|]. cbn in *.
  destruct (Ascii.eqb d c) eqn:E; [|reflexivity].
  apply Ascii.eqb_eq in E. subst d. now rewrite Hc in Hp.
Qed.

Lemma includes_after_spaces pre r p :
  spaces_only pre = true -> first_ok p = true ->
  includes (pre +:+ r) p = includes r p.
Proof.
  intros Hpre Hp. induction pre as [|c pre IH]; [reflexivity|].
  cbn in Hpre. apply andb_prop in Hpre as [Hc Hpre].
  rewrite app_cons. cbn [includes].
  rewrite (startsWith_first _ _ _ Hc Hp). cbn. now apply IH.
Qed.

Lemma includes_trimStart s p :
  first_ok p = true -> includes (trimStart s) p = includes s p.
Proof.
  intros Hp. destruct (skip_ws_spec s) as (pre & Hpre & Hs).
  unfold trimStart. rewrite Hs at 2.
  symmetry. apply includes_after_spaces; [now apply ws_run_spaces|exact Hp].
Qed.

Lemma last_ok_not_spaces p : last_ok p = true -> spaces_only p = false.
Proof.
  induction p as [|c p IH]; [discriminate|].
  destruct p as [|d p].
  - cbn. intros H. apply negb_true_iff in H. now rewrite H.
  - intros H. change (space_byte c && spaces_only (String d p) = false).
    rewrite (IH H). apply andb_false_r.
Qed.

Lemma startsWith_spaces s p :
  spaces_only s = true -> startsWith s p = true -> spaces_only p = true.
Proof.
  intros Hs H. apply startsWith_spec in H as [r ->].
  rewrite spaces_only_app in Hs. now apply andb_prop in Hs as [? _].
Qed.

Lemma includes_spaces s p :
  spaces_only s = true -> last_ok p = true -> includes s p = false.
Proof.
  intros Hs Hp. apply not_true_is_false. intros H.
  apply includes_spec in H as (a & b & ->).
  rewrite !spaces_only_app in Hs.
  apply andb_prop in Hs as [_ Hs]. apply andb_prop in Hs as [Hs _].
  rewrite (last_ok_not_spaces _ Hp) in Hs. discriminate.
Qed.

Lemma skip_ws_empty s : is_empty (skip_ws s) = true -> spaces_only s = true.
Proof.
  intros H. destruct (skip_ws_spec s) as (pre & Hpre & Hs).
  destruct (skip_ws s); [|discriminate].
  rewrite app_nil_r in Hs. subst s. now apply ws_run_spaces.
Qed.

Lemma startsWith_trimEnd s p :
  last_ok p = true -> startsWith (trimEnd s) p = startsWith s p.
Proof.
  revert p. induction s as [|c s IH]; intros p Hp; [reflexivity|].
  cbn [trimEnd]. destruct (is_empty (skip_ws (String c s))) eqn:E.
  - apply skip_ws_empty in E.
    destruct p as [|d p]; [discriminate|].
    symmetry. apply not_true_is_false. intros H.
    apply (startsWith_spaces _ _ E) in H.
    rewrite (last_ok_not_spaces _ Hp) in H. discriminate.
  - destruct p as [|d p]; [discriminate|]. cbn [startsWith].
    destruct p as [|e p].
    + now rewrite !startsWith_nil.
    + f_equal. apply IH. exact Hp.
Qed.

Lemma includes_trimEnd s p :
  last_ok p = true -> includes (trimEnd s) p = includes s p.
Proof.
  intros Hp. induction s as [|c s IH]; [reflexivity|].
  pose proof (startsWith_trimEnd (String c s) p Hp) as Hst.
  cbn [trimEnd] in *. destruct (is_empty (skip_ws (String c s))) eqn:E.
  - apply skip_ws_empty in E. rewrite (includes_spaces _ _ E Hp).
    destruct p; [discriminate|reflexivity].
  - cbn [includes]. rewrite Hst, IH. reflexivity.
Qed.

(** The fuel of [skip_ws] is enough: what it returns does not start
    with white space. *)
Lemma strip_one_shorter tbl s r :
  Forall (fun t => (1 <= String.length t)%nat) tbl ->
  strip_one tbl s = Some r -> (String.length r < String.length s)%nat.
Proof.
  intros Htbl H. apply strip_one_spec in H as (t & Hin & ->).
  rewrite Forall_forall in Htbl. apply list_elem_of_In in Hin.
  specialize (Htbl _ Hin). cbn in Htbl. rewrite length_app. lia.
Qed.

Lemma whitespace_lengths : Forall (fun t => (1 <= String.length t)%nat) whitespace.
Proof. cbv [whitespace map]. repeat constructor. Qed.

Lemma strip_many_done fuel s :
  (String.length s <= fuel)%nat ->
  strip_one whitespace (strip_many fuel whitespace s) = None.
Proof.
  revert s. induction fuel as [|f IH]; intros s Hlen.
  - destruct s; [reflexivity|cbn in Hlen; lia].
  - cbn [strip_many]. destruct (strip_one whitespace s) as [r|] eqn:E; [|exact E].
    apply IH. pose proof (strip_one_shorter _ _ _ whitespace_lengths E). lia.
Qed.

Lemma skip_ws_done s : strip_one whitespace (skip_ws s) = None.
Proof. apply strip_many_done. lia. Qed.

(** What [trimEnd] removes is a run of white space. *)
Lemma trimEnd_tail s :
  exists post, s = trimEnd s +:+ post /\ is_empty (skip_ws post) = true.
Proof.
  induction s as [|c s (post & Hs & Hpost)].
  - now exists EmptyString.
  - cbn [trimEnd]. destruct (is_empty (skip_ws (String c s))) eqn:E.
    + now exists (String c s).
    + exists post. split; [|exact Hpost]. rewrite app_cons. now rewrite <- Hs.
Qed.

(** The fuel of [digits] is enough: more of it changes nothing. *)
Lemma digits_go_fuel radix fuel n acc :
  (2 <= radix)%N -> (N.log2 n < N.of_nat fuel)%N ->
  digits_go fuel radix n acc = digits_go (S fuel) radix n acc.
Proof.
  intros Hr. revert n acc. induction fuel as [|f IH]; intros n acc Hf; [lia|].
  cbn [digits_go]. destruct (N.eqb_spec (n / radix) 0) as [E|E]; [reflexivity|].
  apply IH.
  assert (Hn : (radix <= n)%N).
  { destruct (N.le_gt_cases radix n) as [H|H]; [exact H|].
    now rewrite (N.div_small _ _ H) in E. }
  assert (Hdiv : (n / radix <= n / 2)%N) by (apply N.div_le_compat_l; lia).
  assert (Hlog : (N.log2 (n / 2) = N.log2 n - 1)%N).
  { rewrite <- N.div2_div, N.div2_spec. apply N.log2_shiftr. }
  pose proof (N.log2_le_mono _ _ Hdiv) as Hle.
  assert (1 <= N.log2 n)%N.
  { change 1%N with (N.log2 2). apply N.log2_le_mono. lia. }
  lia.
Qed.

(** Trimming does not change whether a word is contained. *)
Lemma includes_trim s p :
  first_ok p = true -> last_ok p = true -> includes (trim s) p = includes s p.
Proof.
  intros Hf Hl. unfold trim.
  rewrite includes_trimEnd by exact Hl. now apply includes_trimStart.
Qed.

End StrFacts.

(** ** Running the resolver *)

Lemma operation_names_trim op q :
  In op priority ->
  includes (trim q) (operation_name op) = includes q (operation_name op).
Proof.
  intros H. apply StrFacts.includes_trim;
    cbv [priority] in H;
    repeat (destruct H as [<-|H]; [reflexivity|]); destruct H.
Qed.

(** The chain of tests of the resolver is the classifier followed by the
    branch of the operation found. *)
Lemma resolve_classified env q v : resolve env q v = branch env (classify q) q v.
Proof.
  unfold resolve, classify, priority. cbn [List.find operation_name].
  assert (H : forall op, In op priority ->
            includes (trim q) (operation_name op) = includes q (operation_name op))
    by (intros; now apply operation_names_trim).
  pose proof (H hello) as H1. pose proof (H apiInfo) as H2.
  pose proof (H getChatSession) as H3. pose proof (H createChatSession) as H4.
  pose proof (H clearChatSession) as H5. pose proof (H deleteChatSession) as H6.
  pose proof (H sendMessage) as H7. clear H.
  cbn [operation_name] in *.
  rewrite H1, H2, H3, H4, H5, H6, H7 by (cbv [priority In]; tauto).
  clear H1 H2 H3 H4 H5 H6 H7.
  repeat match goal with
         | |- context [includes q ?n] => destruct (includes q n)
         end; reflexivity.
Qed.

Lemma find_first {A} (f : A -> bool) l x :
  List.find f l = Some x <->
  exists earlier later,
    l = earlier ++ x :: later /\ f x = true /\ Forall (fun y => f y = false) earlier.
Proof.
  induction l as [|a l IH]; cbn.
  - split; [discriminate|]. intros (e & r & H & _). now destruct e.
  - destruct (f a) eqn:E.
    + split.
      * intros [= <-]. exists [], l. auto.
      * intros ([|b e] & r & H & Hx & He).
        -- now injection H as -> ->.
        -- injection H as -> ->. inversion He; congruence.
    + rewrite IH. split.
      * intros (e & r & -> & Hx & He). exists (a :: e), r. auto.
      * intros ([|b e] & r & H & Hx & He).
        -- injection H as -> ->. congruence.
        -- injection H as -> ->. inversion He; subst. eauto.
Qed.

(** C4.  The resolver classifies a raw query by substring containment
    of the operation names, tried in the order hello, apiInfo,
    getChatSession, createChatSession, clearChatSession,
    deleteChatSession, sendMessage, and the first name contained wins:
    it runs the branch of the operation that the classifier finds; an
    operation is found exactly when the query contains its name and
    none of the names before it; the query of scenario E is a
    createChatSession; and a query that contains none of the names gets
    the error of an unknown operation with the state, and so the
    session store, as it was. *)
Theorem classification_by_priority env q v w :
  priority = [hello; apiInfo; getChatSession; createChatSession;
              clearChatSession; deleteChatSession; sendMessage] /\
  (forall p, includes q p = true <-> exists a b, q = a +:+ p +:+ b) /\
  (forall op, In op priority ->
     (classify q = op <->
      exists earlier later,
        priority = earlier ++ op :: later /\
        includes q (operation_name op) = true /\
        Forall (fun op' => includes q (operation_name op') = false) earlier)) /\
  (classify q = unknown <->
   Forall (fun op => includes q (operation_name op) = false) priority) /\
  executeGraphQL env q v w =
    (let '(r, w') := branch env (classify q) q v w in
     match r with
     | inl result => (result, w')
     | inr error => (errors_result [message_or "An unexpected error occurred" error], w')
     end) /\
  classify "mutation { createChatSession { id } }" = createChatSession /\
  (classify q = unknown -> executeGraphQL env q v w = (unknown_operation, w)).
Proof.
  assert (Hunknown : classify q = unknown <->
            Forall (fun op => includes q (operation_name op) = false) priority).
  { unfold classify.
    destruct (List.find _ priority) as [op|] eqn:E.
    - split.
      + intros ->. apply List.find_some in E as [Hin _].
        cbv [priority] in Hin. repeat (destruct Hin as [Hin|Hin]; [discriminate|]).
        destruct Hin.
      + intros Hall. apply List.find_some in E as [Hin Ht].
        rewrite Forall_forall in Hall. apply list_elem_of_In in Hin.
        rewrite (Hall _ Hin) in Ht. discriminate.
    - split; [|reflexivity]. intros _. apply Forall_forall. intros op Hin.
      apply list_elem_of_In in Hin. exact (List.find_none _ _ E _ Hin). }
  split; [reflexivity|].
  split; [intros p; apply StrFacts.includes_spec|].
  split.
  { intros op Hin. unfold classify.
    destruct (List.find _ priority) as [op'|] eqn:E.
    - split.
      + intros <-. now apply find_first in E.
      + intros H.
        apply (proj2 (find_first (fun o => includes q (operation_name o)) priority op)) in H.
        congruence.
    - split.
      + intros <-. cbv [priority] in Hin.
        repeat (destruct Hin as [Hin|Hin]; [discriminate|]). destruct Hin.
      + intros H.
        apply (proj2 (find_first (fun o => includes q (operation_name o)) priority op)) in H.
        congruence. }
  split; [exact Hunknown|].
  split.
  { unfold executeGraphQL. rewrite resolve_classified.
    destruct (branch env (classify q) q v w) as [[r|e] w']; reflexivity. }
  split; [vm_compute; reflexivity|].
  intros H. unfold executeGraphQL. rewrite resolve_classified, H. reflexivity.
Qed.

(** The expression built from a name whose parentheses pair up exists. *)
Lemma extractVariableFromQuery_returns q name :
  pairs_up 0 name = true ->
  extractVariableFromQuery q name =
    inl (match first_match name q with
         | Some v => JStr v
         | None => JNull
         end).
Proof. intros H. unfold extractVariableFromQuery. now rewrite H. Qed.

Lemma resolveVariable_defined vars q name v :
  resolveVariable vars q name = inl v -> nullish vars = false.
Proof.
  unfold resolveVariable, member, exc_bind. now destruct (nullish vars).
Qed.

Lemma resolveVariable_value vars q name :
  nullish vars = false ->
  pairs_up 0 name = true ->
  resolveVariable vars q name =
    inl (JS.or (own vars name)
           (match first_match name q with
            | Some v => JStr v
            | None => JNull
            end)).
Proof.
  intros H Hp. unfold resolveVariable, member, exc_bind, extractVariableFromQuery, JS.or.
  rewrite H, Hp. now destruct (truthy (own vars name)).
Qed.

Lemma executeGraphQL_branch env q v w op :
  classify q = op ->
  executeGraphQL env q v w =
    (let '(r, w') := branch env op q v w in
     match r with
     | inl result => (result, w')
     | inr error => (errors_result [message_or "An unexpected error occurred" error], w')
     end).
Proof.
  intros <-. unfold executeGraphQL. rewrite resolve_classified.
  now destruct (branch env (classify q) q v w) as [[r|e] w'].
Qed.

Lemma world_eta w :
  {| chatSessions := chatSessions w; heap := heap w; ticks := ticks w; draws := draws w |} = w.
Proof. now destruct w. Qed.

(** ** Validation of a send *)

(** C2.  When the message of a send is absent, is not a string, or
    trims to the empty string, [handleSendMessage] answers with the
    validation error and leaves the whole state as it was: no session
    is created and no stored session changes.  The same holds of
    [executeGraphQL] on a query that is a send. *)
Theorem invalid_message_rejected env q vars w message :
  resolveVariable vars q "message" = inl message ->
  (truthy message = false \/
   (forall s, message <> JStr s) \/
   (exists s, message = JStr s /\ trim s = EmptyString)) ->
  handleSendMessage env q vars w = (inl validation_error, w) /\
  (classify q = sendMessage -> executeGraphQL env q vars w = (validation_error, w)) /\
  chatSessions (snd (handleSendMessage env q vars w)) = chatSessions w.
Proof.
  intros Hm Hbad.
  assert (H : handleSendMessage env q vars w = (inl validation_error, w)).
  { pose proof (resolveVariable_defined _ _ _ _ Hm) as Hv.
    unfold handleSendMessage. run.
    rewrite Hm, !(resolveVariable_value _ _ _ Hv) by reflexivity.
    destruct Hbad as [Hf|[Hs|(s & -> & Ht)]].
    - destruct message; try reflexivity. cbn in Hf.
      cbn [truthy]. now rewrite Hf.
    - destruct message; try reflexivity. now destruct (Hs s).
    - rewrite Ht. cbn [String.length Nat.eqb]. now rewrite orb_true_r. }
  split; [exact H|]. split.
  - intros Hc. rewrite (executeGraphQL_branch _ _ _ _ _ Hc). cbn [branch]. now rewrite H.
  - now rewrite H.
Qed.

(** C2 at a message of three spaces. *)
Lemma invalid_message_rejected_witness :
  handleSendMessage Sample.streaming "mutation { sendMessage }"
    (Sample.vars [("message", "   ")]) init = (inl validation_error, init) /\
  (classify "mutation { sendMessage }" = sendMessage ->
   executeGraphQL Sample.streaming "mutation { sendMessage }"
     (Sample.vars [("message", "   ")]) init = (validation_error, init)) /\
  chatSessions (snd (handleSendMessage Sample.streaming "mutation { sendMessage }"
                       (Sample.vars [("message", "   ")]) init)) = chatSessions init.
Proof.
  apply (invalid_message_rejected Sample.streaming "mutation { sendMessage }"
           (Sample.vars [("message", "   ")]) init (JStr "   ")).
  - reflexivity.
  - right. right. exists "   ". split; reflexivity.
Defined.

(** ** Operations on a session that is not stored *)

(** C5, as stated, fails at the empty id: it is the id that the query
    gives, nothing is stored under it, and deleteChatSession answers
    with the error of a missing argument, not with false. *)
Lemma empty_session_id_is_required :
  let q := Sample.call "deleteChatSession" "sessionId" EmptyString in
  classify q = deleteChatSession /\
  resolveVariable (JObj []) q "sessionId" = inl (JStr EmptyString) /\
  chatSessions init !! EmptyString = None /\
  executeGraphQL Sample.failing q (JObj []) init =
    (errors_result ["Session ID is required for deleteChatSession mutation"], init).
Proof.
  cbv zeta. split; [vm_compute; reflexivity|]. split; [vm_compute; reflexivity|].
  split; [reflexivity|]. vm_compute. reflexivity.
Qed.

(** C5, amended.  For every non-empty session id not present in the
    store: clearChatSession answers with one error whose message names
    the id, deleteChatSession answers false and getChatSession answers
    null, both without an error, and each of the three leaves the
    state, and so the store, as it was. *)
Theorem unknown_session_asymmetry env q vars w sid :
  sid <> EmptyString ->
  chatSessions w !! sid = None ->
  (classify q = clearChatSession ->
   resolveVariable vars q "sessionId" = inl (JStr sid) ->
   executeGraphQL env q vars w =
     (errors_result ["Session " +:+ sid +:+ " not found"], w) /\
   includes ("Session " +:+ sid +:+ " not found") sid = true) /\
  (classify q = deleteChatSession ->
   resolveVariable vars q "sessionId" = inl (JStr sid) ->
   executeGraphQL env q vars w = (data_result (deleteChatSession_data false), w)) /\
  (classify q = getChatSession ->
   resolveVariable vars q "id" = inl (JStr sid) ->
   executeGraphQL env q vars w = (data_result (getChatSession_data None), w)).
Proof.
  intros Hne Hnone.
  assert (Ht : truthy (JStr sid) = true) by (destruct sid; [congruence|reflexivity]).
  split; [|split]; intros Hc Hr; rewrite (executeGraphQL_branch _ _ _ _ _ Hc); cbn [branch].
  - split.
    + unfold clearChatSession_branch. run. rewrite Hr, Ht. cbn [negb store_get].
      rewrite Hnone. reflexivity.
    + apply StrFacts.includes_spec. now exists "Session ", " not found".
  - unfold deleteChatSession_branch. run. rewrite Hr, Ht. cbn [negb].
    rewrite Hnone, (delete_id _ _ Hnone).
    rewrite bool_decide_eq_false_2 by (intros [? ?]; discriminate).
    unfold set_sessions. now rewrite world_eta.
  - unfold getChatSession_branch. run. rewrite Hr, Ht. cbn [negb store_get].
    rewrite Hnone. reflexivity.
Qed.

(** C5 at an id that was never generated. *)
Lemma unknown_session_asymmetry_witness :
  "nope" <> EmptyString /\
  chatSessions init !! "nope" = None /\
  executeGraphQL Sample.failing (Sample.call "clearChatSession" "sessionId" "nope")
    (JObj []) init = (errors_result ["Session nope not found"], init).
Proof.
  split; [discriminate|]. split; [reflexivity|].
  refine (proj1 (proj1 (unknown_session_asymmetry Sample.failing
                          (Sample.call "clearChatSession" "sessionId" "nope")
                          (JObj []) init "nope" _ _) _ _)).
  - discriminate.
  - reflexivity.
  - vm_compute. reflexivity.
  - vm_compute. reflexivity.
Defined.

(** ** The phases of a send *)

Lemma resolve_session_found env sid w key s :
  continued sid w = Some (key, s) ->
  resolve_session env sid w = (inl (key, s), w).
Proof.
  unfold continued. intros H. unfold resolve_session. run. now rewrite H.
Qed.

Lemma resolve_session_fresh env sid w :
  continued sid w = None ->
  let key := fresh_key env w in
  let s := ChatSession.make key [] (clock env (S (ticks w))) (clock env (S (S (ticks w)))) in
  resolve_session env sid w =
    (inl (key, s),
     {| chatSessions := <[key := s]> (chatSessions w); heap := heap w;
        ticks := S (S (S (ticks w))); draws := S (draws w) |}).
Proof.
  unfold continued. intros H. unfold resolve_session. run. rewrite H. reflexivity.
Qed.

Lemma append_user_effect env sid text w key s0 w0 :
  resolve_session env sid w = (inl (key, s0), w0) ->
  let userMessage :=
    ChatMessage.make (fresh_key env w0) user text (clock env (S (ticks w0))) in
  let s := ChatSession.with_messages
             (ChatSession.messages s0 ++ [length (heap w0)]) s0 in
  append_user env sid text w =
    (inl (key, s),
     {| chatSessions := <[key := s]> (chatSessions w0);
        heap := heap w0 ++ [userMessage];
        ticks := S (S (ticks w0)); draws := S (draws w0) |}).
Proof.
  intros H. unfold append_user. run. rewrite H. reflexivity.
Qed.

Lemma complete_failure env key s w e :
  callDeepSeekAPI env (contents w s) = inr e ->
  let s' := ChatSession.with_updatedAt (clock env (ticks w)) s in
  complete env key s w =
    (inl (data_result (sendMessage_data
            (ChatResponse.make false Null Absent s'
               (Value (message_or "AI service temporarily unavailable" e))))),
     {| chatSessions := <[key := s']> (chatSessions w); heap := heap w;
        ticks := S (ticks w); draws := draws w |}).
Proof.
  intros H. unfold complete. run. rewrite H. reflexivity.
Qed.

Lemma complete_success env key s w events :
  callDeepSeekAPI env (contents w s) = inl events ->
  let assistantMessage :=
    ChatMessage.make (fresh_key env w) assistant EmptyString (clock env (S (ticks w))) in
  let s' := ChatSession.with_updatedAt (clock env (S (S (ticks w))))
              (ChatSession.with_messages
                 (ChatSession.messages s ++ [length (heap w)]) s) in
  complete env key s w =
    (inl (data_result (sendMessage_data
            (ChatResponse.make true Absent
               (Value {| pending := map serialize events; sink := length (heap w) |})
               s' Null))),
     {| chatSessions := <[key := s']> (chatSessions w);
        heap := heap w ++ [assistantMessage];
        ticks := S (S (S (ticks w))); draws := S (draws w) |}).
Proof.
  intros H. unfold complete. run. rewrite H. reflexivity.
Qed.

Lemma resolve_session_total env sid w :
  exists key s0 w0, resolve_session env sid w = (inl (key, s0), w0).
Proof.
  destruct (continued sid w) as [[key s]|] eqn:E.
  - eauto using resolve_session_found.
  - eexists _, _, _. now apply resolve_session_fresh.
Qed.

Lemma handleSendMessage_valid env q vars w sid text :
  resolveVariable vars q "sessionId" = inl sid ->
  resolveVariable vars q "message" = inl (JStr text) ->
  trim text <> EmptyString ->
  handleSendMessage env q vars w = send env sid (trim text) w.
Proof.
  intros Hs Hm Ht. unfold handleSendMessage. run.
  rewrite Hs, Hm, (resolveVariable_value _ _ _ (resolveVariable_defined _ _ _ _ Hm))
    by reflexivity.
  assert (Hne : truthy (JStr text) = true).
  { destruct text; [|reflexivity]. now destruct Ht. }
  rewrite Hne. cbn [negb orb].
  destruct (trim text) eqn:E; [now destruct Ht|]. reflexivity.
Qed.

Lemma send_unfold env sid text w key s w1 :
  append_user env sid text w = (inl (key, s), w1) ->
  send env sid text w = complete env key s w1.
Proof. intros H. unfold send. run. now rewrite H. Qed.

(** ** The states the worker can be in *)

Section Soundness.

Variable env : Env.
Hypothesis monotone : clock_monotone env.

Lemma session_ok_later w w' key s :
  (ticks w <= ticks w')%nat ->
  (length (heap w) <= length (heap w'))%nat ->
  session_ok env w key s -> session_ok env w' key s.
Proof.
  intros Ht Hh (H1 & H2 & H3 & H4 & H5).
  repeat split; try assumption.
  - pose proof (monotone _ _ Ht). lia.
  - eapply Forall_impl; [exact H3|]. cbn. intros. lia.
Qed.

Lemma sound_later w w' :
  chatSessions w' = chatSessions w ->
  (ticks w <= ticks w')%nat ->
  (length (heap w) <= length (heap w'))%nat ->
  sound env w -> sound env w'.
Proof.
  intros Hs Ht Hh H key s Hk. rewrite Hs in Hk.
  eapply session_ok_later; eauto.
Qed.

Lemma sound_set w w' key s :
  chatSessions w' = <[key := s]> (chatSessions w) ->
  (ticks w <= ticks w')%nat ->
  (length (heap w) <= length (heap w'))%nat ->
  session_ok env w' key s ->
  sound env w -> sound env w'.
Proof.
  intros Hs Ht Hh Hok H k s' Hk. rewrite Hs in Hk.
  apply lookup_insert_Some in Hk as [[<- <-]|[_ Hk]]; [exact Hok|].
  eapply session_ok_later; eauto.
Qed.

Lemma sound_delete w w' key :
  chatSessions w' = delete key (chatSessions w) ->
  (ticks w <= ticks w')%nat ->
  (length (heap w) <= length (heap w'))%nat ->
  sound env w -> sound env w'.
Proof.
  intros Hs Ht Hh H k s' Hk. rewrite Hs in Hk.
  apply lookup_delete_Some in Hk as [_ Hk].
  eapply session_ok_later; eauto.
Qed.

Lemma fresh_key_generated w : startsWith (fresh_key env w) "id_" = true.
Proof. unfold fresh_key. apply StrFacts.startsWith_app. Qed.

Lemma continued_stored sid w key s :
  continued sid w = Some (key, s) -> chatSessions w !! key = Some s.
Proof.
  unfold continued. destruct (truthy sid); [|discriminate].
  destruct sid; try discriminate. cbn.
  destruct (chatSessions w !! s0) eqn:E; [|discriminate].
  now intros [= <- <-].
Qed.

Lemma resolve_session_sound sid w key s0 w0 :
  sound env w ->
  resolve_session env sid w = (inl (key, s0), w0) ->
  sound env w0 /\ session_ok env w0 key s0 /\
  chatSessions w0 !! key = Some s0 /\
  heap w0 = heap w /\ (ticks w <= ticks w0)%nat.
Proof.
  intros Hw H. destruct (continued sid w) as [[k s]|] eqn:E.
  - rewrite (resolve_session_found _ _ _ _ _ E) in H. injection H as <- <- <-.
    pose proof (continued_stored _ _ _ _ E) as Hk. auto using Hw.
  - rewrite (resolve_session_fresh _ _ _ E) in H. injection H as <- <- <-.
    assert (Hok : session_ok env
              {| chatSessions := <[fresh_key env w :=
                    ChatSession.make (fresh_key env w) []
                      (clock env (S (ticks w))) (clock env (S (S (ticks w))))]>
                    (chatSessions w);
                 heap := heap w; ticks := S (S (S (ticks w))); draws := S (draws w) |}
              (fresh_key env w)
              (ChatSession.make (fresh_key env w) []
                 (clock env (S (ticks w))) (clock env (S (S (ticks w)))))).
    { session_ok_split.
      - apply monotone. lia.
      - apply monotone. lia.
      - constructor.
      - apply fresh_key_generated.
      - reflexivity. }
    split; [|split; [exact Hok|split; [apply lookup_insert_eq|split; [reflexivity|cbn; lia]]]].
    eapply sound_set; [reflexivity| | |exact Hok|exact Hw]; cbn; lia.
Qed.

Lemma append_user_sound sid text w key s w1 :
  sound env w ->
  append_user env sid text w = (inl (key, s), w1) ->
  sound env w1 /\ session_ok env w1 key s /\
  chatSessions w1 !! key = Some s /\ (ticks w <= ticks w1)%nat /\
  (length (heap w) <= length (heap w1))%nat.
Proof.
  intros Hw H.
  destruct (resolve_session_total env sid w) as (k & s0 & w0 & Hr).
  rewrite (append_user_effect _ _ _ _ _ _ _ Hr) in H. injection H as <- <- <-.
  destruct (resolve_session_sound _ _ _ _ _ Hw Hr) as (Hw0 & Hok & Hk & Hh & Ht).
  match goal with |- sound env ?w1 /\ session_ok env _ _ ?s /\ _ =>
    assert (Hok1 : session_ok env w1 k s) end.
  { destruct Hok as (H1 & H2 & H3 & H4 & H5). session_ok_split; try assumption.
    - pose proof (monotone (ticks w0) (S (S (ticks w0)))). lia.
    - rewrite length_app. cbn. apply Forall_app. split.
      + eapply Forall_impl; [exact H3|]. cbn. intros. lia.
      + repeat constructor. lia. }
  split; [|split; [exact Hok1|split; [apply lookup_insert_eq|split]]].
  - eapply sound_set; [reflexivity| | |exact Hok1|exact Hw0]; cbn; [lia|].
    rewrite length_app. lia.
  - cbn. lia.
  - cbn. rewrite length_app, Hh. lia.
Qed.

Lemma complete_sound key s w :
  sound env w -> session_ok env w key s ->
  sound env (snd (complete env key s w)).
Proof.
  intros Hw (H1 & H2 & H3 & H4 & H5).
  destruct (callDeepSeekAPI env (contents w s)) as [events|e] eqn:E.
  - rewrite (complete_success _ _ _ _ _ E). cbn [snd].
    eapply (sound_set w); [reflexivity| | | |exact Hw]; cbn; try lia.
    + rewrite length_app. lia.
    + session_ok_split; try assumption.
      * pose proof (monotone (ticks w) (S (S (ticks w)))). lia.
      * apply monotone. lia.
      * rewrite length_app. cbn. apply Forall_app. split.
        -- eapply Forall_impl; [exact H3|]. cbn. intros. lia.
        -- repeat constructor. lia.
  - rewrite (complete_failure _ _ _ _ _ E). cbn [snd].
    eapply (sound_set w); [reflexivity| | | |exact Hw]; cbn; try lia.
    session_ok_split; try assumption.
    + lia.
    + apply monotone. lia.
Qed.

Lemma send_sound sid text w :
  sound env w -> sound env (snd (send env sid text w)).
Proof.
  intros Hw.
  destruct (resolve_session_total env sid w) as (k & s0 & w0 & Hr).
  pose proof (append_user_effect _ _ text _ _ _ _ Hr) as Ha. cbv zeta in Ha.
  rewrite (send_unfold _ _ _ _ _ _ _ Ha).
  destruct (append_user_sound _ _ _ _ _ _ Hw Ha) as (Hw1 & Hok & _).
  now apply complete_sound.
Qed.

Lemma handleSendMessage_sound q vars w :
  sound env w -> sound env (snd (handleSendMessage env q vars w)).
Proof.
  intros Hw. unfold handleSendMessage. run.
  destruct (resolveVariable vars q "sessionId") as [sid|e]; [|exact Hw].
  destruct (resolveVariable vars q "message") as [message|e]; [|exact Hw].
  destruct (resolveVariable vars q "stream") as [stream|e]; [|exact Hw].
  destruct message; try exact Hw.
  destruct (_ || _); [exact Hw|]. now apply send_sound.
Qed.

Lemma branch_sound op q vars w :
  sound env w -> sound env (snd (branch env op q vars w)).
Proof.
  intros Hw. destruct op; cbn [branch].
  - exact Hw.
  - unfold apiInfo_branch, getSchemaInfo. run. cbn [snd].
    eapply (sound_later w); [reflexivity| | |exact Hw]; cbn; lia.
  - unfold getChatSession_branch. run.
    destruct (resolveVariable vars q "id") as [sid|e]; [|exact Hw].
    destruct (negb (truthy sid)); exact Hw.
  - unfold createChatSession_branch. run. cbn [snd].
    eapply (sound_set w); [reflexivity|cbn; lia|cbn; lia| |exact Hw].
    session_ok_split.
    + apply monotone. lia.
    + apply monotone. lia.
    + constructor.
    + apply StrFacts.startsWith_app.
    + reflexivity.
  - unfold clearChatSession_branch. run.
    destruct (resolveVariable vars q "sessionId") as [sid|e]; [|exact Hw].
    destruct (negb (truthy sid)); [exact Hw|].
    destruct (store_get sid w) as [[key s]|] eqn:E;
      [|destruct (JS.toString sid); exact Hw].
    cbn [snd].
    assert (Hk : chatSessions w !! key = Some s).
    { destruct sid; try discriminate. cbn in E.
      destruct (chatSessions w !! s0) eqn:E'; [|discriminate].
      now injection E as <- <-. }
    destruct (Hw _ _ Hk) as (H1 & H2 & H3 & H4 & H5).
    eapply (sound_set w); [reflexivity| | | |exact Hw]; cbn; try lia.
    session_ok_split; try assumption.
    + lia.
    + apply monotone. lia.
    + constructor.
  - unfold deleteChatSession_branch. run.
    destruct (resolveVariable vars q "sessionId") as [sid|e]; [|exact Hw].
    destruct (negb (truthy sid)); [exact Hw|].
    destruct sid; try (destruct (JS.toString _); exact Hw). cbn [JS.toString snd].
    eapply (sound_delete w); [reflexivity| | |exact Hw]; cbn; lia.
  - now apply handleSendMessage_sound.
  - exact Hw.
Qed.

Lemma executeGraphQL_sound q vars w :
  sound env w -> sound env (snd (executeGraphQL env q vars w)).
Proof.
  intros Hw. unfold executeGraphQL. rewrite resolve_classified.
  pose proof (branch_sound (classify q) q vars w Hw) as H.
  destruct (branch env (classify q) q vars w) as [[r|e] w']; exact H.
Qed.

Lemma set_content_length target c w :
  length (heap (set_content target c w)) = length (heap w).
Proof.
  unfold set_content. destruct (heap w !! target); [|reflexivity].
  cbn. apply length_insert.
Qed.

Lemma pump_from_frame target full source w :
  chatSessions (pump_from target full source w) = chatSessions w /\
  ticks (pump_from target full source w) = ticks w /\
  length (heap (pump_from target full source w)) = length (heap w).
Proof.
  revert full w. induction source as [|v rest IH]; intros full w; cbn [pump_from].
  - auto.
  - destruct (IH (full +:+ v) (set_content target (full +:+ v) w)) as (H1 & H2 & H3).
    rewrite H1, H2, H3, set_content_length.
    unfold set_content. destruct (heap w !! target); auto.
Qed.

Lemma pump_sound r w : sound env w -> sound env (pump r w).
Proof.
  intros Hw. destruct (pump_from_frame (sink r) EmptyString (pending r) w) as (H1 & H2 & H3).
  eapply (sound_later w); [exact H1| | |exact Hw]; unfold pump; lia.
Qed.

Lemma sound_init : sound env init.
Proof. intros key s H. cbn in H. now rewrite lookup_empty in H. Qed.

Lemma step_sound st w : sound env w -> sound env (step env st w).
Proof.
  destruct st; cbn [step]; [apply executeGraphQL_sound|apply pump_sound].
Qed.

Lemma run_sound steps w : sound env w -> sound env (run env steps w).
Proof.
  revert w. induction steps as [|st steps IH]; intros w Hw; [exact Hw|].
  cbn. apply IH. now apply step_sound.
Qed.

End Soundness.

(** ** Order of the timestamps *)

(** C9, as stated, fails on a clock that is set back: the two
    timestamps of a session are two readings of the wall clock, and
    when the clock is set back by a second between the reading for
    createdAt and the reading for updatedAt, createChatSession stores a
    session whose updatedAt is before its createdAt. *)
Lemma clock_set_back_breaks_order :
  exists s w,
    clock Sample.set_back 1 = 1754697600001 /\
    clock Sample.set_back 2 = 1754697599002 /\
    executeGraphQL Sample.set_back "mutation { createChatSession { id } }" (JObj []) init =
      (data_result (createChatSession_data s), w) /\
    chatSessions w !! ChatSession.id s = Some s /\
    ChatSession.createdAt s = 1754697600001 /\
    ChatSession.updatedAt s = 1754697599002 /\
    ~ ChatSession.updatedAt s >= ChatSession.createdAt s.
Proof.
  eexists _, _. split; [reflexivity|]. split; [reflexivity|].
  split; [vm_compute; reflexivity|].
  split; [vm_compute; reflexivity|].
  split; [reflexivity|]. split; [reflexivity|].
  vm_compute. intros H. now apply H.
Qed.

(** C9, amended.  With a clock that never goes back, every session
    stored after any sequence of operations (createChatSession,
    getChatSession, clearChatSession, deleteChatSession, sendMessage on
    each of its paths, and the consumption of a stream), started from
    the empty store, has [updatedAt >= createdAt]; and one more
    operation keeps it so in any state the worker can be in. *)
Theorem updatedAt_not_before_createdAt env :
  clock_monotone env ->
  (forall steps key s,
     chatSessions (run env steps init) !! key = Some s ->
     ChatSession.updatedAt s >= ChatSession.createdAt s) /\
  (forall w q vars key s,
     sound env w ->
     chatSessions (snd (executeGraphQL env q vars w)) !! key = Some s ->
     ChatSession.updatedAt s >= ChatSession.createdAt s).
Proof.
  intros Hm. split.
  - intros steps key s H.
    destruct (run_sound env Hm steps init (sound_init env) key s H) as [H1 _]. lia.
  - intros w q vars key s Hw H.
    destruct (executeGraphQL_sound env Hm q vars w Hw key s H) as [H1 _]. lia.
Qed.

Lemma sample_clock_monotone f : clock_monotone (Sample.env_with f).
Proof. intros i j H. cbn. lia. Qed.

(** C9 after a creation, a send that fails and a clear. *)
Lemma updatedAt_not_before_createdAt_witness :
  clock_monotone Sample.failing /\
  exists s,
    chatSessions (run Sample.failing Sample.three_steps init) !! "id_r0me3hn9c0" = Some s /\
    ChatSession.updatedAt s >= ChatSession.createdAt s.
Proof.
  split; [apply sample_clock_monotone|].
  exists (ChatSession.make "id_r0me3hn9c0" [] 1754697600001 1754697600009).
  split; [vm_compute; reflexivity|].
  apply (proj1 (updatedAt_not_before_createdAt Sample.failing
                  (sample_clock_monotone _))
           Sample.three_steps "id_r0me3hn9c0").
  vm_compute. reflexivity.
Defined.

(** ** Clearing a stored session *)

Lemma generated_key_truthy env w key s :
  sound env w -> chatSessions w !! key = Some s -> truthy (JStr key) = true.
Proof.
  intros Hw Hk. destruct (Hw _ _ Hk) as (_ & _ & _ & H & _).
  destruct key; [discriminate|reflexivity].
Qed.

(** C6, as stated, fails: on a clock that shows the same millisecond for
    the creation of a session and for the request that clears it, the
    session is cleared and its updatedAt is what it was. *)
Lemma clear_within_one_millisecond :
  let w := snd (executeGraphQL Sample.frozen
                  "mutation { createChatSession { id } }" (JObj []) init) in
  exists s s' w',
    chatSessions w !! "id_r0me3hn9c0" = Some s /\
    executeGraphQL Sample.frozen
      (Sample.call "clearChatSession" "sessionId" "id_r0me3hn9c0") (JObj []) w =
      (data_result (clearChatSession_data s'), w') /\
    chatSessions w' !! "id_r0me3hn9c0" = Some s' /\
    ~ ChatSession.updatedAt s < ChatSession.updatedAt s'.
Proof.
  cbv zeta. eexists _, _, _.
  split; [vm_compute; reflexivity|].
  split; [vm_compute; reflexivity|].
  split; [vm_compute; reflexivity|].
  vm_compute. discriminate.
Qed.

(** C6, amended.  For every session id present in the store,
    clearChatSession empties the messages of that session, leaves its
    id and createdAt as they were and stores the result under the same
    id; it sets updatedAt to the reading of the clock, which, with a
    clock that never goes back, is never below the former value, and is
    above it exactly when the clock has moved past that value. *)
Theorem clear_resets_session env q vars w sid s :
  sound env w ->
  classify q = clearChatSession ->
  resolveVariable vars q "sessionId" = inl (JStr sid) ->
  chatSessions w !! sid = Some s ->
  exists s' w',
    executeGraphQL env q vars w = (data_result (clearChatSession_data s'), w') /\
    chatSessions w' = <[sid := s']> (chatSessions w) /\
    ChatSession.messages s' = [] /\
    ChatSession.id s' = ChatSession.id s /\
    ChatSession.createdAt s' = ChatSession.createdAt s /\
    ChatSession.updatedAt s' = clock env (ticks w) /\
    ChatSession.updatedAt s' >= ChatSession.updatedAt s /\
    (ChatSession.updatedAt s' > ChatSession.updatedAt s <->
     clock env (ticks w) > ChatSession.updatedAt s).
Proof.
  intros Hw Hc Hr Hk.
  pose proof (generated_key_truthy _ _ _ _ Hw Hk) as Ht.
  destruct (Hw _ _ Hk) as (_ & Hu & _).
  rewrite (executeGraphQL_branch _ _ _ _ _ Hc). cbn [branch].
  unfold clearChatSession_branch. run. rewrite Hr, Ht. cbn [negb store_get].
  rewrite Hk. cbn [fmap option_fmap option_map].
  eexists _, _. split; [reflexivity|]. cbn.
  repeat split; try reflexivity; lia.
Qed.

(** C6 at a session that was just created. *)
Lemma clear_resets_session_witness :
  let w := snd (executeGraphQL Sample.failing
                  "mutation { createChatSession { id } }" (JObj []) init) in
  exists s' w',
    executeGraphQL Sample.failing
      (Sample.call "clearChatSession" "sessionId" "id_r0me3hn9c0") (JObj []) w =
      (data_result (clearChatSession_data s'), w') /\
    ChatSession.messages s' = [] /\
    ChatSession.updatedAt s' = 1754697600003.
Proof.
  cbv zeta.
  destruct (clear_resets_session Sample.failing
              (Sample.call "clearChatSession" "sessionId" "id_r0me3hn9c0") (JObj [])
              (snd (executeGraphQL Sample.failing
                      "mutation { createChatSession { id } }" (JObj []) init))
              "id_r0me3hn9c0"
              (ChatSession.make "id_r0me3hn9c0" [] 1754697600001 1754697600002))
    as (s' & w' & H1 & _ & H3 & _ & _ & H6 & _).
  - apply executeGraphQL_sound; [apply sample_clock_monotone|apply sound_init].
  - vm_compute. reflexivity.
  - vm_compute. reflexivity.
  - vm_compute. reflexivity.
  - exists s', w'. split; [exact H1|]. split; [exact H3|]. exact H6.
Defined.

(** ** A send whose completion call fails *)

Lemma app_not_empty s t : s <> EmptyString -> s +:+ t <> EmptyString.
Proof. destruct s; [congruence|]. intros _. rewrite StrFacts.app_cons. discriminate. Qed.

(** What [getChatCompletion] throws is an [Error], and it has a message
    when the platform describes its own failures. *)
Lemma getChatCompletion_throws env messages e :
  getChatCompletion env messages = inr e ->
  exists m, e = ErrorObject m /\
            (described (fetch env (apiMessages messages)) -> m <> EmptyString).
Proof.
  unfold getChatCompletion, described.
  destruct (fetch env (apiMessages messages)) as [[m|v]|r]; cbn [rethrow].
  - intros [= <-]. eauto.
  - intros [= <-]. eexists. split; [reflexivity|discriminate].
  - destruct (ok r); cbn [negb].
    + destruct (body r); [discriminate|].
      intros [= <-]. eexists. split; [reflexivity|discriminate].
    + destruct (text r) as [t|[m|v]]; cbn [rethrow].
      * intros [= <-]. eexists. split; [reflexivity|].
        intros _. apply app_not_empty. discriminate.
      * intros [= <-]. eauto.
      * intros [= <-]. eexists. split; [reflexivity|discriminate].
Qed.

Lemma contents_grow (h h' : list ChatMessage.t) (refs : list MessageRef) :
  Forall (fun r => (r < length h)%nat) refs ->
  omap (fun r => (h ++ h') !! r) refs = omap (fun r => h !! r) refs.
Proof.
  induction 1 as [|r refs Hr _ IH]; [reflexivity|].
  cbn [omap list_omap]. fold (@omap list _ _ _ (fun r => (h ++ h') !! r) refs).
  fold (@omap list _ _ _ (fun r => h !! r) refs).
  rewrite IH, (lookup_app_l h h' r Hr). reflexivity.
Qed.

Lemma contents_appended (h : list ChatMessage.t) (refs : list MessageRef) m :
  Forall (fun r => (r < length h)%nat) refs ->
  omap (fun r => (h ++ [m]) !! r) (refs ++ [length h]) =
  omap (fun r => h !! r) refs ++ [m].
Proof.
  intros H. rewrite omap_app, (contents_grow _ _ _ H). cbn.
  now rewrite list_lookup_middle.
Qed.

(** The session after the user message is appended: the references it
    held, then one to the new message, which is put at the end of the
    heap. *)
Lemma append_user_appends env sid text w key s w1 :
  append_user env sid text w = (inl (key, s), w1) ->
  exists userMessage,
    ChatSession.messages s = earlier_refs sid w ++ [length (heap w)] /\
    heap w1 = heap w ++ [userMessage] /\
    ChatMessage.role userMessage = user /\
    ChatMessage.content userMessage = text /\
    chatSessions w1 !! key = Some s.
Proof.
  intros H. unfold earlier_refs.
  destruct (continued sid w) as [[k s0]|] eqn:E.
  - pose proof (resolve_session_found env _ _ _ _ E) as Hr.
    rewrite (append_user_effect _ _ _ _ _ _ _ Hr) in H. injection H as <- <- <-.
    eexists. split; [reflexivity|]. split; [reflexivity|].
    split; [reflexivity|]. split; [reflexivity|]. apply lookup_insert_eq.
  - pose proof (resolve_session_fresh env _ _ E) as Hr. cbv zeta in Hr.
    rewrite (append_user_effect _ _ _ _ _ _ _ Hr) in H. injection H as <- <- <-.
    eexists. split; [reflexivity|]. split; [reflexivity|].
    split; [reflexivity|]. split; [reflexivity|]. apply lookup_insert_eq.
Qed.

(** C3, as stated, fails when the platform gives no reason for a
    failure: the endpoint cannot be reached and the error that [fetch]
    throws has an empty message; the send answers with success false
    and the session keeps the user message, but the error of the result
    is that message, the empty string. *)
Lemma undescribed_failure_has_empty_error :
  exists r w,
    (forall request, fetch Sample.unreachable request = Rejected (ErrorObject EmptyString)) /\
    executeGraphQL Sample.unreachable "mutation { sendMessage }"
      (Sample.vars [("message", "hi")]) init = (data_result (sendMessage_data r), w) /\
    ChatResponse.success r = false /\
    ChatResponse.error r = Value EmptyString /\
    map ChatMessage.role (contents w (ChatResponse.session r)) = [user].
Proof.
  eexists _, _. split; [reflexivity|].
  split; [vm_compute; reflexivity|].
  repeat split; vm_compute; reflexivity.
Qed.

(** C3, amended.  When a send passes validation and the completion
    call fails, the result has success false, a null message and no
    stream, and its error is the message of the error that the call
    threw: it is not empty for an upstream status that is not 2xx, for
    a missing body, for a thrown value that is no Error, and for an
    Error thrown by [fetch] or by the reading of the error text whose
    message is not empty.  The session it returns is the one stored;
    its messages are those it had before followed by the user message,
    which is kept, and no assistant message; and its updatedAt is the
    reading of the clock taken after the failure. *)
Theorem failed_completion_keeps_user_message
    env q vars w sid text key session w1 e :
  resolveVariable vars q "sessionId" = inl sid ->
  resolveVariable vars q "message" = inl (JStr text) ->
  trim text <> EmptyString ->
  append_user env sid (trim text) w = (inl (key, session), w1) ->
  callDeepSeekAPI env (contents w1 session) = inr e ->
  exists r w2 userMessage msg,
    handleSendMessage env q vars w = (inl (data_result (sendMessage_data r)), w2) /\
    ChatResponse.success r = false /\
    e = ErrorObject msg /\
    ChatResponse.error r = Value msg /\
    (described (fetch env (apiMessages (contents w1 session))) -> msg <> EmptyString) /\
    ChatResponse.message r = Null /\
    ChatResponse.stream r = Absent /\
    chatSessions w2 !! key = Some (ChatResponse.session r) /\
    ChatSession.messages (ChatResponse.session r) =
      earlier_refs sid w ++ [length (heap w)] /\
    heap w2 = heap w ++ [userMessage] /\
    ChatMessage.role userMessage = user /\
    ChatMessage.content userMessage = trim text /\
    ChatSession.updatedAt (ChatResponse.session r) = clock env (ticks w1) /\
    (Forall (fun r => (r < length (heap w))%nat) (earlier_refs sid w) ->
     contents w2 (ChatResponse.session r) = earlier_messages sid w ++ [userMessage]).
Proof.
  intros Hs Hm Ht Ha Hc.
  destruct (getChatCompletion_throws _ _ _ Hc) as (m & -> & Hne).
  destruct (append_user_appends _ _ _ _ _ _ _ Ha) as (um & Hrefs & Hheap & Hrole & Htext & _).
  rewrite (handleSendMessage_valid _ _ _ _ _ _ Hs Hm Ht).
  rewrite (send_unfold _ _ _ _ _ _ _ Ha).
  rewrite (complete_failure _ _ _ _ _ Hc).
  eexists _, _, um, m. split; [reflexivity|].
  cbn [ChatResponse.success ChatResponse.error ChatResponse.message ChatResponse.stream
       ChatResponse.session chatSessions heap ChatSession.messages ChatSession.updatedAt
       ChatSession.with_updatedAt].
  repeat split; try assumption; try reflexivity.
  - apply lookup_insert_eq.
  - intros Hclosed. unfold contents, earlier_messages.
    cbn [heap ChatSession.messages ChatSession.with_updatedAt].
    rewrite Hrefs, Hheap. now apply contents_appended.
Qed.

(** C3 at scenario D: the endpoint answers 503. *)
Lemma failed_completion_keeps_user_message_witness :
  exists r w2,
    handleSendMessage Sample.failing "mutation { sendMessage }"
      (Sample.vars [("message", " hi ")]) init =
      (inl (data_result (sendMessage_data r)), w2) /\
    ChatResponse.success r = false /\
    ChatResponse.error r = Value "DeepSeek API 错误: 503 busy" /\
    contents w2 (ChatResponse.session r) =
      [ChatMessage.make "id_r1me3hn9c3" user "hi" 1754697600004].
Proof.
  destruct (failed_completion_keeps_user_message Sample.failing
              "mutation { sendMessage }" (Sample.vars [("message", " hi ")]) init
              JNull " hi " "id_r0me3hn9c0"
              (ChatSession.make "id_r0me3hn9c0" [0%nat] 1754697600001 1754697600002)
              (snd (append_user Sample.failing JNull "hi" init))
              (ErrorObject "DeepSeek API 错误: 503 busy"))
    as (r & w2 & um & msg & H1 & H2 & _).
  - reflexivity.
  - reflexivity.
  - vm_compute. discriminate.
  - vm_compute. reflexivity.
  - vm_compute. reflexivity.
  - exists r, w2. split; [exact H1|]. split; [exact H2|].
    assert (E : handleSendMessage Sample.failing "mutation { sendMessage }"
                  (Sample.vars [("message", " hi ")]) init =
                (inl (data_result (sendMessage_data r)), w2)) by exact H1.
    vm_compute in E. injection E as <- <-.
    split; vm_compute; reflexivity.
Defined.

(** ** A send whose completion call succeeds *)

Lemma classified_not_blank q op :
  classify q = op -> op <> unknown ->
  truthy (JStr q) = true /\ (String.length (trim q) =? 0)%nat = false.
Proof.
  intros Hc Hop. unfold classify in Hc.
  destruct (List.find _ priority) as [op'|] eqn:E; [|congruence].
  apply List.find_some in E as [Hin Hinc].
  rewrite <- (operation_names_trim _ _ Hin) in Hinc.
  assert (Hq : forall s, includes s (operation_name op') = true -> s <> EmptyString).
  { intros s H ->. cbv [priority] in Hin.
    repeat (destruct Hin as [<-|Hin]; [discriminate|]). destruct Hin. }
  split.
  - destruct q as [|c q']; [|reflexivity].
    now destruct (Hq _ Hinc).
  - destruct (trim q) eqn:Et; [now destruct (Hq _ Hinc)|reflexivity].
Qed.

(** The success path of a send, step by step. *)
Lemma send_success env q vars w sid text key session w1 events :
  resolveVariable vars q "sessionId" = inl sid ->
  resolveVariable vars q "message" = inl (JStr text) ->
  trim text <> EmptyString ->
  append_user env sid (trim text) w = (inl (key, session), w1) ->
  callDeepSeekAPI env (contents w1 session) = inl events ->
  let assistantMessage :=
    ChatMessage.make (fresh_key env w1) assistant EmptyString (clock env (S (ticks w1))) in
  let session' :=
    ChatSession.with_updatedAt (clock env (S (S (ticks w1))))
      (ChatSession.with_messages
         (ChatSession.messages session ++ [length (heap w1)]) session) in
  handleSendMessage env q vars w =
    (inl (data_result (sendMessage_data
            (ChatResponse.make true Absent
               (Value {| pending := map serialize events; sink := length (heap w1) |})
               session' Null))),
     {| chatSessions := <[key := session']> (chatSessions w1);
        heap := heap w1 ++ [assistantMessage];
        ticks := S (S (S (ticks w1))); draws := S (draws w1) |}).
Proof.
  intros Hs Hm Ht Ha Hc.
  rewrite (handleSendMessage_valid _ _ _ _ _ _ Hs Hm Ht).
  rewrite (send_unfold _ _ _ _ _ _ _ Ha).
  now rewrite (complete_success _ _ _ _ _ Hc).
Qed.

(** C10.  On the success path the result of a send carries success
    true, the stream, the session and a null error, and has no message
    field; the assistant message is the last one of the session and the
    one the stream is accumulated into, and the HTTP handler answers
    with the stream as the body and the id of the session in the
    X-Session-Id header. *)
Theorem success_result_has_no_message
    env body q w sid text key session w1 events :
  let vars := JS.or (GraphQLRequest.variables body) (JObj []) in
  GraphQLRequest.query body = JStr q ->
  classify q = sendMessage ->
  resolveVariable vars q "sessionId" = inl sid ->
  resolveVariable vars q "message" = inl (JStr text) ->
  trim text <> EmptyString ->
  append_user env sid (trim text) w = (inl (key, session), w1) ->
  callDeepSeekAPI env (contents w1 session) = inl events ->
  exists r readable w2,
    executeGraphQL env q vars w = (data_result (sendMessage_data r), w2) /\
    ChatResponse.success r = true /\
    ChatResponse.stream r = Value readable /\
    ChatResponse.error r = Null /\
    ChatResponse.message r = Absent /\
    chatSessions w2 !! key = Some (ChatResponse.session r) /\
    pending readable = map serialize events /\
    List.last (ChatSession.messages (ChatResponse.session r)) 0%nat = sink readable /\
    (exists m, heap w2 !! sink readable = Some m /\
               ChatMessage.role m = assistant /\
               ChatMessage.content m = EmptyString) /\
    handleGraphQLRequest env body w =
      (stream_response
         [("Content-Type", "text/event-stream");
          ("Cache-Control", "no-cache");
          ("Connection", "keep-alive");
          ("X-Session-Id", ChatSession.id (ChatResponse.session r))]
         readable, w2).
Proof.
  intros vars Hq Hc Hs Hm Ht Ha Hcall.
  pose proof (send_success _ _ _ _ _ _ _ _ _ _ Hs Hm Ht Ha Hcall) as H. cbv zeta in H.
  assert (He : executeGraphQL env q vars w =
               (let '(r, w') := handleSendMessage env q vars w in
                match r with
                | inl result => (result, w')
                | inr error =>
                    (errors_result [message_or "An unexpected error occurred" error], w')
                end)).
  { now rewrite (executeGraphQL_branch _ _ _ _ _ Hc). }
  rewrite H in He.
  eexists _, _, _. split; [exact He|]. cbn.
  repeat split; try reflexivity.
  - apply lookup_insert_eq.
  - apply last_last.
  - eexists. split; [apply list_lookup_middle; reflexivity|]. split; reflexivity.
  - unfold handleGraphQLRequest. rewrite Hq.
    destruct (classified_not_blank _ _ Hc) as [-> ->]; [discriminate|].
    cbn [negb]. fold vars. rewrite He. reflexivity.
Qed.

(** C10 at scenario A. *)
Lemma success_result_has_no_message_witness :
  exists readable w2,
    handleGraphQLRequest Sample.streaming
      (GraphQLRequest.make (JStr "mutation { sendMessage }")
         (Sample.vars [("message", "hi")]) JUndefined) init =
      (stream_response
         [("Content-Type", "text/event-stream");
          ("Cache-Control", "no-cache");
          ("Connection", "keep-alive");
          ("X-Session-Id", "id_r0me3hn9c0")]
         readable, w2).
Proof.
  destruct (success_result_has_no_message Sample.streaming
              (GraphQLRequest.make (JStr "mutation { sendMessage }")
                 (Sample.vars [("message", "hi")]) JUndefined)
              "mutation { sendMessage }" init JNull "hi" "id_r0me3hn9c0"
              (ChatSession.make "id_r0me3hn9c0" [0%nat] 1754697600001 1754697600002)
              (snd (append_user Sample.streaming JNull "hi" init))
              (received Sample.streaming Sample.answer))
    as (r & readable & w2 & H1 & _ & _ & _ & _ & _ & _ & _ & _ & H10).
  - reflexivity.
  - vm_compute. reflexivity.
  - reflexivity.
  - reflexivity.
  - vm_compute. discriminate.
  - vm_compute. reflexivity.
  - vm_compute. reflexivity.
  - exists readable, w2.
    assert (E : executeGraphQL Sample.streaming "mutation { sendMessage }"
                  (JS.or (Sample.vars [("message", "hi")]) (JObj [])) init =
                (data_result (sendMessage_data r), w2)) by exact H1.
    vm_compute in E. injection E as <- <-. exact H10.
Defined.

(** ** Resolution of a variable *)

Module MatchFacts.

Import StrFacts.




Lemma strip_nocase_spec p s r :
  strip_nocase p s = Some r <-> exists nm, s = nm +:+ r /\ same_nocase p nm.
Proof.
  split.
  - revert s. induction p as [|a p IH]; intros s H.
    + cbn in H. injection H as ->. exists EmptyString. split; [reflexivity|constructor].
    + destruct s as [|b s]; [discriminate|]. cbn in H.
      destruct (eqb_nocase a b) eqn:E; [|discriminate].
      destruct (IH _ H) as (nm & -> & Hnm).
      exists (String b nm). split; [reflexivity|now constructor].
  - intros (nm & -> & Hnm). induction Hnm as [|a b p nm E _ IH]; [reflexivity|].
    rewrite app_cons. cbn. now rewrite E.
Qed.




(** The encodings of white space are a prefix code. *)
Lemma strip_one_whitespace t r :
  In t whitespace -> strip_one whitespace (t +:+ r) = Some r.
Proof.
  intros H. cbv [whitespace map] in H.
  repeat (destruct H as [<-|H]; [vm_compute; reflexivity|]).
  destruct H.
Qed.

Lemma whitespace_not_empty t : In t whitespace -> (1 <= String.length t)%nat.
Proof.
  intros H. cbv [whitespace map] in H.
  repeat (destruct H as [<-|H]; [vm_compute; lia|]).
  destruct H.
Qed.

Lemma strip_many_run ws r fuel :
  ws_run ws -> strip_one whitespace r = None ->
  (String.length ws <= fuel)%nat ->
  strip_many fuel whitespace (ws +:+ r) = r.
Proof.
  intros Hws Hr. revert fuel.
  induction Hws as [|t ws Ht _ IH]; intros fuel Hf.
  - rewrite app_nil_l. destruct fuel; cbn [strip_many]; [reflexivity|]. now rewrite Hr.
  - rewrite length_app in Hf. pose proof (whitespace_not_empty _ Ht).
    destruct fuel as [|f]; [lia|]. cbn [strip_many].
    rewrite app_assoc, (strip_one_whitespace _ _ Ht).
    apply IH. lia.
Qed.









End MatchFacts.






(** ** What the stream carries into the session *)

Lemma set_content_lookup target c w m :
  heap w !! target = Some m ->
  heap (set_content target c w) !! target = Some (ChatMessage.with_content c m).
Proof.
  intros H. unfold set_content. rewrite H. cbn.
  apply list_lookup_insert_eq. eapply lookup_lt_Some; eauto.
Qed.

(** Once the stream is consumed, the content of the message it is
    accumulated into is the concatenation of all the chunks delivered. *)
Lemma pump_accumulates target full source w m :
  heap w !! target = Some m ->
  source <> [] ->
  heap (pump_from target full source w) !! target =
    Some (ChatMessage.with_content (full +:+ concat_all source) m).
Proof.
  revert full w m. induction source as [|v rest IH]; intros full w m Hm Hne.
  - now destruct Hne.
  - cbn [pump_from concat_all].
    pose proof (set_content_lookup target (full +:+ v) w m Hm) as H.
    destruct rest as [|v' rest].
    + cbn [pump_from concat_all]. now rewrite StrFacts.app_nil_r.
    + rewrite (IH _ _ _ H) by discriminate.
      now rewrite StrFacts.app_assoc.
Qed.

(** On the success path the assistant message ends up holding the
    serialized events, one after the other. *)
Lemma streamed_content env q vars w sid text key session w1 events :
  resolveVariable vars q "sessionId" = inl sid ->
  resolveVariable vars q "message" = inl (JStr text) ->
  trim text <> EmptyString ->
  append_user env sid (trim text) w = (inl (key, session), w1) ->
  callDeepSeekAPI env (contents w1 session) = inl events ->
  events <> [] ->
  exists r readable w2 m,
    handleSendMessage env q vars w = (inl (data_result (sendMessage_data r)), w2) /\
    ChatResponse.stream r = Value readable /\
    heap (pump readable w2) !! sink readable = Some m /\
    ChatMessage.role m = assistant /\
    ChatMessage.content m = concat_all (map serialize events).
Proof.
  intros Hs Hm Ht Ha Hc Hne.
  pose proof (send_success _ _ _ _ _ _ _ _ _ _ Hs Hm Ht Ha Hc) as H. cbv zeta in H.
  eexists _, _, _, _. split; [exact H|]. split; [reflexivity|].
  unfold pump. cbn [sink pending heap]. split.
  - apply pump_accumulates.
    + cbn [heap]. apply list_lookup_middle. reflexivity.
    + destruct events; [now destruct Hne|discriminate].
  - split; reflexivity.
Qed.

(** C1 at the send of scenario A, answered by one delta carrying Hi
    and, in a later chunk, the sentinel: the result has success true
    and the new session holds a user and an assistant message, but once
    the stream is consumed the content of the assistant message is the
    JSON text of the start event followed by that of the content event,
    not the text Hi that the content event carries. *)
Theorem assistant_content_keeps_envelopes :
  exists r readable w m,
    executeGraphQL Sample.streaming_in_two "mutation { sendMessage }"
      (Sample.vars [("message", "hi")]) init =
      (data_result (sendMessage_data r), w) /\
    ChatResponse.success r = true /\
    ChatResponse.stream r = Value readable /\
    map ChatMessage.role (contents w (ChatResponse.session r)) = [user; assistant] /\
    chunks Sample.answer_in_two =
      [Sample.data_line (stringify (Sample.delta "Hi")); Sample.data_line "[DONE]"] /\
    received Sample.streaming_in_two Sample.answer_in_two =
      [Start 1754697600500; Content (JStr "Hi")] /\
    reply_text (received Sample.streaming_in_two Sample.answer_in_two) = "Hi" /\
    pending readable =
      map serialize (received Sample.streaming_in_two Sample.answer_in_two) /\
    heap (pump readable w) !! sink readable = Some m /\
    ChatMessage.role m = assistant /\
    ChatMessage.content m =
      serialize (Start 1754697600500) +:+ serialize (Content (JStr "Hi")) /\
    ChatMessage.content m <> "Hi".
Proof.
  eexists _, _, _, _.
  split; [vm_compute; reflexivity|].
  repeat (split; [vm_compute; reflexivity|]).
  vm_compute. discriminate.
Qed.

(** ** The end of the stream *)

(** A payload puts no end event on the stream. *)
Lemma on_data_no_end env stamps st data t :
  ~ In (End t) (snd (fst (on_data env stamps st data))).
Proof.
  unfold on_data, member, exc_bind.
  destruct (JSON_parse env data) as [parsed|]; [|cbn; intuition discriminate].
  destruct (nullish parsed); [cbn; intuition discriminate|].
  repeat match goal with
         | |- context [if ?b then _ else _] => destruct b
         end; cbn; intuition discriminate.
Qed.

(** The lines of the loop put no end event on the stream. *)
Lemma on_lines_no_end env stamps st lines t :
  ~ In (End t) (snd (fst (on_lines env stamps st lines))).
Proof.
  revert st. induction lines as [|line rest IH]; intros st; cbn [on_lines].
  - cbn. tauto.
  - assert (Hline : ~ In (End t) (snd (fst (on_line env stamps st line)))).
    { unfold on_line. destruct (startsWith line "data: "); [|cbn; tauto].
      destruct (String.eqb _ _); [cbn; tauto|]. apply on_data_no_end. }
    destruct (on_line env stamps st line) as [[st' out] [|]]; [|exact Hline].
    specialize (IH st').
    destruct (on_lines env stamps st' rest) as [[st'' out'] flow].
    cbn [fst snd] in *. rewrite in_app_iff. tauto.
Qed.

(** The end event is put on the stream only after the loop: a stream
    that the function closed from inside the loop, as it does at the
    sentinel, carries none. *)
Lemma returned_without_end env b st pending t :
  snd (read_loop env b st pending) = Returned ->
  ~ In (End t) (fst (read_loop env b st pending)).
Proof.
  revert st. induction pending as [|value rest IH]; intros st; cbn [read_loop].
  - discriminate.
  - match goal with |- context [on_lines env ?s ?d ?l] =>
      pose proof (on_lines_no_end env s d l t) as Hl;
      destruct (on_lines env s d l) as [[st2 out] [|]] end; cbn in Hl.
    + specialize (IH st2). destruct (read_loop env b st2 rest) as [out' flow].
      cbn in *. intros ->. rewrite in_app_iff. intuition.
    + intros _. exact Hl.
Qed.

(** What the decoder makes of a body does not depend on what the parser
    does with the sentinel: it never hands it to the parser. *)
Lemma on_line_parser env env' stamps st line :
  (forall s, s <> "[DONE]" -> JSON_parse env s = JSON_parse env' s) ->
  on_line env stamps st line = on_line env' stamps st line.
Proof.
  intros H. unfold on_line. destruct (startsWith line "data: "); [|reflexivity].
  destruct (String.eqb (slice 6 line) "[DONE]") eqn:E; [reflexivity|].
  apply String.eqb_neq in E. unfold on_data. now rewrite (H _ E).
Qed.

Lemma on_lines_parser env env' stamps st lines :
  (forall s, s <> "[DONE]" -> JSON_parse env s = JSON_parse env' s) ->
  on_lines env stamps st lines = on_lines env' stamps st lines.
Proof.
  intros H. revert st. induction lines as [|line rest IH]; intros st; [reflexivity|].
  cbn [on_lines]. rewrite (on_line_parser env env' _ _ _ H).
  destruct (on_line env' stamps st line) as [[st' out] [|]]; [|reflexivity].
  now rewrite IH.
Qed.

Lemma decode_parser env env' b :
  (forall s, s <> "[DONE]" -> JSON_parse env s = JSON_parse env' s) ->
  decode env b = decode env' b.
Proof.
  intros H. unfold decode, start. f_equal.
  generalize {| buffer := EmptyString; isFirstChunk := true;
                hasError := false; readings := 0 |}.
  induction (chunks b) as [|value rest IH]; intros st; [reflexivity|].
  cbn [read_loop]. rewrite (on_lines_parser env env' _ _ _ H).
  match goal with |- context [on_lines env' ?s ?d ?l] =>
    destruct (on_lines env' s d l) as [[st2 out] [|]] end; [|reflexivity].
  now rewrite IH.
Qed.

(** One start event, right before the first content event. *)
Lemma well_started_app first a b :
  well_started first a ->
  well_started (first && negb (existsb is_content a)) b ->
  well_started first (a ++ b).
Proof.
  revert first b.
  induction a as [a IH] using (induction_ltof1 _ (@length Event)).
  unfold ltof in IH. intros first b Ha Hb.
  destruct a as [|e a].
  - cbn in Hb. now rewrite andb_true_r in Hb.
  - destruct e as [t|c|t|x]; cbn [well_started existsb is_content app] in *.
    + destruct Ha as [-> Ha]. split; [reflexivity|].
      destruct a as [|[t'|c'|t'|x'] a']; try contradiction.
      cbn [app existsb is_content orb andb negb] in *.
      apply IH; [cbn; lia|exact Ha|exact Hb].
    + destruct Ha as [-> Ha]. split; [reflexivity|].
      apply IH; [cbn; lia|exact Ha|]. cbn [orb negb andb] in Hb. exact Hb.
    + apply IH; [cbn; lia|exact Ha|]. exact Hb.
    + apply IH; [cbn; lia|exact Ha|]. exact Hb.
Qed.

Lemma on_data_started env stamps st data :
  let '(st', out, _) := on_data env stamps st data in
  well_started (isFirstChunk st) out /\
  isFirstChunk st' = isFirstChunk st && negb (existsb is_content out).
Proof.
  unfold on_data, member, exc_bind.
  destruct (JSON_parse env data) as [parsed|];
    [|cbn; now rewrite andb_true_r].
  destruct (nullish parsed); [cbn; now rewrite andb_true_r|].
  destruct (truthy (own parsed "error")); [cbn; now rewrite andb_true_r|].
  destruct (truthy _); [|cbn; now rewrite andb_true_r].
  destruct (isFirstChunk st) eqn:E; cbn; rewrite ?E; auto.
Qed.

Lemma on_lines_started env stamps st lines :
  let '(st', out, _) := on_lines env stamps st lines in
  well_started (isFirstChunk st) out /\
  isFirstChunk st' = isFirstChunk st && negb (existsb is_content out).
Proof.
  revert st. induction lines as [|line rest IH]; intros st; cbn [on_lines].
  - cbn. now rewrite andb_true_r.
  - assert (Hline : let '(st', out, _) := on_line env stamps st line in
                    well_started (isFirstChunk st) out /\
                    isFirstChunk st' = isFirstChunk st && negb (existsb is_content out)).
    { unfold on_line. destruct (startsWith line "data: ");
        [|cbn; now rewrite andb_true_r].
      destruct (String.eqb _ _); [cbn; now rewrite andb_true_r|].
      apply on_data_started. }
    destruct (on_line env stamps st line) as [[st' out] [|]]; [|exact Hline].
    destruct Hline as [Hw Hf]. specialize (IH st').
    destruct (on_lines env stamps st' rest) as [[st'' out'] flow].
    destruct IH as [Hw' Hf']. rewrite Hf in Hw', Hf'. split.
    + now apply well_started_app.
    + rewrite Hf', existsb_app, negb_orb. now rewrite andb_assoc.
Qed.

Lemma read_loop_started env b st pending :
  well_started (isFirstChunk st) (fst (read_loop env b st pending)).
Proof.
  revert st. induction pending as [|value rest IH]; intros st; cbn [read_loop].
  - unfold after_loop. destruct (failure b); [exact I|].
    destruct (hasError st); exact I.
  - match goal with |- context [on_lines env ?s ?d ?l] =>
      pose proof (on_lines_started env s d l) as Hl;
      destruct (on_lines env s d l) as [[st2 out] [|]] end;
      cbn [isFirstChunk] in Hl; destruct Hl as [Hw Hf].
    + specialize (IH st2). destruct (read_loop env b st2 rest) as [out' flow].
      cbn [fst] in *. apply well_started_app; [exact Hw|]. now rewrite <- Hf.
    + exact Hw.
Qed.

(** Whatever the body, the events of the stream have one start event,
    right before the first content event. *)
Lemma decode_started env b : well_started true (decode env b).
Proof.
  exact (read_loop_started env b
           {| buffer := EmptyString; isFirstChunk := true;
              hasError := false; readings := 0 |} (chunks b)).
Qed.

(** The sentinel is recognised before any parsing: whatever the parser
    does, the line closes the stream and puts nothing on it. *)
Lemma sentinel_returns env stamps st :
  on_line env stamps st "data: [DONE]" = (st, [], Returned).
Proof. reflexivity. Qed.

(** C7 at a body that streams one delta and then the sentinel: the
    decoder puts one start event before the content event, does not
    parse the sentinel, and closes the stream from inside its loop
    without the end event that it puts only after the loop. *)
Theorem sentinel_closes_without_end :
  chunks Sample.answer =
    ["data: " +:+ stringify (Sample.delta "Hi") +:+ single newline +:+ single newline +:+
     "data: [DONE]" +:+ single newline +:+ single newline] /\
  failure Sample.answer = None /\
  JSON_parse Sample.streaming "[DONE]" = None /\
  start Sample.streaming Sample.answer =
    ([Start 1754697600500; Content (JStr "Hi")], Returned) /\
  forall t, ~ In (End t) (decode Sample.streaming Sample.answer).
Proof.
  split; [reflexivity|]. split; [reflexivity|]. split; [reflexivity|].
  split; [vm_compute; reflexivity|].
  intros t. apply returned_without_end. vm_compute. reflexivity.
Qed.

(** * Further properties of the code *)

(** ** The lines of a streamed body *)

Module LineFacts.
Import StrFacts.

Lemma split_not_nil c s : split c s <> [].
Proof.
  destruct s as [|a r]; cbn [split]; [discriminate|].
  destruct (Ascii.eqb a c); [discriminate|].
  destruct (split c r); discriminate.
Qed.

Lemma split_app c a b :
  split c (a +:+ b) =
  removelast (split c a) ++ split c (List.last (split c a) EmptyString +:+ b).
Proof.
  induction a as [|x a IH].
  - reflexivity.
  - rewrite app_cons. cbn [split]. destruct (Ascii.eqb x c) eqn:E.
    + rewrite IH. pose proof (split_not_nil c a) as Hne.
      destruct (split c a) as [|h t]; [now destruct Hne|]. reflexivity.
    + rewrite IH. pose proof (split_not_nil c a) as Hne.
      destruct (split c a) as [|h t]; [now destruct Hne|].
      destruct t as [|t0 t1].
      * cbn [removelast List.last app]. rewrite app_cons. cbn [split]. now rewrite E.
      * reflexivity.
Qed.

Lemma split_free s : newline_free s -> split newline s = [s].
Proof.
  induction s as [|a r IH]; [reflexivity|]. intros [Ha Hr].
  cbn [split]. apply Ascii.eqb_neq in Ha. rewrite Ha, (IH Hr). reflexivity.
Qed.

Lemma last_split_free s : newline_free (List.last (split newline s) EmptyString).
Proof.
  induction s as [|a r IH]; [exact I|].
  cbn [split]. destruct (Ascii.eqb a newline) eqn:E.
  - pose proof (split_not_nil newline r) as Hne.
    destruct (split newline r) as [|h t]; [now destruct Hne|]. exact IH.
  - pose proof (split_not_nil newline r) as Hne.
    destruct (split newline r) as [|h t]; [now destruct Hne|].
    destruct t as [|t0 t1].
    + cbn in *. split; [|exact IH]. now apply Ascii.eqb_neq.
    + exact IH.
Qed.

Lemma newline_free_app s t :
  newline_free s -> newline_free t -> newline_free (s +:+ t).
Proof.
  induction s as [|a r IH]; [auto|]. intros [Ha Hr] Ht.
  rewrite app_cons. split; auto.
Qed.

Lemma complete_lines_free s : newline_free s -> complete_lines s = [].
Proof. intros H. unfold complete_lines. now rewrite (split_free _ H). Qed.

Lemma removelast_app_single {A} (l : list A) x : removelast (l ++ [x]) = l.
Proof. apply removelast_last. Qed.

(** Text after the last line break adds no line. *)
Lemma complete_lines_tail s tail :
  newline_free tail -> complete_lines (s +:+ tail) = complete_lines s.
Proof.
  intros H. unfold complete_lines. rewrite split_app.
  rewrite (split_free (_ +:+ tail)).
  - apply removelast_last.
  - apply newline_free_app; [apply last_split_free|exact H].
Qed.

Lemma complete_lines_app a b :
  complete_lines (a +:+ b) =
  complete_lines a ++ complete_lines (List.last (split newline a) EmptyString +:+ b).
Proof.
  unfold complete_lines. rewrite split_app.
  apply removelast_app, split_not_nil.
Qed.

Lemma on_data_buffer env stamps buf st data :
  on_data env stamps (set_buffer buf st) data =
  (let '(st', out, flow) := on_data env stamps st data in (set_buffer buf st', out, flow)).
Proof.
  unfold on_data.
  destruct (match JSON_parse env data with
            | Some parsed => exc_bind (member parsed "error") (fun e => inl (parsed, e))
            | None => inr (ErrorObject "Unexpected token")
            end) as [[parsed err]|e]; [|reflexivity].
  destruct (truthy err); [reflexivity|].
  destruct (truthy _); [|reflexivity].
  cbn [isFirstChunk set_buffer]. destruct (isFirstChunk st); reflexivity.
Qed.

Lemma on_line_buffer env stamps buf st line :
  on_line env stamps (set_buffer buf st) line =
  (let '(st', out, flow) := on_line env stamps st line in (set_buffer buf st', out, flow)).
Proof.
  unfold on_line. destruct (startsWith line "data: "); [|reflexivity].
  destruct (String.eqb _ _); [reflexivity|]. apply on_data_buffer.
Qed.

Lemma on_lines_buffer env stamps buf st lines :
  on_lines env stamps (set_buffer buf st) lines =
  (let '(st', out, flow) := on_lines env stamps st lines in (set_buffer buf st', out, flow)).
Proof.
  revert st. induction lines as [|line rest IH]; intros st; [reflexivity|].
  cbn [on_lines]. rewrite on_line_buffer.
  destruct (on_line env stamps st line) as [[st' out] [|]]; [|reflexivity].
  rewrite IH. now destruct (on_lines env stamps st' rest) as [[st'' out'] flow].
Qed.

Lemma on_lines_app env stamps st l1 l2 :
  on_lines env stamps st (l1 ++ l2) =
  match on_lines env stamps st l1 with
  | (st', out, Returned) => (st', out, Returned)
  | (st', out, Continue) =>
      let '(st'', out', flow) := on_lines env stamps st' l2 in (st'', out ++ out', flow)
  end.
Proof.
  revert st. induction l1 as [|line rest IH]; intros st.
  - cbn [app on_lines]. now destruct (on_lines env stamps st l2) as [[st'' out'] flow].
  - cbn [app on_lines].
    destruct (on_line env stamps st line) as [[st' out] [|]]; [|reflexivity].
    rewrite IH.
    destruct (on_lines env stamps st' rest) as [[st1 out1] [|]].
    + destruct (on_lines env stamps st1 l2) as [[st2 out2] flow].
      now rewrite List.app_assoc.
    + reflexivity.
Qed.

Lemma after_loop_buffer b buf st : after_loop b (set_buffer buf st) = after_loop b st.
Proof. reflexivity. Qed.

Lemma run_lines_buffer env b buf st lines :
  run_lines env b (set_buffer buf st) lines = run_lines env b st lines.
Proof.
  unfold run_lines. rewrite on_lines_buffer.
  now destruct (on_lines env (stamps b) st lines) as [[st' out] [|]].
Qed.

Lemma run_lines_app env b st l1 l2 :
  run_lines env b st (l1 ++ l2) =
  match on_lines env (stamps b) st l1 with
  | (_, out, Returned) => (out, Returned)
  | (st', out, Continue) =>
      let '(out', flow) := run_lines env b st' l2 in (out ++ out', flow)
  end.
Proof.
  unfold run_lines. rewrite on_lines_app.
  destruct (on_lines env (stamps b) st l1) as [[st1 out1] [|]]; [|reflexivity].
  destruct (on_lines env (stamps b) st1 l2) as [[st2 out2] [|]];
    [now rewrite List.app_assoc|reflexivity].
Qed.

(** The loop over the chunks is the loop over the complete lines of the
    text that the chunks make up, after what the buffer holds. *)
Lemma read_loop_lines env b st cs :
  newline_free (buffer st) ->
  read_loop env b st cs =
  run_lines env b st (complete_lines (buffer st +:+ concat_all cs)).
Proof.
  revert st. induction cs as [|v rest IH]; intros st Hbuf.
  - cbn [read_loop concat_all]. rewrite app_nil_r, (complete_lines_free _ Hbuf).
    reflexivity.
  - cbn [read_loop concat_all]. rewrite <- app_assoc, complete_lines_app, run_lines_app.
    fold (complete_lines (buffer st +:+ v)).
    fold (set_buffer (List.last (split newline (buffer st +:+ v)) EmptyString) st).
    rewrite on_lines_buffer.
    destruct (on_lines env (stamps b) st (complete_lines (buffer st +:+ v)))
      as [[st' out] [|]]; [|reflexivity].
    rewrite IH by apply last_split_free.
    cbn [buffer set_buffer]. now rewrite run_lines_buffer.
Qed.

Lemma start_lines env b :
  start env b = run_lines env b entry (complete_lines (concat_all (chunks b))).
Proof. unfold start. now rewrite read_loop_lines. Qed.

End LineFacts.

(** ** The stream of the completion service *)

Module StreamFacts.
Import StrFacts LineFacts.

Lemma concat_all_app l1 l2 : concat_all (l1 ++ l2) = concat_all l1 +:+ concat_all l2.
Proof.
  induction l1 as [|s l1 IH]; [reflexivity|].
  cbn [app concat_all]. now rewrite IH, app_assoc.
Qed.

Lemma run_lines_with_chunks env cs b st lines :
  run_lines env (with_chunks cs b) st lines = run_lines env b st lines.
Proof. reflexivity. Qed.

Lemma start_with_chunks env cs b :
  start env (with_chunks cs b) = run_lines env b entry (complete_lines (concat_all cs)).
Proof. now rewrite start_lines. Qed.

Lemma split_line l rest :
  newline_free l ->
  split newline (l +:+ single newline +:+ rest) = l :: split newline rest.
Proof.
  induction l as [|a l IH]; intros H.
  - reflexivity.
  - destruct H as [Ha Hl]. rewrite app_cons. cbn [split].
    apply Ascii.eqb_neq in Ha. rewrite Ha, (IH Hl). reflexivity.
Qed.

Lemma complete_lines_text lines :
  Forall newline_free lines -> complete_lines (lines_text lines) = lines.
Proof.
  unfold complete_lines, lines_text. induction 1 as [|l lines Hl _ IH]; [reflexivity|].
  cbn [map concat_all]. rewrite app_assoc, (split_line _ _ Hl).
  pose proof (split_not_nil newline
                (concat_all (map (fun l => l +:+ single newline) lines))) as Hne.
  destruct (split newline _) as [|h t] eqn:E; [now destruct Hne|].
  cbn [removelast]. cbn [removelast] in IH. now rewrite IH.
Qed.

Lemma on_lines_filter env stamps st lines :
  on_lines env stamps st (List.filter is_data lines) = on_lines env stamps st lines.
Proof.
  revert st. induction lines as [|line rest IH]; intros st; [reflexivity|].
  cbn [List.filter on_lines]. unfold is_data at 1, on_line.
  destruct (startsWith line "data: ") eqn:E.
  - cbn [on_lines]. unfold on_line. rewrite E.
    destruct (if String.eqb _ _ then _ else _) as [[st' out] [|]]; [|reflexivity].
    now rewrite IH.
  - rewrite IH. now destruct (on_lines env stamps st rest) as [[st' out] flow].
Qed.

Lemma on_data_hasError env stamps st data st' out :
  on_data env stamps st data = (st', out, Continue) -> hasError st' = hasError st.
Proof.
  unfold on_data.
  destruct (match JSON_parse env data with
            | Some parsed => exc_bind (member parsed "error") (fun e => inl (parsed, e))
            | None => inr (ErrorObject "Unexpected token")
            end) as [[parsed err]|e]; [|now intros [= <- _]].
  destruct (truthy err); [discriminate|].
  destruct (truthy _); [|now intros [= <- _]].
  destruct (isFirstChunk st); now intros [= <- _].
Qed.

Lemma on_lines_hasError env stamps st lines st' out :
  on_lines env stamps st lines = (st', out, Continue) -> hasError st' = hasError st.
Proof.
  revert st out. induction lines as [|line rest IH]; intros st out; cbn [on_lines].
  - now intros [= <- _].
  - destruct (on_line env stamps st line) as [[st1 out1] [|]] eqn:E; [|discriminate].
    destruct (on_lines env stamps st1 rest) as [[st2 out2] flow] eqn:E2.
    intros [= <- _ ->]. rewrite (IH _ _ E2).
    unfold on_line in E. destruct (startsWith line "data: "); [|now injection E as <- _].
    destruct (String.eqb _ _); [discriminate|]. now apply on_data_hasError in E.
Qed.

Lemma on_data_content env stamps st data c :
  In (Content c) (snd (fst (on_data env stamps st data))) -> truthy c = true.
Proof.
  unfold on_data.
  destruct (match JSON_parse env data with
            | Some parsed => exc_bind (member parsed "error") (fun e => inl (parsed, e))
            | None => inr (ErrorObject "Unexpected token")
            end) as [[parsed err]|e]; [|cbn; intuition discriminate].
  destruct (truthy err); [cbn; intuition discriminate|].
  destruct (truthy _) eqn:E; [|cbn; tauto].
  destruct (isFirstChunk st); cbn; intros H.
  - destruct H as [H|[H|[]]]; [discriminate|]. now injection H as <-.
  - destruct H as [H|[]]. now injection H as <-.
Qed.

Lemma on_lines_content env stamps st lines c :
  In (Content c) (snd (fst (on_lines env stamps st lines))) -> truthy c = true.
Proof.
  revert st. induction lines as [|line rest IH]; intros st; cbn [on_lines].
  - cbn. tauto.
  - assert (Hline : In (Content c) (snd (fst (on_line env stamps st line))) ->
                    truthy c = true).
    { unfold on_line. destruct (startsWith line "data: "); [|cbn; tauto].
      destruct (String.eqb _ _); [cbn; tauto|]. apply on_data_content. }
    destruct (on_line env stamps st line) as [[st' out] [|]]; [|exact Hline].
    specialize (IH st').
    destruct (on_lines env stamps st' rest) as [[st'' out'] flow].
    cbn [fst snd] in *. rewrite in_app_iff. tauto.
Qed.

Lemma after_loop_entry b st :
  hasError st = false ->
  after_loop b st =
    match failure b with
    | Some e => [Error (JStr (message_or "未知错误" e))]
    | None => [End (stamps b (readings st))]
    end.
Proof. intros H. unfold after_loop. now rewrite H. Qed.

Lemma last_occurrence {A} (l l1 l2 : list A) x y :
  l ++ [x] = l1 ++ y :: l2 -> ~ In y l -> l1 = l /\ y = x /\ l2 = [].
Proof.
  revert l1. induction l as [|a l IH]; intros l1 H Hy.
  - destruct l1 as [|b l1].
    + now injection H as -> <-.
    + injection H as -> H. now destruct l1.
  - destruct l1 as [|b l1].
    + injection H as -> _. destruct Hy. now left.
    + injection H as -> H. destruct (IH l1 H) as (-> & -> & ->).
      * intros Hin. apply Hy. now right.
      * auto.
Qed.

End StreamFacts.

(** What the reader receives is the head of what is put on the
    stream, and all of it when the stream is not closed inside the
    loop. *)
Lemma receive_loop_prefix env b st pending :
  exists lost,
    fst (read_loop env b st pending) = receive_loop env b st pending ++ lost.
Proof.
  revert st. induction pending as [|value rest IH]; intros st;
    cbn [read_loop receive_loop].
  - exists []. now rewrite app_nil_r.
  - destruct (on_lines env _ _ _) as [[st2 out] [|]].
    + destruct (IH st2) as [lost Hl].
      destruct (read_loop env b st2 rest) as [out' flow]. cbn [fst] in *.
      exists lost. now rewrite Hl, List.app_assoc.
    + exists (skipn 1 out). cbn [fst]. now rewrite firstn_skipn.
Qed.

Lemma receive_loop_all env b st pending :
  snd (read_loop env b st pending) = Continue ->
  receive_loop env b st pending = fst (read_loop env b st pending).
Proof.
  revert st. induction pending as [|value rest IH]; intros st;
    cbn [read_loop receive_loop].
  - reflexivity.
  - destruct (on_lines env _ _ _) as [[st2 out] [|]]; [|discriminate].
    specialize (IH st2).
    destruct (read_loop env b st2 rest) as [out' flow]. cbn [fst snd] in *.
    intros H. now rewrite (IH H).
Qed.

(** A line that closes the stream puts at most one event on it. *)
Lemma on_line_closes env stamps st line st' out :
  on_line env stamps st line = (st', out, Returned) -> firstn 1 out = out.
Proof.
  unfold on_line, on_data, member, exc_bind.
  destruct (startsWith line "data: "); [|discriminate].
  destruct (String.eqb _ _); [now intros [= <- <-]|].
  destruct (JSON_parse env _) as [parsed|]; [|discriminate].
  destruct (nullish parsed); [discriminate|].
  repeat match goal with
         | |- context [if ?c then _ else _] => destruct c
         end; try discriminate.
  now intros [= <- <-].
Qed.

(** Delivered one line to a chunk, a body loses no event. *)
Lemma receive_line_by_line env b lines st :
  Forall newline_free lines ->
  receive_loop env b (set_buffer EmptyString st)
    (map (fun l => l +:+ single newline) lines) =
  fst (read_loop env b (set_buffer EmptyString st)
         (map (fun l => l +:+ single newline) lines)).
Proof.
  intros H. revert st. induction H as [|l lines Hl _ IH]; intros st;
    cbn [map read_loop receive_loop]; [reflexivity|].
  cbn [buffer set_buffer]. rewrite StrFacts.app_nil_l.
  replace (l +:+ single newline) with (l +:+ single newline +:+ EmptyString)
    by now rewrite StrFacts.app_nil_r.
  rewrite (StreamFacts.split_line _ _ Hl).
  cbn [split removelast List.last isFirstChunk hasError readings set_buffer on_lines].
  destruct (on_line env (stamps b) _ l) as [[st' out] [|]] eqn:E.
  - cbn [on_lines]. rewrite app_nil_r.
    pose proof (LineFacts.on_line_buffer env (stamps b) EmptyString st l) as Hb.
    unfold set_buffer in Hb at 1. rewrite E in Hb.
    destruct (on_line env (stamps b) st l) as [[st0 out0] flow0].
    injection Hb as -> <- _.
    rewrite (IH st0).
    now destruct (read_loop env b (set_buffer EmptyString st0) _).
  - cbn [fst]. exact (on_line_closes _ _ _ _ _ _ E).
Qed.

(** X1.  What the decoder puts on the stream depends on the text of
    the body only, not on the chunks in which the platform delivers it:
    two bodies whose chunks make up the same text are decoded into the
    same events, and the decoder leaves its loop the same way.  What
    the reader receives is the head of these events: all of them when
    the decoder falls out of its loop, and then the chunks are
    immaterial to the reader too, and also all of them when the body
    is delivered one line to a chunk; but when the decoder closes the
    stream inside the loop, events of the chunk at hand can be lost,
    so that the same text can reach the reader in full or in part. *)
Theorem chunking_matters_only_at_a_close env b cs cs' :
  concat_all cs = concat_all cs' ->
  start env (with_chunks cs b) = start env (with_chunks cs' b) /\
  decode env (with_chunks cs b) = decode env (with_chunks cs' b) /\
  (exists lost,
     decode env (with_chunks cs b) = received env (with_chunks cs b) ++ lost) /\
  (snd (start env (with_chunks cs b)) = Continue ->
   received env (with_chunks cs b) = decode env (with_chunks cs b) /\
   received env (with_chunks cs' b) = received env (with_chunks cs b)) /\
  (forall lines,
     Forall newline_free lines ->
     cs = map (fun l => l +:+ single newline) lines ->
     received env (with_chunks cs b) = decode env (with_chunks cs b)).
Proof.
  intros H.
  assert (E : start env (with_chunks cs b) = start env (with_chunks cs' b)).
  { rewrite !StreamFacts.start_with_chunks. now rewrite H. }
  split; [exact E|]. split; [unfold decode; now rewrite E|].
  split; [apply receive_loop_prefix|].
  split.
  - intros Hc.
    assert (R : forall body, snd (start env body) = Continue ->
                  received env body = decode env body).
    { intros body. apply receive_loop_all. }
    split; [now apply R|].
    rewrite !R; [unfold decode; now rewrite E|exact Hc|now rewrite <- E].
  - intros lines Hl ->. unfold received, decode, start. cbn [chunks with_chunks].
    exact (receive_line_by_line env _ lines entry Hl).
Qed.

(** X1 at the answer of scenario A, which ends with the sentinel: in
    one chunk, the reader receives the start event alone; cut into four
    pieces across its lines, the same text is decoded into the same
    two events and the reader receives both. *)
Lemma chunking_matters_only_at_a_close_witness :
  concat_all Scenario.pieces = concat_all (chunks Sample.answer) /\
  decode Sample.streaming (with_chunks Scenario.pieces Sample.answer) =
    [Start 1754697600500; Content (JStr "Hi")] /\
  received Sample.streaming (with_chunks Scenario.pieces Sample.answer) =
    [Start 1754697600500; Content (JStr "Hi")] /\
  received Sample.streaming Sample.answer = [Start 1754697600500].
Proof.
  assert (H : concat_all Scenario.pieces = concat_all (chunks Sample.answer))
    by (vm_compute; reflexivity).
  split; [exact H|]. split.
  - rewrite (proj1 (proj2 (chunking_matters_only_at_a_close Sample.streaming Sample.answer
                             Scenario.pieces (chunks Sample.answer) H))).
    vm_compute. reflexivity.
  - split; vm_compute; reflexivity.
Defined.

(** X2.  The decoder processes a line only once the line break that
    ends it has arrived: text that follows the last line break of the
    body is never decoded, so a final data line that is not ended by a
    line break puts nothing on the stream. *)
Theorem unterminated_line_is_dropped env b tail :
  newline_free tail ->
  start env (with_chunks (chunks b ++ [tail]) b) = start env b /\
  decode env (with_chunks (chunks b ++ [tail]) b) = decode env b.
Proof.
  intros H.
  assert (E : start env (with_chunks (chunks b ++ [tail]) b) = start env b).
  { rewrite StreamFacts.start_with_chunks, LineFacts.start_lines.
    rewrite StreamFacts.concat_all_app. cbn [concat_all].
    rewrite StrFacts.app_nil_r. now rewrite (LineFacts.complete_lines_tail _ _ H). }
  split; [exact E|]. unfold decode. now rewrite E.
Qed.

(** X2 at a body that is one data line without its line break: the
    delta is lost and the stream carries the end event alone. *)
Lemma unterminated_line_is_dropped_witness :
  newline_free ("data: " +:+ stringify (Sample.delta "Hi")) /\
  decode Sample.streaming
    (with_chunks (chunks Scenario.silent ++ ["data: " +:+ stringify (Sample.delta "Hi")])
       Scenario.silent) = [End 1754697600500].
Proof.
  assert (H : newline_free ("data: " +:+ stringify (Sample.delta "Hi")))
    by (vm_compute; repeat split; discriminate).
  split; [exact H|].
  rewrite (proj2 (unterminated_line_is_dropped Sample.streaming Scenario.silent _ H)).
  reflexivity.
Defined.

(** X3.  The end event marks a body that was read to its end: the
    stream carries it exactly when the decoder fell out of its loop
    and no read failed, it is then the last event, and there is no
    other.  A payload that does not parse does not prevent it. *)
Theorem end_event_marks_exhaustion env b :
  (forall evs1 t evs2,
     decode env b = evs1 ++ End t :: evs2 ->
     evs2 = [] /\ (forall t', ~ In (End t') evs1) /\
     snd (start env b) = Continue /\ failure b = None) /\
  (snd (start env b) = Continue -> failure b = None ->
   exists evs t, decode env b = evs ++ [End t] /\ forall t', ~ In (End t') evs).
Proof.
  unfold decode. rewrite LineFacts.start_lines. unfold run_lines.
  pose proof (fun t => on_lines_no_end env (stamps b) entry
                         (complete_lines (concat_all (chunks b))) t) as Hno.
  destruct (on_lines env (stamps b) entry (complete_lines (concat_all (chunks b))))
    as [[st' out] flow] eqn:E.
  cbn [fst snd] in Hno. destruct flow; cbv beta iota.
  - apply StreamFacts.on_lines_hasError in E. cbn [hasError entry] in E.
    rewrite (StreamFacts.after_loop_entry _ _ E). cbn [fst snd]. split.
    + intros evs1 t evs2 H. destruct (failure b) as [e|].
      * exfalso. apply (Hno t).
        assert (Hin : In (End t) (out ++ [Error (JStr (message_or "未知错误" e))])).
        { rewrite H. apply in_elt. }
        apply in_app_iff in Hin as [Hin|[Hin|[]]]; [exact Hin|discriminate].
      * apply StreamFacts.last_occurrence in H as (-> & _ & ->); [|apply Hno].
        auto.
    + intros _ ->. exists out. eexists. split; [reflexivity|exact Hno].
  - cbn [fst snd]. split; [|discriminate].
    intros evs1 t evs2 H. exfalso. apply (Hno t). rewrite H. apply in_elt.
Qed.

(** X4.  Once the decoder has closed the stream from inside its loop,
    at the sentinel or at a payload that reports an error, it reads no
    more: whatever the body holds after that point changes nothing. *)
Theorem closed_stream_reads_no_more env b more evs :
  start env b = (evs, Returned) ->
  start env (with_chunks (chunks b ++ more) b) = (evs, Returned).
Proof.
  rewrite StreamFacts.start_with_chunks, LineFacts.start_lines.
  rewrite StreamFacts.concat_all_app.
  replace (concat_all (chunks b) +:+ concat_all more)
    with (buffer entry +:+ concat_all (chunks b) +:+ concat_all more) by reflexivity.
  cbn [buffer entry]. rewrite StrFacts.app_nil_l.
  rewrite LineFacts.complete_lines_app, LineFacts.run_lines_app.
  unfold run_lines.
  destruct (on_lines env (stamps b) entry (complete_lines (concat_all (chunks b))))
    as [[st' out] [|]]; [discriminate|]. auto.
Qed.

(** X4 at the answer of scenario A followed by one more delta. *)
Lemma closed_stream_reads_no_more_witness :
  start Sample.streaming
    (with_chunks (chunks Sample.answer ++
                  [Sample.data_line (stringify (Sample.delta "Hi"))]) Sample.answer) =
    ([Start 1754697600500; Content (JStr "Hi")], Returned).
Proof.
  apply (closed_stream_reads_no_more Sample.streaming Sample.answer).
  vm_compute. reflexivity.
Defined.

(** X5.  Whatever the body, the events of the stream are well formed:
    there is one start event, put right before the first content
    event, and every content event carries a truthy value, so a delta
    whose content is empty or missing puts nothing on the stream. *)
Theorem stream_is_well_formed env b :
  well_started true (decode env b) /\
  (forall c, In (Content c) (decode env b) -> truthy c = true) /\
  (forall s, In (Content (JStr s)) (decode env b) -> s <> EmptyString).
Proof.
  assert (H : forall c, In (Content c) (decode env b) -> truthy c = true).
  { intros c. unfold decode. rewrite LineFacts.start_lines. unfold run_lines.
    pose proof (StreamFacts.on_lines_content env (stamps b) entry
                  (complete_lines (concat_all (chunks b))) c) as Hc.
    destruct (on_lines env (stamps b) entry (complete_lines (concat_all (chunks b))))
      as [[st' out] [|]]; cbn [fst snd] in *; [|exact Hc].
    rewrite in_app_iff. intros [Hin|Hin]; [now apply Hc|].
    unfold after_loop in Hin. destruct (failure b); [|destruct (hasError st')];
      cbn in Hin; intuition discriminate. }
  split; [apply decode_started|]. split; [exact H|].
  intros s Hin ->. specialize (H _ Hin). discriminate.
Qed.

(** X6.  The decoder looks at the lines that start with the five
    characters of the data field and the space after them, and at no
    other: comments, other fields, empty lines and data fields written
    without the space can be left out of a body without any change to
    what is decoded. *)
Theorem only_data_lines_count env b lines :
  Forall newline_free lines ->
  start env (with_chunks [lines_text lines] b) =
    start env (with_chunks [lines_text (List.filter is_data lines)] b) /\
  decode env (with_chunks [lines_text lines] b) =
    decode env (with_chunks [lines_text (List.filter is_data lines)] b).
Proof.
  intros H.
  assert (Hf : Forall newline_free (List.filter is_data lines)).
  { apply Forall_forall. intros l Hl. apply list_elem_of_In, filter_In in Hl as [Hl _].
    rewrite Forall_forall in H. now apply H, list_elem_of_In. }
  assert (E : start env (with_chunks [lines_text lines] b) =
              start env (with_chunks [lines_text (List.filter is_data lines)] b)).
  { rewrite !StreamFacts.start_with_chunks. cbn [concat_all].
    rewrite !StrFacts.app_nil_r.
    rewrite (StreamFacts.complete_lines_text _ H), (StreamFacts.complete_lines_text _ Hf).
    unfold run_lines. now rewrite StreamFacts.on_lines_filter. }
  split; [exact E|]. unfold decode. now rewrite E.
Qed.

(** X6 at a body with a comment, an event field, a data field without
    the space, one data field and an empty line. *)
Lemma only_data_lines_count_witness :
  Forall newline_free Scenario.mixed /\
  List.filter is_data Scenario.mixed = ["data: " +:+ stringify (Sample.delta "Hi")] /\
  decode Sample.streaming (with_chunks [lines_text Scenario.mixed] Scenario.silent) =
    [Start 1754697600500; Content (JStr "Hi"); End 1754697600501].
Proof.
  assert (H : Forall newline_free Scenario.mixed).
  { repeat constructor; vm_compute; repeat split; discriminate. }
  split; [exact H|]. split; [vm_compute; reflexivity|].
  rewrite (proj2 (only_data_lines_count Sample.streaming Scenario.silent _ H)).
  vm_compute. reflexivity.
Defined.

(** ** The outcome of a send *)

Lemma handleSendMessage_data env q vars w d w' :
  handleSendMessage env q vars w = (inl (data_result d), w') ->
  exists sid text,
    resolveVariable vars q "sessionId" = inl sid /\
    resolveVariable vars q "message" = inl (JStr text) /\
    trim text <> EmptyString /\
    send env sid (trim text) w = (inl (data_result d), w').
Proof.
  unfold handleSendMessage. run.
  destruct (resolveVariable vars q "sessionId") as [sid|e]; [|discriminate].
  destruct (resolveVariable vars q "message") as [message|e]; [|discriminate].
  destruct (resolveVariable vars q "stream") as [stream|e]; [|discriminate].
  destruct message as [| |b|nz t|text|items|props]; try discriminate.
  destruct (negb (truthy (JStr text)) || (String.length (trim text) =? 0)%nat) eqn:E;
    [discriminate|].
  intros H. exists sid, text. repeat split; try reflexivity; [|exact H].
  intros Ht. rewrite Ht in E. cbn in E. now rewrite orb_true_r in E.
Qed.

(** The two ways a send ends once the user message is appended. *)
Lemma send_cases env sid text w :
  exists key s w1,
    append_user env sid text w = (inl (key, s), w1) /\
    ((exists events,
        callDeepSeekAPI env (contents w1 s) = inl events /\
        send env sid text w =
          (inl (data_result (sendMessage_data
                  (ChatResponse.make true Absent
                     (Value {| pending := map serialize events; sink := length (heap w1) |})
                     (ChatSession.with_updatedAt (clock env (S (S (ticks w1))))
                        (ChatSession.with_messages
                           (ChatSession.messages s ++ [length (heap w1)]) s))
                     Null))),
           {| chatSessions :=
                <[key := ChatSession.with_updatedAt (clock env (S (S (ticks w1))))
                           (ChatSession.with_messages
                              (ChatSession.messages s ++ [length (heap w1)]) s)]>
                  (chatSessions w1);
              heap := heap w1 ++
                      [ChatMessage.make (fresh_key env w1) assistant EmptyString
                         (clock env (S (ticks w1)))];
              ticks := S (S (S (ticks w1))); draws := S (draws w1) |})) \/
     (exists e,
        callDeepSeekAPI env (contents w1 s) = inr e /\
        send env sid text w =
          (inl (data_result (sendMessage_data
                  (ChatResponse.make false Null Absent
                     (ChatSession.with_updatedAt (clock env (ticks w1)) s)
                     (Value (message_or "AI service temporarily unavailable" e))))),
           {| chatSessions :=
                <[key := ChatSession.with_updatedAt (clock env (ticks w1)) s]>
                  (chatSessions w1);
              heap := heap w1; ticks := S (ticks w1); draws := draws w1 |}))).
Proof.
  destruct (resolve_session_total env sid w) as (k & s0 & w0 & Hr).
  pose proof (append_user_effect _ _ text _ _ _ _ Hr) as Ha. cbv zeta in Ha.
  eexists _, _, _. split; [exact Ha|].
  rewrite (send_unfold _ _ _ _ _ _ _ Ha).
  match goal with |- context [callDeepSeekAPI env ?m] =>
    destruct (callDeepSeekAPI env m) as [events|e] eqn:E end.
  - left. exists events. split; [reflexivity|].
    now rewrite (complete_success _ _ _ _ _ E).
  - right. exists e. split; [reflexivity|].
    now rewrite (complete_failure _ _ _ _ _ E).
Qed.

Lemma getChatCompletion_error env messages e :
  getChatCompletion env messages = inr e -> exists m, e = ErrorObject m.
Proof.
  unfold getChatCompletion.
  destruct (fetch env (apiMessages messages)) as [[m|v]|r]; cbn [rethrow].
  - intros [= <-]. eauto.
  - intros [= <-]. eauto.
  - destruct (ok r); cbn [negb].
    + destruct (body r); [discriminate|]. intros [= <-]. eauto.
    + destruct (text r) as [t|[m|v]]; cbn [rethrow]; intros [= <-]; eauto.
Qed.

(** X7.  Whatever makes the completion call fail, [getChatCompletion]
    throws an error object, never another value; so when a send
    answers with success false, its error field is the message of the
    error that the service threw, with a null message and no stream,
    and the text that [handleSendMessage] keeps for a failure without
    a message is never the answer. *)
Theorem completion_failure_is_reported env q vars w r w' :
  handleSendMessage env q vars w = (inl (data_result (sendMessage_data r)), w') ->
  ChatResponse.success r = false ->
  exists messages m,
    getChatCompletion env messages = inr (ErrorObject m) /\
    ChatResponse.error r = Value m /\
    ChatResponse.message r = Null /\
    ChatResponse.stream r = Absent.
Proof.
  intros H Hf. apply handleSendMessage_data in H as (sid & text & _ & _ & _ & H).
  destruct (send_cases env sid (trim text) w) as (key & s & w1 & _ & [(ev & _ & E)|(e & Hc & E)]);
    rewrite E in H; injection H as <- <-.
  - discriminate.
  - destruct (getChatCompletion_error _ _ _ Hc) as [m ->].
    exists (contents w1 s), m. auto.
Qed.

(** X7 at scenario D: the endpoint answers 503. *)
Lemma completion_failure_is_reported_witness :
  exists r w',
    handleSendMessage Sample.failing "mutation { sendMessage }"
      (Sample.vars [("message", "hi")]) init =
      (inl (data_result (sendMessage_data r)), w') /\
    ChatResponse.success r = false /\
    exists messages m,
      getChatCompletion Sample.failing messages = inr (ErrorObject m) /\
      ChatResponse.error r = Value m.
Proof.
  assert (H : exists r w',
            handleSendMessage Sample.failing "mutation { sendMessage }"
              (Sample.vars [("message", "hi")]) init =
              (inl (data_result (sendMessage_data r)), w') /\
            ChatResponse.success r = false).
  { eexists _, _. split; vm_compute; reflexivity. }
  destruct H as (r & w' & H & Hf).
  exists r, w'. split; [exact H|]. split; [exact Hf|].
  destruct (completion_failure_is_reported Sample.failing "mutation { sendMessage }"
              (Sample.vars [("message", "hi")]) init r w' H Hf)
    as (messages & m & H1 & H2 & _).
  exists messages, m. split; [exact H1|exact H2].
Defined.

(** The world and the session after the user message is appended do
    not depend on the completion endpoint. *)
Lemma append_user_with_fetch f env sid text w :
  append_user (with_fetch f env) sid text w = append_user env sid text w.
Proof. reflexivity. Qed.

Lemma decode_with_fetch f env b : decode (with_fetch f env) b = decode env b.
Proof. reflexivity. Qed.

Lemma apiMessages_app l1 l2 :
  apiMessages (l1 ++ l2) = apiMessages l1 ++ map api_message l2.
Proof. unfold apiMessages. now rewrite map_app. Qed.

(** X8.  The request that a send makes to the completion endpoint
    carries the system prompt, then every message that the session
    held before, in order, each with its role and content, then the
    new user message with the trimmed text; and the send depends on
    the endpoint through its answer to that one request only. *)
Theorem completion_request_carries_history env q vars w sid text f :
  resolveVariable vars q "sessionId" = inl sid ->
  resolveVariable vars q "message" = inl (JStr text) ->
  trim text <> EmptyString ->
  Forall (fun r => (r < length (heap w))%nat) (earlier_refs sid w) ->
  let request :=
    {| api_role := "system"; api_content := system_prompt |} ::
    map api_message (earlier_messages sid w) ++
    [{| api_role := "user"; api_content := trim text |}] in
  f request = fetch env request ->
  handleSendMessage (with_fetch f env) q vars w = handleSendMessage env q vars w.
Proof.
  intros Hs Hm Ht Hrefs request Hf.
  rewrite !(handleSendMessage_valid _ _ _ _ _ _ Hs Hm Ht).
  destruct (resolve_session_total env sid w) as (k & s0 & w0 & Hr).
  pose proof (append_user_effect _ _ (trim text) _ _ _ _ Hr) as Ha. cbv zeta in Ha.
  pose proof Ha as Ha'. rewrite <- (append_user_with_fetch f) in Ha'.
  rewrite (send_unfold _ _ _ _ _ _ _ Ha), (send_unfold _ _ _ _ _ _ _ Ha').
  destruct (append_user_appends _ _ _ _ _ _ _ Ha) as (um & Hmsgs & Hheap & Hrole & Hcontent & _).
  match type of Ha with _ = (inl (_, ?s), ?w1) =>
    assert (Hc : apiMessages (contents w1 s) = request) end.
  { unfold contents. rewrite Hmsgs, Hheap, (contents_appended _ _ _ Hrefs).
    rewrite apiMessages_app. unfold request, earlier_messages, apiMessages.
    cbn [map app]. unfold api_message. now rewrite Hrole, Hcontent. }
  unfold complete, callDeepSeekAPI, getChatCompletion. run.
  rewrite Hc. cbn [fetch with_fetch]. rewrite Hf. reflexivity.
Qed.

(** X8 at a first message: the request is the system prompt and the
    user message, and an endpoint that answers that request as the
    one of scenario A does, and rejects every other, gives the same
    send. *)
Lemma completion_request_carries_history_witness :
  let f := fun request : list ApiMessage =>
             if (length request =? 2)%nat then fetch Sample.streaming request
             else Rejected (ErrorObject "unexpected request") in
  handleSendMessage (with_fetch f Sample.streaming) "mutation { sendMessage }"
    (Sample.vars [("message", " hi ")]) init =
  handleSendMessage Sample.streaming "mutation { sendMessage }"
    (Sample.vars [("message", " hi ")]) init.
Proof.
  cbv zeta.
  apply (completion_request_carries_history Sample.streaming "mutation { sendMessage }"
           (Sample.vars [("message", " hi ")]) init JNull " hi ").
  - reflexivity.
  - reflexivity.
  - vm_compute. discriminate.
  - constructor.
  - reflexivity.
Defined.

(** ** Sessions through their operations *)

Lemma truthy_string s : s <> EmptyString -> truthy (JStr s) = true.
Proof. destruct s; [congruence|reflexivity]. Qed.

Lemma createChatSession_effect env w :
  let key := fresh_key env w in
  let s := ChatSession.make key [] (clock env (S (ticks w))) (clock env (S (S (ticks w)))) in
  createChatSession_branch env w =
    (inl (data_result (createChatSession_data s)),
     {| chatSessions := <[key := s]> (chatSessions w); heap := heap w;
        ticks := S (S (S (ticks w))); draws := S (draws w) |}).
Proof. reflexivity. Qed.

Lemma getChatSession_effect q vars w sid :
  resolveVariable vars q "id" = inl (JStr sid) ->
  sid <> EmptyString ->
  getChatSession_branch q vars w =
    (inl (data_result (getChatSession_data (chatSessions w !! sid))), w).
Proof.
  intros Hr Hne. unfold getChatSession_branch. run.
  rewrite Hr, (truthy_string _ Hne). cbn [negb store_get].
  now destruct (chatSessions w !! sid).
Qed.

(** X9.  createChatSession stores a session without messages under a
    newly generated id, whatever the variables of the request, and
    touches nothing else; a getChatSession for that id then returns
    this very session and changes nothing. *)
Theorem created_session_is_retrievable env q vars w q' :
  classify q = createChatSession ->
  classify q' = getChatSession ->
  exists s w1,
    executeGraphQL env q vars w = (data_result (createChatSession_data s), w1) /\
    ChatSession.id s = fresh_key env w /\
    ChatSession.messages s = [] /\
    ChatSession.createdAt s = clock env (S (ticks w)) /\
    ChatSession.updatedAt s = clock env (S (S (ticks w))) /\
    chatSessions w1 = <[ChatSession.id s := s]> (chatSessions w) /\
    heap w1 = heap w /\
    executeGraphQL env q' (JObj [("id", JStr (ChatSession.id s))]) w1 =
      (data_result (getChatSession_data (Some s)), w1).
Proof.
  intros Hc Hc'.
  rewrite (executeGraphQL_branch _ _ _ _ _ Hc). cbn [branch].
  rewrite createChatSession_effect.
  eexists _, _. split; [reflexivity|].
  cbn [ChatSession.id ChatSession.messages ChatSession.createdAt ChatSession.updatedAt
       chatSessions heap].
  repeat (split; [reflexivity|]).
  rewrite (executeGraphQL_branch _ _ _ _ _ Hc'). cbn [branch].
  rewrite (getChatSession_effect _ _ _ (fresh_key env w)).
  - cbn [chatSessions]. now rewrite lookup_insert_eq.
  - reflexivity.
  - unfold fresh_key. rewrite StrFacts.app_cons. discriminate.
Qed.

(** X9 on the empty store. *)
Lemma created_session_is_retrievable_witness :
  exists s w1,
    executeGraphQL Sample.failing "mutation { createChatSession { id } }" JNull init =
      (data_result (createChatSession_data s), w1) /\
    ChatSession.id s = "id_r0me3hn9c0" /\
    executeGraphQL Sample.failing "query { getChatSession { id } }"
      (JObj [("id", JStr (ChatSession.id s))]) w1 =
      (data_result (getChatSession_data (Some s)), w1).
Proof.
  destruct (created_session_is_retrievable Sample.failing
              "mutation { createChatSession { id } }" JNull init
              "query { getChatSession { id } }")
    as (s & w1 & H1 & H2 & _ & _ & _ & _ & _ & H8).
  - vm_compute. reflexivity.
  - vm_compute. reflexivity.
  - exists s, w1. split; [exact H1|]. split; [|exact H8].
    rewrite H2. vm_compute. reflexivity.
Defined.

Lemma deleteChatSession_effect q vars w sid :
  resolveVariable vars q "sessionId" = inl (JStr sid) ->
  sid <> EmptyString ->
  deleteChatSession_branch q vars w =
    (inl (data_result (deleteChatSession_data
            (bool_decide (is_Some (chatSessions w !! sid))))),
     set_sessions (delete sid (chatSessions w)) w).
Proof.
  intros Hr Hne. unfold deleteChatSession_branch. run.
  now rewrite Hr, (truthy_string _ Hne).
Qed.

(** X10.  deleteChatSession on a stored session answers true and
    removes that session and no other; the id is then unknown, and
    the same request made again answers false and changes nothing. *)
Theorem deleted_session_is_gone env q vars w sid s :
  classify q = deleteChatSession ->
  resolveVariable vars q "sessionId" = inl (JStr sid) ->
  sid <> EmptyString ->
  chatSessions w !! sid = Some s ->
  exists w1,
    executeGraphQL env q vars w = (data_result (deleteChatSession_data true), w1) /\
    chatSessions w1 = delete sid (chatSessions w) /\
    chatSessions w1 !! sid = None /\
    (forall key, key <> sid -> chatSessions w1 !! key = chatSessions w !! key) /\
    heap w1 = heap w /\
    executeGraphQL env q vars w1 = (data_result (deleteChatSession_data false), w1).
Proof.
  intros Hc Hr Hne Hk.
  assert (He : forall w0, executeGraphQL env q vars w0 =
                 (data_result (deleteChatSession_data
                     (bool_decide (is_Some (chatSessions w0 !! sid)))),
                  set_sessions (delete sid (chatSessions w0)) w0)).
  { intros w0. rewrite (executeGraphQL_branch _ _ _ _ _ Hc). cbn [branch].
    now rewrite (deleteChatSession_effect _ _ _ _ Hr Hne). }
  exists (set_sessions (delete sid (chatSessions w)) w).
  rewrite !He, Hk, bool_decide_eq_true_2 by eauto.
  cbn [chatSessions heap set_sessions].
  split; [reflexivity|]. split; [reflexivity|]. split; [apply lookup_delete_eq|].
  split; [intros key Hkey; now apply lookup_delete_ne|].
  split; [reflexivity|].
  rewrite lookup_delete_eq, bool_decide_eq_false_2 by (intros [? ?]; discriminate).
  now rewrite delete_id by apply lookup_delete_eq.
Qed.

(** X10 at a session that was just created. *)
Lemma deleted_session_is_gone_witness :
  let w := snd (executeGraphQL Sample.failing
                  "mutation { createChatSession { id } }" (JObj []) init) in
  exists w1,
    executeGraphQL Sample.failing
      (Sample.call "deleteChatSession" "sessionId" "id_r0me3hn9c0") (JObj []) w =
      (data_result (deleteChatSession_data true), w1) /\
    chatSessions w1 !! "id_r0me3hn9c0" = None.
Proof.
  cbv zeta.
  destruct (deleted_session_is_gone Sample.failing
              (Sample.call "deleteChatSession" "sessionId" "id_r0me3hn9c0") (JObj [])
              (snd (executeGraphQL Sample.failing
                      "mutation { createChatSession { id } }" (JObj []) init))
              "id_r0me3hn9c0"
              (ChatSession.make "id_r0me3hn9c0" [] 1754697600001 1754697600002))
    as (w1 & H1 & _ & H3 & _).
  - vm_compute. reflexivity.
  - vm_compute. reflexivity.
  - discriminate.
  - vm_compute. reflexivity.
  - exists w1. split; [exact H1|exact H3].
Defined.

Lemma continued_found sid w s :
  sid <> EmptyString -> chatSessions w !! sid = Some s ->
  continued (JStr sid) w = Some (sid, s).
Proof.
  intros Hne Hk. unfold continued. rewrite (truthy_string _ Hne).
  cbn [store_get]. now rewrite Hk.
Qed.

Lemma continued_missing sid w :
  (forall key, sid = JStr key -> chatSessions w !! key = None) ->
  continued sid w = None.
Proof.
  intros H. unfold continued. destruct (truthy sid); [|reflexivity].
  destruct sid; try reflexivity. cbn [store_get]. now rewrite (H _ eq_refl).
Qed.

(** What a send that passed validation leaves behind, from the session
    it resolved. *)
Lemma send_effect env sid text w key s0 w0 :
  resolve_session env sid w = (inl (key, s0), w0) ->
  exists r w2 userMessage,
    send env sid text w = (inl (data_result (sendMessage_data r)), w2) /\
    chatSessions w2 = <[key := ChatResponse.session r]> (chatSessions w0) /\
    ChatSession.id (ChatResponse.session r) = ChatSession.id s0 /\
    ChatSession.createdAt (ChatResponse.session r) = ChatSession.createdAt s0 /\
    ChatSession.messages (ChatResponse.session r) =
      ChatSession.messages s0 ++ length (heap w0) ::
        (if ChatResponse.success r then [S (length (heap w0))] else []) /\
    heap w2 !! length (heap w0) = Some userMessage /\
    ChatMessage.role userMessage = user /\
    ChatMessage.content userMessage = text /\
    (forall i, (i < length (heap w0))%nat -> heap w2 !! i = heap w0 !! i) /\
    (ChatResponse.success r = true ->
     exists readable assistantMessage,
       ChatResponse.stream r = Value readable /\
       sink readable = S (length (heap w0)) /\
       heap w2 !! S (length (heap w0)) = Some assistantMessage /\
       ChatMessage.role assistantMessage = assistant /\
       ChatMessage.content assistantMessage = EmptyString).
Proof.
  intros Hr.
  pose proof (append_user_effect _ _ text _ _ _ _ Hr) as Ha. cbv zeta in Ha.
  rewrite (send_unfold _ _ _ _ _ _ _ Ha).
  match goal with |- context [complete env key ?s ?w1] =>
    destruct (callDeepSeekAPI env (contents w1 s)) as [events|e] eqn:E end.
  - rewrite (complete_success _ _ _ _ _ E).
    eexists _, _, _. split; [reflexivity|].
    cbn [ChatResponse.session ChatResponse.success ChatResponse.stream chatSessions heap
         ChatSession.id ChatSession.createdAt ChatSession.messages
         ChatSession.with_messages ChatSession.with_updatedAt sink].
    split; [apply insert_insert_eq|]. split; [reflexivity|]. split; [reflexivity|].
    split; [rewrite <- List.app_assoc, length_app; cbn [app length];
            repeat f_equal; lia|].
    split; [rewrite lookup_app_l by (rewrite length_app; cbn; lia);
            apply list_lookup_middle; reflexivity|].
    split; [reflexivity|]. split; [reflexivity|].
    split.
    + intros i Hi. rewrite !lookup_app_l; [reflexivity|lia|rewrite length_app; lia].
    + intros _. eexists _, _. split; [reflexivity|]. split; [rewrite length_app; cbn; lia|].
      split; [apply list_lookup_middle; rewrite length_app; cbn; lia|].
      split; reflexivity.
  - rewrite (complete_failure _ _ _ _ _ E).
    eexists _, _, _. split; [reflexivity|].
    cbn [ChatResponse.session ChatResponse.success ChatResponse.stream chatSessions heap
         ChatSession.id ChatSession.createdAt ChatSession.messages
         ChatSession.with_messages ChatSession.with_updatedAt sink].
    split; [apply insert_insert_eq|]. split; [reflexivity|]. split; [reflexivity|].
    split; [reflexivity|].
    split; [apply list_lookup_middle; reflexivity|].
    split; [reflexivity|]. split; [reflexivity|].
    split; [|discriminate].
    intros i Hi. now rewrite lookup_app_l.
Qed.

(** X11.  A send that names a stored session continues it: whether the
    completion succeeds or fails, the session keeps its id and its
    createdAt and is stored under the same id; the messages it held
    are kept, in order, and followed by the new user message with the
    trimmed text, and on success by an assistant message that is still
    empty; no message object that existed before is touched. *)
Theorem send_continues_stored_session env q vars w sid text s :
  resolveVariable vars q "sessionId" = inl (JStr sid) ->
  resolveVariable vars q "message" = inl (JStr text) ->
  trim text <> EmptyString ->
  sid <> EmptyString ->
  chatSessions w !! sid = Some s ->
  exists r w2 userMessage,
    handleSendMessage env q vars w = (inl (data_result (sendMessage_data r)), w2) /\
    chatSessions w2 = <[sid := ChatResponse.session r]> (chatSessions w) /\
    ChatSession.id (ChatResponse.session r) = ChatSession.id s /\
    ChatSession.createdAt (ChatResponse.session r) = ChatSession.createdAt s /\
    ChatSession.messages (ChatResponse.session r) =
      ChatSession.messages s ++ length (heap w) ::
        (if ChatResponse.success r then [S (length (heap w))] else []) /\
    heap w2 !! length (heap w) = Some userMessage /\
    ChatMessage.role userMessage = user /\
    ChatMessage.content userMessage = trim text /\
    (forall i, (i < length (heap w))%nat -> heap w2 !! i = heap w !! i) /\
    (ChatResponse.success r = true ->
     exists readable assistantMessage,
       ChatResponse.stream r = Value readable /\
       sink readable = S (length (heap w)) /\
       heap w2 !! S (length (heap w)) = Some assistantMessage /\
       ChatMessage.role assistantMessage = assistant /\
       ChatMessage.content assistantMessage = EmptyString).
Proof.
  intros Hs Hm Ht Hne Hk.
  rewrite (handleSendMessage_valid _ _ _ _ _ _ Hs Hm Ht).
  apply send_effect, resolve_session_found, continued_found; assumption.
Qed.

(** X11 at a second message in the session of a first one whose
    completion failed. *)
Lemma send_continues_stored_session_witness :
  let w := snd (handleSendMessage Sample.failing "mutation { sendMessage }"
                  (Sample.vars [("message", "hi")]) init) in
  exists r w2,
    handleSendMessage Sample.failing "mutation { sendMessage }"
      (Sample.vars [("sessionId", "id_r0me3hn9c0"); ("message", "again")]) w =
      (inl (data_result (sendMessage_data r)), w2) /\
    ChatSession.messages (ChatResponse.session r) = [0%nat; 1%nat] /\
    map ChatMessage.content (contents w2 (ChatResponse.session r)) = ["hi"; "again"].
Proof.
  cbv zeta.
  destruct (send_continues_stored_session Sample.failing "mutation { sendMessage }"
              (Sample.vars [("sessionId", "id_r0me3hn9c0"); ("message", "again")])
              (snd (handleSendMessage Sample.failing "mutation { sendMessage }"
                      (Sample.vars [("message", "hi")]) init))
              "id_r0me3hn9c0" "again"
              (ChatSession.make "id_r0me3hn9c0" [0%nat] 1754697600001 1754697600005))
    as (r & w2 & um & H1 & _).
  - reflexivity.
  - reflexivity.
  - vm_compute. discriminate.
  - discriminate.
  - vm_compute. reflexivity.
  - exists r, w2. split; [exact H1|].
    vm_compute in H1. injection H1 as <- <-. split; vm_compute; reflexivity.
Defined.

(** X12.  A send whose session id is absent, empty, not a string or
    not stored does not fail on that account: it creates a session
    under a newly generated id, which is the id of the session it
    returns and the only key of the store it writes; the id that was
    asked for is not adopted, and stays unknown unless it is the one
    generated. *)
Theorem send_to_unknown_session_starts_anew env q vars w sid text :
  resolveVariable vars q "sessionId" = inl sid ->
  resolveVariable vars q "message" = inl (JStr text) ->
  trim text <> EmptyString ->
  (forall key, sid = JStr key -> chatSessions w !! key = None) ->
  exists r w2,
    handleSendMessage env q vars w = (inl (data_result (sendMessage_data r)), w2) /\
    ChatSession.id (ChatResponse.session r) = fresh_key env w /\
    chatSessions w2 = <[fresh_key env w := ChatResponse.session r]> (chatSessions w) /\
    ChatSession.createdAt (ChatResponse.session r) = clock env (S (ticks w)) /\
    ChatSession.messages (ChatResponse.session r) =
      length (heap w) :: (if ChatResponse.success r then [S (length (heap w))] else []) /\
    (forall key, sid = JStr key -> key <> fresh_key env w ->
       chatSessions w2 !! key = None).
Proof.
  intros Hs Hm Ht Hk.
  rewrite (handleSendMessage_valid _ _ _ _ _ _ Hs Hm Ht).
  pose proof (resolve_session_fresh env _ _ (continued_missing _ _ Hk)) as Hr.
  cbv zeta in Hr.
  destruct (send_effect _ _ (trim text) _ _ _ _ Hr)
    as (r & w2 & um & H1 & H2 & H3 & H4 & H5 & _).
  cbn [chatSessions heap ChatSession.id ChatSession.createdAt ChatSession.messages app]
    in H2, H3, H4, H5.
  exists r, w2. split; [exact H1|]. split; [exact H3|].
  rewrite insert_insert_eq in H2.
  split; [exact H2|]. split; [exact H4|]. split; [exact H5|].
  intros key -> Hne. rewrite H2, lookup_insert_ne by congruence. now apply Hk.
Qed.

(** X12 at a send that names a session that was never created. *)
Lemma send_to_unknown_session_starts_anew_witness :
  exists r w2,
    handleSendMessage Sample.failing "mutation { sendMessage }"
      (Sample.vars [("sessionId", "nope"); ("message", "hi")]) init =
      (inl (data_result (sendMessage_data r)), w2) /\
    ChatSession.id (ChatResponse.session r) = "id_r0me3hn9c0" /\
    chatSessions w2 !! "nope" = None.
Proof.
  destruct (send_to_unknown_session_starts_anew Sample.failing "mutation { sendMessage }"
              (Sample.vars [("sessionId", "nope"); ("message", "hi")]) init
              (JStr "nope") "hi")
    as (r & w2 & H1 & H2 & _ & _ & _ & H6).
  - reflexivity.
  - reflexivity.
  - vm_compute. discriminate.
  - intros key _. reflexivity.
  - exists r, w2. split; [exact H1|]. split.
    + rewrite H2. vm_compute. reflexivity.
    + apply H6; [reflexivity|]. vm_compute. discriminate.
Defined.

(** ** What the operations read and write *)

Lemma resolveVariable_skips vars q name other v :
  String.eqb name other = false ->
  resolveVariable (JObj ((other, v) :: vars)) q name = resolveVariable (JObj vars) q name.
Proof.
  intros H. unfold resolveVariable, member, exc_bind. cbn [nullish own assoc].
  now rewrite H.
Qed.

(** X13.  No operation reads the stream variable of a request:
    [handleSendMessage] computes a flag from it and never uses it, so
    a send streams its answer whatever the variable says, and every
    operation answers the same with and without it. *)
Theorem stream_variable_is_ignored env q props v w :
  handleSendMessage env q (JObj (("stream", v) :: props)) w =
    handleSendMessage env q (JObj props) w /\
  executeGraphQL env q (JObj (("stream", v) :: props)) w =
    executeGraphQL env q (JObj props) w.
Proof.
  assert (H : handleSendMessage env q (JObj (("stream", v) :: props)) w =
              handleSendMessage env q (JObj props) w).
  { unfold handleSendMessage. run.
    rewrite !(resolveVariable_skips props q _ "stream" v) by reflexivity.
    unfold resolveVariable at 3 6. unfold member, exc_bind. cbn [nullish].
    rewrite !(extractVariableFromQuery_returns q "stream") by reflexivity.
    now destruct (truthy _), (truthy _). }
  split; [exact H|].
  unfold executeGraphQL. rewrite !resolve_classified.
  destruct (classify q); cbn [branch]; try reflexivity.
  now rewrite H.
Qed.

(** X14.  The queries do not write: hello, getChatSession and a query
    that names no operation leave the whole state as it was, and
    apiInfo only reads the clock, twice; getChatSession answers with
    the session stored under the id, or null. *)
Theorem queries_do_not_write env q vars w :
  (classify q = hello \/ classify q = getChatSession \/ classify q = unknown ->
   snd (executeGraphQL env q vars w) = w) /\
  (classify q = apiInfo ->
   chatSessions (snd (executeGraphQL env q vars w)) = chatSessions w /\
   heap (snd (executeGraphQL env q vars w)) = heap w /\
   ticks (snd (executeGraphQL env q vars w)) = S (S (ticks w))) /\
  (forall sid,
     classify q = getChatSession ->
     resolveVariable vars q "id" = inl (JStr sid) -> sid <> EmptyString ->
     fst (executeGraphQL env q vars w) =
       data_result (getChatSession_data (chatSessions w !! sid))).
Proof.
  split; [|split].
  - intros [Hc|[Hc|Hc]]; rewrite (executeGraphQL_branch _ _ _ _ _ Hc); cbn [branch].
    + reflexivity.
    + unfold getChatSession_branch. run.
      destruct (resolveVariable vars q "id") as [sid|e]; [|reflexivity].
      now destruct (negb (truthy sid)).
    + reflexivity.
  - intros Hc. rewrite (executeGraphQL_branch _ _ _ _ _ Hc). cbn [branch].
    unfold apiInfo_branch, getSchemaInfo. run. auto.
  - intros sid Hc Hr Hne. rewrite (executeGraphQL_branch _ _ _ _ _ Hc). cbn [branch].
    now rewrite (getChatSession_effect _ _ _ _ Hr Hne).
Qed.

Lemma resolveVariable_total vars q name :
  nullish vars = false -> pairs_up 0 name = true ->
  exists v, resolveVariable vars q name = inl v.
Proof. intros H Hp. rewrite (resolveVariable_value _ _ _ H Hp). eauto. Qed.

Lemma resolveVariable_throws vars q name :
  nullish vars = true -> exists e, resolveVariable vars q name = inr e.
Proof. intros H. unfold resolveVariable, member, exc_bind. rewrite H. eauto. Qed.

Lemma send_returns env sid text w : exists r w', send env sid text w = (inl r, w').
Proof.
  destruct (send_cases env sid text w) as (key & s & w1 & _ & [(ev & _ & E)|(e & _ & E)]);
    rewrite E; eauto.
Qed.

(** A value that cannot be printed is an array or an object: it is
    truthy and it is no key of the store. *)
Lemma unprintable_value v e w :
  JS.toString v = inr e ->
  truthy v = true /\ store_get v w = None /\ store_delete v w = (inl false, w).
Proof.
  destruct v as [| |[]|nz t|s|items|props]; try discriminate; auto.
Qed.

(** X15.  The resolver throws in two cases only, and in both the catch
    of [executeGraphQL] answers with one error and leaves the state as
    it was.  The first is that the variables of the request are null or
    undefined and the operation reads an argument; the HTTP handler
    replaces missing variables by an empty object, so a request never
    gets there.  The second is a clearChatSession or a
    deleteChatSession whose session id cannot be printed, such as an
    object with a property named toString: the message of the one and
    the log line of the other print the id.  In every other case each
    operation returns a result; a session id that is a string is
    always printed. *)
Theorem resolver_throws_on_what_it_cannot_read env q vars w :
  (nullish vars = false ->
   (forall sid,
      In (classify q) [clearChatSession; deleteChatSession] ->
      resolveVariable vars q "sessionId" = inl sid ->
      exists printed, JS.toString sid = inl printed) ->
   exists r w', resolve env q vars w = (inl r, w') /\
                executeGraphQL env q vars w = (r, w')) /\
  (forall sid e,
     In (classify q) [clearChatSession; deleteChatSession] ->
     resolveVariable vars q "sessionId" = inl sid ->
     JS.toString sid = inr e ->
     resolve env q vars w = (inr e, w) /\
     executeGraphQL env q vars w =
       (errors_result [message_or "An unexpected error occurred" e], w)) /\
  (nullish vars = true ->
   In (classify q) [getChatSession; clearChatSession; deleteChatSession; sendMessage] ->
   exists m, executeGraphQL env q vars w = (errors_result [m], w)) /\
  (nullish vars = true ->
   In (classify q) [hello; apiInfo; createChatSession; unknown] ->
   executeGraphQL env q vars w = executeGraphQL env q (JObj []) w) /\
  (forall body, nullish (JS.or (GraphQLRequest.variables body) (JObj [])) = false) /\
  (forall s, JS.toString (JStr s) = inl s) /\
  (exists m,
     executeGraphQL env "mutation { deleteChatSession }"
       (JObj [("sessionId", JObj [("toString", num 1)])]) w = (errors_result [m], w)).
Proof.
  split; [|split; [|split; [|split; [|split; [|split]]]]].
  - intros Hv Hprint.
    assert (H : exists r w', resolve env q vars w = (inl r, w')).
    { rewrite resolve_classified.
      destruct (classify q) eqn:Hc; cbn [branch].
      - eexists _, _. reflexivity.
      - eexists _, _. reflexivity.
      - unfold getChatSession_branch. run.
        rewrite (resolveVariable_value _ _ _ Hv) by reflexivity.
        destruct (negb (truthy _)); eauto.
      - rewrite createChatSession_effect. eauto.
      - specialize (fun sid => Hprint sid (or_introl eq_refl)).
        unfold clearChatSession_branch. run.
        rewrite (resolveVariable_value _ _ _ Hv) in * by reflexivity.
        destruct (Hprint _ eq_refl) as [printed Hp].
        destruct (negb (truthy _)); eauto.
        destruct (store_get _ w) as [[key s]|]; eauto.
        rewrite Hp. eauto.
      - specialize (fun sid => Hprint sid (or_intror (or_introl eq_refl))).
        unfold deleteChatSession_branch. run.
        rewrite (resolveVariable_value _ _ _ Hv) in * by reflexivity.
        destruct (Hprint _ eq_refl) as [printed Hp].
        destruct (negb (truthy _)); eauto.
        destruct (JS.or _ _); rewrite Hp; eauto.
      - unfold handleSendMessage. run.
        rewrite !(resolveVariable_value _ _ _ Hv) by reflexivity. cbn [exc_bind].
        destruct (JS.or (own vars "message") _) as [| |b|nz t|text|items|props];
          eauto.
        destruct (_ || _); eauto. apply send_returns.
      - eexists _, _. reflexivity. }
    destruct H as (r & w' & H). exists r, w'. split; [exact H|].
    unfold executeGraphQL. now rewrite H.
  - intros sid e Hin Hr He.
    destruct (unprintable_value _ _ w He) as (Ht & Hg & Hd).
    assert (H : resolve env q vars w = (inr e, w)).
    { rewrite resolve_classified.
      cbn [In] in Hin. destruct Hin as [<-|[<-|[]]]; cbn [branch].
      - unfold clearChatSession_branch. run. rewrite Hr, Ht. cbn [negb].
        now rewrite Hg, He.
      - unfold deleteChatSession_branch. run. rewrite Hr, Ht. cbn [negb].
        unfold store_delete in Hd. now rewrite Hd, He. }
    split; [exact H|]. unfold executeGraphQL. now rewrite H.
  - intros Hv Hin. unfold executeGraphQL. rewrite resolve_classified.
    cbn [In] in Hin. destruct Hin as [<-|[<-|[<-|[<-|[]]]]]; cbn [branch].
    + unfold getChatSession_branch. run.
      destruct (resolveVariable_throws vars q "id" Hv) as [e ->]. eauto.
    + unfold clearChatSession_branch. run.
      destruct (resolveVariable_throws vars q "sessionId" Hv) as [e ->]. eauto.
    + unfold deleteChatSession_branch. run.
      destruct (resolveVariable_throws vars q "sessionId" Hv) as [e ->]. eauto.
    + unfold handleSendMessage. run.
      destruct (resolveVariable_throws vars q "sessionId" Hv) as [e ->]. eauto.
  - intros _ Hin. unfold executeGraphQL. rewrite !resolve_classified.
    cbn [In] in Hin. destruct Hin as [<-|[<-|[<-|[<-|[]]]]]; reflexivity.
  - intros body. unfold JS.or.
    destruct (GraphQLRequest.variables body) as [| |b|nz t|s|l|p]; cbn [truthy];
      try reflexivity; [destruct b|destruct nz|destruct s]; reflexivity.
  - reflexivity.
  - eexists. rewrite (executeGraphQL_branch _ _ _ _ deleteChatSession) by reflexivity.
    cbn [branch]. reflexivity.
Qed.

(** ** The HTTP handler *)

Lemma blank_query q : trim q = EmptyString -> (String.length (trim q) =? 0)%nat = true.
Proof. now intros ->. Qed.

Lemma filled_query q :
  trim q <> EmptyString ->
  truthy (JStr q) = true /\ (String.length (trim q) =? 0)%nat = false.
Proof.
  intros H. split.
  - destruct q; [now destruct H|reflexivity].
  - destruct (trim q); [now destruct H|reflexivity].
Qed.

Lemma classification_unknown env q vars w :
  classify q = unknown -> executeGraphQL env q vars w = (unknown_operation, w).
Proof.
  intros H. rewrite (executeGraphQL_branch _ _ _ _ _ H). reflexivity.
Qed.

(** X16.  [handleGraphQLRequest] answers with status 400 exactly when
    the query of the body is absent, not a string, empty or blank,
    and then it does not run the resolver and leaves the state as it
    was.  Every other request is resolved with the variables of the
    body, or an empty object in their place, and is answered with the
    stream of a send or with status 200, whatever the result holds:
    the error of an unknown operation is sent with status 200. *)
Theorem bad_request_only_for_bad_query env body w :
  let vars := JS.or (GraphQLRequest.variables body) (JObj []) in
  let answer := handleGraphQLRequest env body w in
  ((forall q, GraphQLRequest.query body = JStr q -> trim q = EmptyString) ->
   snd answer = w /\
   exists m, fst answer = json_response 400 (errors_result [m])) /\
  (forall q,
     GraphQLRequest.query body = JStr q -> trim q <> EmptyString ->
     snd answer = snd (executeGraphQL env q vars w) /\
     (fst answer = json_response 200 (fst (executeGraphQL env q vars w)) \/
      exists headers readable, fst answer = stream_response headers readable) /\
     (classify q = unknown -> fst answer = json_response 200 unknown_operation)).
Proof.
  intros vars answer. subst answer. unfold handleGraphQLRequest. split.
  - intros H. destruct (GraphQLRequest.query body) as [| |b|nz t|q|items|props];
      try (split; [reflexivity|eauto]).
    destruct (negb (truthy (JStr q))); [split; [reflexivity|eauto]|].
    rewrite (blank_query _ (H _ eq_refl)). split; [reflexivity|eauto].
  - intros q -> Hq. destruct (filled_query _ Hq) as [-> ->]. cbn [negb].
    fold vars.
    pose proof (classification_unknown env q vars w) as Hu.
    destruct (executeGraphQL env q vars w) as [result w'] eqn:E. cbn [fst snd].
    destruct result as [d|ms].
    + destruct d as [g|a|s|s|s|b|r]; try (split; [reflexivity|split; [now left|]];
        intros Hc; specialize (Hu Hc); discriminate).
      destruct r as [ok msg [| |stream] session err];
        try (split; [reflexivity|split; [now left|]];
             intros Hc; specialize (Hu Hc); discriminate).
      split; [reflexivity|]. split; [right; eauto|].
      intros Hc. specialize (Hu Hc). discriminate.
    + split; [reflexivity|]. split; [now left|].
      intros Hc. specialize (Hu Hc). now injection Hu as ->.
Qed.

(** ** The consumption of a stream *)

Lemma set_content_other target c w i :
  i <> target -> heap (set_content target c w) !! i = heap w !! i.
Proof.
  intros H. unfold set_content. destruct (heap w !! target); [|reflexivity].
  cbn [heap set_heap]. now apply list_lookup_insert_ne.
Qed.

Lemma set_content_draws target c w : draws (set_content target c w) = draws w.
Proof. unfold set_content. now destruct (heap w !! target). Qed.

Lemma pump_from_other target full source w i :
  i <> target ->
  heap (pump_from target full source w) !! i = heap w !! i /\
  draws (pump_from target full source w) = draws w.
Proof.
  intros H. revert full w. induction source as [|v rest IH]; intros full w; cbn [pump_from].
  - auto.
  - destruct (IH (full +:+ v) (set_content target (full +:+ v) w)) as [H1 H2].
    now rewrite H1, H2, set_content_other, set_content_draws.
Qed.

Lemma pump_from_draws target full source w :
  draws (pump_from target full source w) = draws w.
Proof.
  revert full w. induction source as [|v rest IH]; intros full w; cbn [pump_from].
  - reflexivity.
  - now rewrite IH, set_content_draws.
Qed.

(** X17.  The loop that copies the stream of the service to the
    caller writes one thing: the content of the assistant message it
    was started for, which once the stream is consumed is the
    concatenation of the chunks delivered, or what it was when there
    were none.  The id, role and timestamp of that message, every
    other message, the sessions and the clock are left as they
    were. *)
Theorem consumption_writes_one_content r w :
  chatSessions (pump r w) = chatSessions w /\
  ticks (pump r w) = ticks w /\
  draws (pump r w) = draws w /\
  length (heap (pump r w)) = length (heap w) /\
  (forall i, i <> sink r -> heap (pump r w) !! i = heap w !! i) /\
  (forall m,
     heap w !! sink r = Some m ->
     heap (pump r w) !! sink r =
       Some (ChatMessage.make (ChatMessage.id m) (ChatMessage.role m)
               (match pending r with
                | [] => ChatMessage.content m
                | _ => concat_all (pending r)
                end)
               (ChatMessage.timestamp m))).
Proof.
  unfold pump.
  destruct (pump_from_frame (sink r) EmptyString (pending r) w) as (H1 & H2 & H3).
  split; [exact H1|]. split; [exact H2|].
  split; [apply pump_from_draws|]. split; [exact H3|]. split.
  - intros i Hi. now apply pump_from_other.
  - intros m Hm. destruct (pending r) as [|v rest] eqn:E.
    + cbn [pump_from]. rewrite Hm. now destruct m.
    + rewrite (pump_accumulates _ _ _ _ _ Hm) by discriminate. reflexivity.
Qed.

(** ** Validation of a query *)

Module KeywordFacts.
Import StrFacts MatchFacts.

Lemma N_of_upper c :
  N_of_ascii (upper c) =
  (if (97 <=? N_of_ascii c) && (N_of_ascii c <=? 122)
   then N_of_ascii c - 32 else N_of_ascii c)%N.
Proof.
  unfold upper. cbv zeta.
  destruct ((97 <=? N_of_ascii c) && (N_of_ascii c <=? 122))%N eqn:E; [|reflexivity].
  unfold chr. apply N_ascii_embedding.
  pose proof (N_ascii_bounded c). lia.
Qed.

(** Folding the case never turns a byte of white space into another
    byte, or another byte into one. *)
Lemma nocase_space a b :
  eqb_nocase a b = true -> space_byte b = space_byte a.
Proof.
  unfold eqb_nocase. intros H. apply Ascii.eqb_eq in H.
  apply (f_equal N_of_ascii) in H. rewrite !N_of_upper in H.
  unfold space_byte. cbv zeta.
  pose proof (N_ascii_bounded a). pose proof (N_ascii_bounded b).
  set (x := N_of_ascii a) in *. set (y := N_of_ascii b) in *.
  repeat match goal with
         | H : context [(?u <=? ?v)%N] |- _ => destruct (N.leb_spec u v); cbn [andb orb] in H
         end;
  repeat match goal with
         | |- context [(?u <=? ?v)%N] => destruct (N.leb_spec u v)
         | |- context [(?u =? ?v)%N] => destruct (N.eqb_spec u v)
         end; cbn [andb orb]; try reflexivity; lia.
Qed.

Lemma same_nocase_solid kw nm : same_nocase kw nm -> solid nm = solid kw.
Proof.
  induction 1 as [|a b s t E _ IH]; [reflexivity|].
  cbn [solid]. now rewrite IH, (nocase_space _ _ E).
Qed.

Lemma same_nocase_empty kw nm :
  same_nocase kw nm -> nm = EmptyString -> kw = EmptyString.
Proof. now destruct 1. Qed.

Lemma solid_ends s :
  solid s = true -> s <> EmptyString -> first_ok s = true /\ last_ok s = true.
Proof.
  intros H Hne. split.
  - destruct s as [|c r]; [now destruct Hne|].
    cbn in *. now apply andb_prop in H as [H _].
  - induction s as [|c r IH]; [now destruct Hne|].
    cbn [solid] in H. apply andb_prop in H as [Hc Hr].
    destruct r as [|d r']; [exact Hc|]. apply IH; [exact Hr|discriminate].
Qed.

(** A keyword stands at the head of a text whether or not the white
    space at its end is removed. *)
Lemma starts_nocase_trimEnd kw x :
  solid kw = true -> kw <> EmptyString ->
  starts_nocase kw (trimEnd x) = starts_nocase kw x.
Proof.
  intros Hs Hne. unfold starts_nocase.
  destruct (strip_nocase kw x) as [r|] eqn:E.
  - apply strip_nocase_spec in E as (nm & -> & Hnm).
    assert (Hends : first_ok nm = true /\ last_ok nm = true).
    { apply solid_ends.
      - now rewrite (same_nocase_solid _ _ Hnm).
      - intros ->. apply Hne. now apply (same_nocase_empty _ _ Hnm). }
    pose proof (startsWith_trimEnd (nm +:+ r) nm (proj2 Hends)) as H.
    rewrite startsWith_app in H. apply startsWith_spec in H as [r' H].
    rewrite H. now rewrite (proj2 (strip_nocase_spec kw _ _)) by eauto.
  - destruct (strip_nocase kw (trimEnd x)) as [r'|] eqn:E'; [|reflexivity].
    apply strip_nocase_spec in E' as (nm & H & Hnm).
    destruct (trimEnd_tail x) as (post & Hx & _).
    rewrite H, app_assoc in Hx.
    rewrite Hx, (proj2 (strip_nocase_spec kw _ _)) in E by eauto. discriminate.
Qed.

Lemma strip_one_none tbl s :
  strip_one tbl s = None <-> Forall (fun t => startsWith s t = false) tbl.
Proof.
  induction tbl as [|t tbl IH]; cbn [strip_one].
  - split; [constructor|reflexivity].
  - destruct (startsWith s t) eqn:E.
    + split; [discriminate|]. intros H. inversion H; congruence.
    + rewrite IH. split; [now constructor|]. intros H. now inversion H.
Qed.

Lemma strip_one_trimEnd y :
  strip_one whitespace y = None -> strip_one whitespace (trimEnd y) = None.
Proof.
  rewrite !strip_one_none. intros H. eapply Forall_impl; [exact H|].
  cbn. intros t Ht. apply not_true_is_false. intros Hs.
  apply startsWith_spec in Hs as [r Hr].
  destruct (trimEnd_tail y) as (post & Hy & _).
  rewrite Hr, app_assoc in Hy. rewrite Hy, startsWith_app in Ht. discriminate.
Qed.

Lemma skip_ws_fixed z : strip_one whitespace z = None -> skip_ws z = z.
Proof.
  intros H. unfold skip_ws. destruct z as [|c r]; [reflexivity|].
  cbn [String.length strip_many]. now rewrite H.
Qed.

Lemma skip_ws_trim q : skip_ws (trim q) = trim q.
Proof. apply skip_ws_fixed, strip_one_trimEnd, skip_ws_done. Qed.

Lemma keywords_solid :
  Forall (fun kw => solid kw = true /\ kw <> EmptyString) operation_keywords.
Proof. repeat constructor; discriminate. Qed.

(** The test for a keyword gives the same on a text and on the text
    trimmed. *)
Lemma hasValidKeyword_trim q : hasValidKeyword (trim q) = hasValidKeyword q.
Proof.
  unfold hasValidKeyword. rewrite skip_ws_trim. unfold trim, trimStart.
  pose proof keywords_solid as H.
  induction H as [|kw l [Hs Hne] _ IH]; [reflexivity|].
  cbn [existsb]. fold (starts_nocase kw (trimEnd (skip_ws q))).
  fold (starts_nocase kw (skip_ws q)).
  now rewrite (starts_nocase_trimEnd _ _ Hs Hne), IH.
Qed.

Lemma space_head_differs c s t :
  space_byte c = false -> In t whitespace -> startsWith (String c s) t = false.
Proof.
  intros Hc Ht.
  pose proof (whitespace_spaces _ Ht) as Hsp.
  pose proof (whitespace_not_empty _ Ht) as Hlen.
  destruct t as [|d t']; [cbn in Hlen; lia|].
  cbn [startsWith spaces_only] in *. apply andb_prop in Hsp as [Hd _].
  destruct (Ascii.eqb d c) eqn:E; [|reflexivity].
  apply Ascii.eqb_eq in E. subst d. congruence.
Qed.

Lemma solid_head_stays nm rest :
  solid nm = true -> nm <> EmptyString -> strip_one whitespace (nm +:+ rest) = None.
Proof.
  intros Hs Hne. apply strip_one_none, Forall_forall. intros t Ht.
  apply list_elem_of_In in Ht.
  destruct nm as [|c r]; [now destruct Hne|].
  cbn [solid] in Hs. apply andb_prop in Hs as [Hc _]. apply negb_true_iff in Hc.
  rewrite app_cons. now apply space_head_differs.
Qed.

End KeywordFacts.

Lemma hasValidKeyword_spec q :
  hasValidKeyword q = true <->
  exists ws nm rest kw,
    q = ws +:+ nm +:+ rest /\ ws_run ws /\
    In kw operation_keywords /\ same_nocase kw nm.
Proof.
  unfold hasValidKeyword. rewrite existsb_exists. split.
  - intros (kw & Hin & H).
    destruct (strip_nocase kw (skip_ws q)) as [rest|] eqn:E; [|discriminate].
    apply MatchFacts.strip_nocase_spec in E as (nm & Hq & Hnm).
    destruct (StrFacts.skip_ws_spec q) as (ws & Hws & Hs).
    exists ws, nm, rest, kw. rewrite Hq in Hs. auto.
  - intros (ws & nm & rest & kw & -> & Hws & Hin & Hnm).
    exists kw. split; [exact Hin|].
    pose proof KeywordFacts.keywords_solid as Hk. rewrite Forall_forall in Hk.
    destruct (Hk kw) as [Hs Hne]; [now apply list_elem_of_In|].
    assert (Hskip : skip_ws (ws +:+ nm +:+ rest) = nm +:+ rest).
    { unfold skip_ws. apply MatchFacts.strip_many_run; [exact Hws| |].
      - apply KeywordFacts.solid_head_stays.
        + now rewrite (KeywordFacts.same_nocase_solid _ _ Hnm).
        + intros ->. apply Hne. now apply (KeywordFacts.same_nocase_empty _ _ Hnm).
      - rewrite StrFacts.length_app. lia. }
    rewrite Hskip. now rewrite (proj2 (MatchFacts.strip_nocase_spec kw _ _)) by eauto.
Qed.

Lemma validateGraphQLQuery_valid q :
  Validation.valid (validateGraphQLQuery (JStr q)) = hasValidKeyword q.
Proof.
  unfold validateGraphQLQuery. cbv zeta.
  destruct q as [|c r]; [reflexivity|]. cbn [truthy is_empty negb].
  rewrite KeywordFacts.hasValidKeyword_trim.
  destruct (trim (String c r)) eqn:E.
  - cbn [String.length Nat.eqb Validation.valid].
    rewrite <- KeywordFacts.hasValidKeyword_trim, E. reflexivity.
  - cbn [String.length Nat.eqb]. now destruct (hasValidKeyword (String c r)).
Qed.

(** X18.  [validateGraphQLQuery] accepts a value exactly when it is a
    string that, after any white space, starts with query, mutation,
    subscription or an opening brace, the words in any case; nothing
    after that start is looked at, and no white space or delimiter is
    asked for after the word.  The trimming that it does first and
    its two tests for an empty query change nothing to that, and it
    gives an error text exactly when it does not accept. *)
Theorem validation_asks_for_a_leading_keyword query :
  (Validation.valid (validateGraphQLQuery query) = true <->
   exists ws nm rest kw,
     query = JStr (ws +:+ nm +:+ rest) /\ ws_run ws /\
     In kw operation_keywords /\ same_nocase kw nm) /\
  (Validation.valid (validateGraphQLQuery query) = true <->
   Validation.error (validateGraphQLQuery query) = None) /\
  operation_keywords = ["query"; "mutation"; "subscription"; "{"].
Proof.
  split; [|split; [|reflexivity]].
  - destruct query as [| |b|nz t|q|items|props];
      try (split; [discriminate|now intros (? & ? & ? & ? & ? & _)]).
    rewrite validateGraphQLQuery_valid, hasValidKeyword_spec. split.
    + intros (ws & nm & rest & kw & -> & H). exists ws, nm, rest, kw. auto.
    + intros (ws & nm & rest & kw & [= ->] & H). exists ws, nm, rest, kw. auto.
  - unfold validateGraphQLQuery. cbv zeta.
    destruct query as [| |b|nz t|q|items|props]; try (split; discriminate).
    destruct (negb (truthy (JStr q))); [split; discriminate|].
    destruct (String.length (trim q) =? 0)%nat; [split; discriminate|].
    destruct (negb (hasValidKeyword (trim q))); split; (discriminate || reflexivity).
Qed.

(** X19.  A query that [validateGraphQLQuery] accepts is never refused
    by the checks of [handleGraphQLRequest]: the handler resolves it.
    The handler asks for less: it resolves any query that is a string
    and not blank, such as a bare hello, which the validation
    refuses. *)
Theorem validated_query_is_resolved env body w :
  Validation.valid (validateGraphQLQuery (GraphQLRequest.query body)) = true ->
  exists q,
    GraphQLRequest.query body = JStr q /\
    snd (handleGraphQLRequest env body w) =
      snd (executeGraphQL env q (JS.or (GraphQLRequest.variables body) (JObj [])) w) /\
    (forall m, fst (handleGraphQLRequest env body w) <>
               json_response 400 (errors_result [m])).
Proof.
  intros H. destruct (GraphQLRequest.query body) as [| |b|nz t|q|items|props] eqn:Eq;
    try discriminate.
  exists q. split; [reflexivity|].
  assert (Hq : trim q <> EmptyString).
  { intros Ht. rewrite validateGraphQLQuery_valid,
      <- KeywordFacts.hasValidKeyword_trim, Ht in H. discriminate. }
  destruct (filled_query _ Hq) as [H1 H2].
  unfold handleGraphQLRequest. rewrite Eq, H1, H2. cbn [negb].
  destruct (executeGraphQL env q _ w) as [result w'].
  destruct result as [d|ms]; [|split; [reflexivity|discriminate]].
  destruct d as [g|a|s|s|s|b|r]; try (split; [reflexivity|discriminate]).
  destruct r as [ok msg [| |stream] session err]; split; (reflexivity || discriminate).
Qed.

(** X19 at a query of the playground, and at a bare hello. *)
Lemma validated_query_is_resolved_witness :
  Validation.valid (validateGraphQLQuery (JStr "  Query TestConnection { hello }")) = true /\
  Validation.valid (validateGraphQLQuery (JStr "hello")) = false /\
  fst (handleGraphQLRequest Sample.failing
         (GraphQLRequest.make (JStr "hello") JUndefined JUndefined) init) =
    json_response 200 (data_result (hello_data "Hello from GraphQL AI Chat API! 🚀")) /\
  exists q,
    JStr "  Query TestConnection { hello }" = JStr q /\
    snd (handleGraphQLRequest Sample.failing
           (GraphQLRequest.make (JStr "  Query TestConnection { hello }")
              JUndefined JUndefined) init) =
      snd (executeGraphQL Sample.failing q (JObj []) init).
Proof.
  split; [vm_compute; reflexivity|]. split; [vm_compute; reflexivity|].
  split; [vm_compute; reflexivity|].
  destruct (validated_query_is_resolved Sample.failing
              (GraphQLRequest.make (JStr "  Query TestConnection { hello }")
                 JUndefined JUndefined) init)
    as (q & H1 & H2 & _).
  - vm_compute. reflexivity.
  - exists q. split; [exact H1|exact H2].
Defined.

(** ** Maintenance of the store *)

Module StoreFacts.

Lemma cleanup_loop_run cutoff entries count w :
  cleanup_loop cutoff entries count w =
    (inl (count + length (List.filter (fun e => expired cutoff e.2) entries))%nat,
     set_sessions (purge cutoff (chatSessions w) entries) w).
Proof.
  revert count w. induction entries as [|[k s] rest IH]; intros count w.
  - cbn [cleanup_loop List.filter length purge fold_left]. unfold ret, set_sessions.
    now rewrite Nat.add_0_r, world_eta.
  - cbn [cleanup_loop List.filter purge fold_left snd].
    fold (expired cutoff s). destruct (expired cutoff s) eqn:E.
    + run. rewrite IH. cbn [length chatSessions set_sessions].
      f_equal. f_equal. lia.
    + now rewrite IH.
Qed.

Lemma purge_lookup cutoff m entries k :
  purge cutoff m entries !! k =
    if existsb (fun e => String.eqb k e.1 && expired cutoff e.2) entries
    then None else m !! k.
Proof.
  revert m. induction entries as [|[k0 s0] rest IH]; intros m; [reflexivity|].
  cbn [purge fold_left existsb fst snd]. fold (purge cutoff).
  change (fold_left _ rest ?m0) with (purge cutoff m0 rest).
  rewrite IH. destruct (existsb _ rest); [now rewrite orb_true_r|].
  rewrite orb_false_r. destruct (expired cutoff s0); [|now rewrite andb_false_r].
  rewrite andb_true_r. destruct (String.eqb_spec k k0) as [->|Hne].
  - apply lookup_delete_eq.
  - now apply lookup_delete_ne.
Qed.

Lemma purge_size cutoff m entries :
  NoDup entries.*1 ->
  (forall k s, (k, s) ∈ entries -> is_Some (m !! k)) ->
  (length (List.filter (fun e => expired cutoff e.2) entries) +
   size (purge cutoff m entries) = size m)%nat.
Proof.
  revert m. induction entries as [|[k0 s0] rest IH]; intros m Hnd Hin; [reflexivity|].
  cbn [purge fold_left List.filter snd]. change (fold_left _ rest ?m0) with (purge cutoff m0 rest).
  cbn [fmap list_fmap fst] in Hnd. apply NoDup_cons in Hnd as [Hk0 Hnd].
  assert (Hpresent : is_Some (m !! k0)) by (apply (Hin k0 s0); now left).
  destruct (expired cutoff s0).
  - assert (H : (length (List.filter (fun e => expired cutoff e.2) rest) +
                 size (purge cutoff (delete k0 m) rest) = size (delete k0 m))%nat).
    { apply (IH (delete k0 m) Hnd). intros k s Hks. rewrite lookup_delete_ne.
      - apply (Hin k s). now right.
      - intros ->. apply Hk0. apply list_elem_of_fmap. now exists (k, s). }
    rewrite (map_size_delete_Some _ _ Hpresent) in H.
    destruct Hpresent as [x Hx]. assert (size m <> 0%nat).
    { intros Hz. apply map_size_empty_inv in Hz. subst m.
      now rewrite lookup_empty in Hx. }
    cbn [length]. lia.
  - apply (IH m Hnd). intros k s Hks. apply (Hin k s). now right.
Qed.

Lemma existsb_entry cutoff (m : gmap string ChatSession.t) k s :
  m !! k = Some s ->
  existsb (fun e => String.eqb k e.1 && expired cutoff e.2) (map_to_list m) =
    expired cutoff s.
Proof.
  intros Hk. destruct (expired cutoff s) eqn:E.
  - apply existsb_exists. exists (k, s). split.
    + apply list_elem_of_In, elem_of_map_to_list, Hk.
    + cbn. now rewrite String.eqb_refl.
  - apply not_true_is_false. intros H. apply existsb_exists in H as ([k' s'] & Hin & H).
    cbn [fst snd] in H. apply andb_prop in H as [Hkk He].
    apply String.eqb_eq in Hkk. subst k'.
    apply list_elem_of_In, elem_of_map_to_list in Hin. congruence.
Qed.

Lemma existsb_absent cutoff (m : gmap string ChatSession.t) k :
  m !! k = None ->
  existsb (fun e => String.eqb k e.1 && expired cutoff e.2) (map_to_list m) = false.
Proof.
  intros Hk. apply not_true_is_false. intros H.
  apply existsb_exists in H as ([k' s'] & Hin & H).
  cbn [fst snd] in H. apply andb_prop in H as [Hkk _].
  apply String.eqb_eq in Hkk. subst k'.
  apply list_elem_of_In, elem_of_map_to_list in Hin. congruence.
Qed.

End StoreFacts.

(** X20.  [cleanupExpiredSessions] reads the clock once and removes
    from the store exactly the sessions whose last update is before
    the cutoff, the reading less the given number of hours; the
    sessions it keeps are unchanged, the number it returns is the
    number it removed, and when the cutoff is beyond the range of
    dates it removes nothing.  A state that the worker can be in
    stays one. *)
Theorem cleanup_removes_the_expired env maxAgeHours w :
  let cutoffTime :=
    time_value (clock env (ticks w) - maxAgeHours * 60 * 60 * 1000) in
  exists n w',
    cleanupExpiredSessions env maxAgeHours w = (inl n, w') /\
    (forall key s,
       chatSessions w' !! key = Some s <->
       chatSessions w !! key = Some s /\ expired cutoffTime s = false) /\
    (n + size (chatSessions w') = size (chatSessions w))%nat /\
    (cutoffTime = None -> n = 0%nat /\ chatSessions w' = chatSessions w) /\
    heap w' = heap w /\
    ticks w' = S (ticks w) /\
    (clock_monotone env -> sound env w -> sound env w').
Proof.
  intros cutoffTime. unfold cleanupExpiredSessions. run.
  rewrite StoreFacts.cleanup_loop_run.
  cbn [chatSessions set_sessions heap ticks]. fold cutoffTime.
  eexists _, _. split; [reflexivity|]. cbn [chatSessions heap ticks].
  assert (Hlookup : forall key s,
            purge cutoffTime (chatSessions w) (map_to_list (chatSessions w)) !! key = Some s <->
            chatSessions w !! key = Some s /\ expired cutoffTime s = false).
  { intros key s. rewrite StoreFacts.purge_lookup.
    destruct (chatSessions w !! key) as [s'|] eqn:Hk.
    - rewrite (StoreFacts.existsb_entry _ _ _ _ Hk).
      destruct (expired cutoffTime s') eqn:E.
      + split; [discriminate|]. intros [[= ->] H]. congruence.
      + split; [intros [= ->]; auto|now intros [? _]].
    - rewrite (StoreFacts.existsb_absent _ _ _ Hk). split; [discriminate|now intros [? _]]. }
  split; [exact Hlookup|]. split.
  - cbn [Nat.add]. apply StoreFacts.purge_size.
    + apply NoDup_fst_map_to_list.
    + intros k s Hin. apply elem_of_map_to_list in Hin. eauto.
  - split.
    + intros Hnone. assert (Hall : forall s, expired cutoffTime s = false).
      { intros s. unfold expired. now rewrite Hnone. }
      split.
      * assert (Hnil : forall l : list (string * ChatSession.t),
                  List.filter (fun e => expired cutoffTime e.2) l = []).
        { induction l as [|e l IH]; [reflexivity|]. cbn [List.filter]. now rewrite Hall. }
        now rewrite Hnil.
      * apply map_eq. intros key. apply option_eq. intros s.
        rewrite Hlookup. split; [now intros [? _]|auto].
    + split; [reflexivity|]. split; [reflexivity|].
      intros Hm Hw key s Hk. apply Hlookup in Hk as [Hk _].
      eapply (session_ok_later env Hm w); [cbn; lia|cbn; lia|]. now apply Hw.
Qed.

(** ** Statistics of the store *)

Module StatsFacts.

Lemma fold_sum (sessions : list ChatSession.t) acc :
  fold_left (fun sum session => (sum + length (ChatSession.messages session))%nat)
    sessions acc =
  (acc + sum_list ((fun s => length (ChatSession.messages s)) <$> sessions))%nat.
Proof.
  revert acc. induction sessions as [|s rest IH]; intros acc; cbn [fold_left].
  - cbn. lia.
  - rewrite IH. cbn. lia.
Qed.

(** The reduction with [<] ends at a session created first. *)
Lemma fold_oldest rest x :
  let y := fold_left (fun oldest session : ChatSession.t =>
                        if date_lt (Some (ChatSession.createdAt session))
                                   (Some (ChatSession.createdAt oldest))
                        then session else oldest) rest x in
  In y (x :: rest) /\
  forall s, In s (x :: rest) -> ChatSession.createdAt y <= ChatSession.createdAt s.
Proof.
  cbv zeta. revert x. induction rest as [|s rest IH]; intros x; cbn [fold_left].
  - split; [now left|]. intros s [<-|[]]. lia.
  - destruct (date_lt (Some (ChatSession.createdAt s)) (Some (ChatSession.createdAt x)))
      eqn:E; cbn [date_lt] in E;
      [apply Z.ltb_lt in E|apply Z.ltb_ge in E].
    + destruct (IH s) as [Hin Hmin]. split.
      * destruct Hin as [<-|Hin]; [right; now left|right; now right].
      * intros s' [<-|[<-|Hs']].
        -- specialize (Hmin s (or_introl eq_refl)). lia.
        -- apply Hmin. now left.
        -- apply Hmin. now right.
    + destruct (IH x) as [Hin Hmin]. split.
      * destruct Hin as [<-|Hin]; [now left|right; now right].
      * intros s' [<-|[<-|Hs']].
        -- apply Hmin. now left.
        -- specialize (Hmin x (or_introl eq_refl)). lia.
        -- apply Hmin. now right.
Qed.

(** The reduction with [>] ends at a session created last. *)
Lemma fold_newest rest x :
  let y := fold_left (fun newest session : ChatSession.t =>
                        if date_lt (Some (ChatSession.createdAt newest))
                                   (Some (ChatSession.createdAt session))
                        then session else newest) rest x in
  In y (x :: rest) /\
  forall s, In s (x :: rest) -> ChatSession.createdAt s <= ChatSession.createdAt y.
Proof.
  cbv zeta. revert x. induction rest as [|s rest IH]; intros x; cbn [fold_left].
  - split; [now left|]. intros s [<-|[]]. lia.
  - destruct (date_lt (Some (ChatSession.createdAt x)) (Some (ChatSession.createdAt s)))
      eqn:E; cbn [date_lt] in E;
      [apply Z.ltb_lt in E|apply Z.ltb_ge in E].
    + destruct (IH s) as [Hin Hmax]. split.
      * destruct Hin as [<-|Hin]; [right; now left|right; now right].
      * intros s' [<-|[<-|Hs']].
        -- specialize (Hmax s (or_introl eq_refl)). lia.
        -- apply Hmax. now left.
        -- apply Hmax. now right.
    + destruct (IH x) as [Hin Hmax]. split.
      * destruct Hin as [<-|Hin]; [now left|right; now right].
      * intros s' [<-|[<-|Hs']].
        -- apply Hmax. now left.
        -- specialize (Hmax x (or_introl eq_refl)). lia.
        -- apply Hmax. now right.
Qed.

Lemma filter_length_mono {A} (f g : A -> bool) l :
  (forall x, f x = true -> g x = true) ->
  (length (List.filter f l) <= length (List.filter g l))%nat.
Proof.
  intros H. induction l as [|x l IH]; [reflexivity|]. cbn [List.filter].
  destruct (f x) eqn:E.
  - rewrite (H _ E). cbn [length]. lia.
  - destruct (g x); cbn [length]; lia.
Qed.

(** The filter reads the clock once for every session and keeps some
    of the sessions. *)
Lemma filter_lately_run env sessions w :
  exists kept,
    filter_lately env sessions w =
      (inl kept,
       {| chatSessions := chatSessions w; heap := heap w;
          ticks := (length sessions + ticks w)%nat; draws := draws w |}) /\
    (length kept <= length sessions)%nat /\
    (clock_monotone env ->
     (length kept <=
      length (List.filter
                (fun s => (clock env (ticks w) - 60 * 60 * 1000 <? ChatSession.updatedAt s)%Z)
                sessions))%nat).
Proof.
  revert w. induction sessions as [|s rest IH]; intros w.
  - exists []. cbn [filter_lately length Nat.add]. unfold ret. rewrite world_eta.
    split; [reflexivity|]. split; [lia|]. intros _. cbn. lia.
  - cbn [filter_lately]. unfold updated_lately. run.
    match goal with |- context [filter_lately env rest ?w1] =>
      destruct (IH w1) as (kept & -> & Hlen & Hlate) end.
    cbn [chatSessions heap ticks draws length] in *.
    eexists. split; [rewrite Nat.add_succ_r; reflexivity|].
    assert (Hrest : clock_monotone env ->
              (length kept <=
               length (List.filter
                         (fun s => (clock env (ticks w) - 60 * 60 * 1000 <?
                                    ChatSession.updatedAt s)%Z) rest))%nat).
    { intros Hm. etransitivity; [exact (Hlate Hm)|].
      apply filter_length_mono. intros x Hx.
      apply Z.ltb_lt in Hx. apply Z.ltb_lt.
      pose proof (Hm (ticks w) (S (ticks w))). lia. }
    destruct (date_lt _ _) eqn:E; split; cbn [length]; try lia.
    + intros Hm. cbn [List.filter].
      unfold time_value in E. destruct (_ <=? _); [|discriminate].
      cbn [date_lt] in E. rewrite E. cbn [length]. specialize (Hrest Hm). lia.
    + intros Hm. cbn [List.filter]. specialize (Hrest Hm).
      destruct (_ <? _); cbn [length]; lia.
Qed.

End StatsFacts.

(** X21.  [getSessionStats], in whatever order the store enumerates
    its sessions: it counts the sessions and their messages; its
    oldest and newest entries are the earliest and the latest
    createdAt among the stored sessions, and null exactly when the
    store is empty; it never counts more active sessions than there
    are sessions, and with a clock that never goes back it counts
    none whose last update is an hour or more before the call.  It
    reads the clock once for every session and writes nothing. *)
Theorem session_stats_summarise env sessions w :
  Permutation sessions (snd <$> map_to_list (chatSessions w)) ->
  exists r w',
    session_stats env sessions w = (inl r, w') /\
    chatSessions w' = chatSessions w /\
    heap w' = heap w /\
    ticks w' = (size (chatSessions w) + ticks w)%nat /\
    totalSessions r = size (chatSessions w) /\
    totalMessages r =
      sum_list ((fun s => length (ChatSession.messages s)) <$> sessions) /\
    (activeSessions r <= totalSessions r)%nat /\
    (clock_monotone env ->
     (activeSessions r <=
      length (List.filter
                (fun s => (clock env (ticks w) - 60 * 60 * 1000 <? ChatSession.updatedAt s)%Z)
                sessions))%nat) /\
    (chatSessions w = ∅ -> oldestSession r = None /\ newestSession r = None) /\
    (forall t,
       oldestSession r = Some t <->
       (exists key s, chatSessions w !! key = Some s /\ ChatSession.createdAt s = t) /\
       (forall key s, chatSessions w !! key = Some s -> t <= ChatSession.createdAt s)) /\
    (forall t,
       newestSession r = Some t <->
       (exists key s, chatSessions w !! key = Some s /\ ChatSession.createdAt s = t) /\
       (forall key s, chatSessions w !! key = Some s -> ChatSession.createdAt s <= t)).
Proof.
  intros Hperm.
  assert (Hlen : length sessions = size (chatSessions w)).
  { rewrite (Permutation_length Hperm), length_fmap. apply length_map_to_list. }
  assert (Hin : forall s, In s sessions <-> exists key, chatSessions w !! key = Some s).
  { intros s. rewrite <- list_elem_of_In, Hperm, list_elem_of_fmap. split.
    - intros ([k s'] & -> & H). apply elem_of_map_to_list in H. eauto.
    - intros [key H]. exists (key, s). split; [reflexivity|].
      now apply elem_of_map_to_list. }
  unfold session_stats. run.
  destruct (StatsFacts.filter_lately_run env sessions w) as (kept & -> & Hkept & Hlate).
  eexists _, _. split; [reflexivity|].
  cbn [chatSessions heap ticks totalSessions totalMessages activeSessions
       oldestSession newestSession].
  split; [reflexivity|]. split; [reflexivity|]. split; [now rewrite Hlen|].
  split; [exact Hlen|]. split; [now rewrite StatsFacts.fold_sum|].
  split; [exact Hkept|]. split.
  { exact Hlate. }
  destruct sessions as [|x rest].
  - cbn [length Nat.ltb Nat.leb]. split; [auto|]. split.
    + intros t. split; [discriminate|]. intros [(key & s & Hk & _) _].
      destruct (proj2 (Hin s)); eauto.
    + intros t. split; [discriminate|]. intros [(key & s & Hk & _) _].
      destruct (proj2 (Hin s)); eauto.
  - cbn [length Nat.ltb Nat.leb reduce fmap option_fmap option_map]. split.
    + intros Hempty. destruct (proj1 (Hin x)) as [key Hk]; [now left|].
      rewrite Hempty, lookup_empty in Hk. discriminate.
    + pose proof (StatsFacts.fold_oldest rest x) as [Ho1 Ho2].
      pose proof (StatsFacts.fold_newest rest x) as [Hn1 Hn2].
      split; intros t; split.
      * intros [= <-]. split.
        -- apply Hin in Ho1 as [key Hk]. eauto.
        -- intros key s Hk. apply Ho2, Hin. eauto.
      * intros [(key & s & Hk & <-) Hmin]. f_equal.
        apply Hin in Ho1 as [key' Hk'].
        specialize (Hmin _ _ Hk'). specialize (Ho2 s (proj2 (Hin s) (ex_intro _ key Hk))).
        lia.
      * intros [= <-]. split.
        -- apply Hin in Hn1 as [key Hk]. eauto.
        -- intros key s Hk. apply Hn2, Hin. eauto.
      * intros [(key & s & Hk & <-) Hmax]. f_equal.
        apply Hin in Hn1 as [key' Hk'].
        specialize (Hmax _ _ Hk'). specialize (Hn2 s (proj2 (Hin s) (ex_intro _ key Hk))).
        lia.
Qed.

(** X21 at a store of two sessions. *)
Lemma session_stats_summarise_witness :
  exists r w',
    getSessionStats Sample.failing Scenario.two_sessions = (inl r, w') /\
    totalSessions r = 2%nat /\
    oldestSession r = Some 1754697600001 /\
    newestSession r = Some 1754697600004.
Proof.
  destruct (session_stats_summarise Sample.failing
              (snd <$> map_to_list (chatSessions Scenario.two_sessions))
              Scenario.two_sessions (Permutation_refl _))
    as (r & w' & H1 & _).
  exists r, w'. split; [exact H1|].
  assert (E : getSessionStats Sample.failing Scenario.two_sessions = (inl r, w'))
    by exact H1.
  vm_compute in E. injection E as <- <-.
  repeat split; vm_compute; reflexivity.
Defined.

(** ** Generated identifiers *)

Module DigitFacts.
Import StrFacts.

Lemma digit_value_digit d : (d < 36)%N -> digit_value (digit d) = d.
Proof.
  intros H. unfold digit, digit_value, chr. cbv zeta.
  destruct (N.ltb_spec d 10).
  - rewrite N_ascii_embedding by lia.
    destruct (N.ltb_spec (48 + d) 58); lia.
  - rewrite N_ascii_embedding by lia.
    destruct (N.ltb_spec (87 + d) 58); lia.
Qed.

Lemma value_go_app radix acc s t :
  value_go radix acc (s +:+ t) = value_go radix (value_go radix acc s) t.
Proof.
  revert acc. induction s as [|c s IH]; intros acc; [reflexivity|].
  rewrite app_cons. cbn [value_go]. apply IH.
Qed.

(** The digits are put in front of what was accumulated. *)
Lemma digits_go_acc fuel radix n acc :
  digits_go fuel radix n acc = digits_go fuel radix n EmptyString +:+ acc.
Proof.
  revert n acc. induction fuel as [|f IH]; intros n acc; [reflexivity|].
  cbn [digits_go]. destruct (n / radix =? 0)%N; [reflexivity|].
  rewrite (IH _ (String _ acc)), (IH _ (String _ EmptyString)).
  now rewrite app_assoc.
Qed.

Lemma value_of_digits_go fuel radix n :
  (2 <= radix <= 36)%N -> (N.log2 n < N.of_nat fuel)%N ->
  value_of radix (digits_go fuel radix n EmptyString) = n.
Proof.
  intros Hr. revert n. induction fuel as [|f IH]; intros n Hf; [lia|].
  cbn [digits_go]. unfold value_of.
  assert (Hd : digit_value (digit (n mod radix)) = (n mod radix)%N).
  { apply digit_value_digit. pose proof (N.mod_lt n radix). lia. }
  destruct (N.eqb_spec (n / radix) 0) as [E|E].
  - cbn [value_go]. rewrite Hd. rewrite (N.div_mod n radix) at 2 by lia.
    rewrite E. lia.
  - rewrite digits_go_acc, value_go_app. cbn [value_go].
    fold (value_of radix (digits_go f radix (n / radix) EmptyString)).
    rewrite IH, Hd.
    + rewrite (N.div_mod n radix) at 3 by lia. lia.
    + assert (Hn : (radix <= n)%N).
      { destruct (N.le_gt_cases radix n) as [H|H]; [exact H|].
        now rewrite (N.div_small _ _ H) in E. }
      assert (Hdiv : (n / radix <= n / 2)%N) by (apply N.div_le_compat_l; lia).
      assert (Hlog : (N.log2 (n / 2) = N.log2 n - 1)%N).
      { rewrite <- N.div2_div, N.div2_spec. apply N.log2_shiftr. }
      pose proof (N.log2_le_mono _ _ Hdiv) as Hle.
      assert (1 <= N.log2 n)%N.
      { change 1%N with (N.log2 2). apply N.log2_le_mono. lia. }
      lia.
Qed.

(** Reading back the digits of a number gives the number. *)
Lemma value_of_digits radix n :
  (2 <= radix <= 36)%N -> value_of radix (digits radix n) = n.
Proof. intros Hr. unfold digits. apply value_of_digits_go; [exact Hr|lia]. Qed.

Lemma of_Z_injective radix a b :
  (2 <= radix <= 36)%N -> 0 <= a -> 0 <= b ->
  of_Z radix a = of_Z radix b -> a = b.
Proof.
  intros Hr Ha Hb. unfold of_Z.
  destruct (Z.ltb_spec a 0) as [Hneg|_]; [lia|].
  destruct (Z.ltb_spec b 0) as [Hneg|_]; [lia|].
  intros Heq. apply (f_equal (value_of radix)) in Heq.
  rewrite !value_of_digits in Heq by exact Hr. lia.
Qed.

Lemma app_inj_length s1 t1 s2 t2 :
  String.length s1 = String.length s2 ->
  s1 +:+ t1 = s2 +:+ t2 -> s1 = s2 /\ t1 = t2.
Proof.
  revert s2. induction s1 as [|c s1 IH]; intros [|d s2] Hlen H; try discriminate.
  - auto.
  - rewrite !app_cons in H. injection H as -> Ht. injection Hlen as Hlen.
    destruct (IH _ Hlen Ht) as [-> ->]. auto.
Qed.

End DigitFacts.

(** X22.  [generateId] reads the random source and then the clock,
    once each, writes nothing, and returns the text id_ followed by
    the random text and by the instant in base 36.  The instant can be
    read back from its digits, so two identifiers whose random texts
    have the same length, or whose instants print with the same
    number of digits, are equal only if both the random texts and the
    instants are. *)
Theorem generated_ids_are_told_apart env w1 w2 :
  0 <= clock env (ticks w1) -> 0 <= clock env (ticks w2) ->
  String.length (random env (draws w1)) = String.length (random env (draws w2)) \/
  String.length (of_Z 36 (clock env (ticks w1))) =
    String.length (of_Z 36 (clock env (ticks w2))) ->
  generateId env w1 =
    (inl ("id_" +:+ random env (draws w1) +:+ of_Z 36 (clock env (ticks w1))),
     {| chatSessions := chatSessions w1; heap := heap w1;
        ticks := S (ticks w1); draws := S (draws w1) |}) /\
  (fst (generateId env w1) = fst (generateId env w2) ->
   random env (draws w1) = random env (draws w2) /\
   clock env (ticks w1) = clock env (ticks w2)).
Proof.
  intros H1 H2 Hlen. split; [reflexivity|].
  unfold generateId. run. cbn [fst]. intros [= H].
  assert (Hl : String.length (random env (draws w1)) =
               String.length (random env (draws w2))).
  { destruct Hlen as [Hl|Hl]; [exact Hl|].
    apply (f_equal String.length) in H. rewrite !StrFacts.length_app in H. lia. }
  destruct (DigitFacts.app_inj_length _ _ _ _ Hl H) as [Hr Ht].
  split; [exact Hr|]. apply (DigitFacts.of_Z_injective 36); [lia|assumption..].
Qed.

(** X22 at the first two identifiers of a worker. *)
Lemma generated_ids_are_told_apart_witness :
  fst (generateId Sample.failing init) = inl "id_r0me3hn9c0" /\
  (fst (generateId Sample.failing init) =
   fst (generateId Sample.failing Scenario.two_sessions) ->
   clock Sample.failing (ticks init) = clock Sample.failing (ticks Scenario.two_sessions)).
Proof.
  destruct (generated_ids_are_told_apart Sample.failing init Scenario.two_sessions)
    as [H1 H2].
  - vm_compute. discriminate.
  - vm_compute. discriminate.
  - left. vm_compute. reflexivity.
  - split.
    + rewrite H1. vm_compute. reflexivity.
    + intros H. exact (proj2 (H2 H)).
Defined.

(** ** Headers *)

Module HeaderFacts.












(** A response built by [utils] with no additional header is returned
    as it is. *)
Lemma addCorsHeaders_json data status :
  Router.addCorsHeaders (createJsonResponse data status []) createCorsHeaders =
  createJsonResponse data status [].
Proof. reflexivity. Qed.

Lemma addCorsHeaders_html html status :
  Router.addCorsHeaders (createHtmlResponse html status []) createCorsHeaders =
  createHtmlResponse html status [].
Proof. reflexivity. Qed.

End HeaderFacts.

(** ** The router *)

Module RouterFacts.

Lemma upper_idempotent c : upper (upper c) = upper c.
Proof. destruct c as [[] [] [] [] [] [] [] []]; vm_compute; reflexivity. Qed.

Lemma toUpperCase_idempotent s : toUpperCase (toUpperCase s) = toUpperCase s.
Proof.
  induction s as [|c s IH]; [reflexivity|].
  cbn [toUpperCase]. now rewrite IH, upper_idempotent.
Qed.

(** The streamed answer of [handleGraphQLRequest] has four headers and
    none of them is about origins. *)
Lemma stream_headers env body w headers stream :
  fst (handleGraphQLRequest env body w) = stream_response headers stream ->
  exists id,
    headers = [("Content-Type", "text/event-stream"); ("Cache-Control", "no-cache");
               ("Connection", "keep-alive"); ("X-Session-Id", id)].
Proof.
  unfold handleGraphQLRequest.
  destruct (GraphQLRequest.query body) as [| |b|nz t|q|items|props]; try discriminate.
  destruct (negb (truthy (JStr q))); [discriminate|].
  destruct (String.length (trim q) =? 0)%nat; [discriminate|].
  destruct (executeGraphQL env q _ w) as [result w'].
  destruct result as [d|ms]; [|discriminate].
  destruct d as [g|a|s|s|s|b|r]; try discriminate.
  destruct r as [ok msg [| |st] session err]; try discriminate.
  cbn [fst]. intros [= <- _]. eauto.
Qed.



Lemma find_serves table path method route :
  Router.findMatchingRoute table path method = Some route ->
  In route table /\ Router.path route = path /\ Router.method route = method.
Proof.
  unfold Router.findMatchingRoute. intros H. apply List.find_some in H as [Hin H].
  unfold Router.serves in H. apply andb_prop in H as [Hp Hm].
  apply String.eqb_eq in Hp, Hm. auto.
Qed.

End RouterFacts.



(** X24.  A request whose method is OPTIONS, in any case, is answered
    before the table of routes is looked at: whatever its path and
    whatever the table holds, even a route registered for that
    method, the answer is the empty response of status 204 with the
    three headers of [createCorsHeaders] and a maximal age, and
    nothing but the clock is touched. *)
Theorem preflight_is_answered_first env table request w :
  toUpperCase (HttpRequest.method request) = "OPTIONS" ->
  Router.handleRequest env table request w =
    (inl (Reply.make 204 EmptyString
            [("Access-Control-Allow-Origin", "*");
             ("Access-Control-Allow-Methods", "GET, POST, OPTIONS");
             ("Access-Control-Allow-Headers", "Content-Type, Authorization");
             ("Access-Control-Max-Age", "86400")]
            no_body),
     tick w).
Proof.
  intros H. unfold Router.handleRequest, Router.logRequest. run. now rewrite H.
Qed.

(** X24 at a request in lower case for a path that has a route for
    the method. *)
Lemma preflight_is_answered_first_witness :
  Router.findMatchingRoute (Router.addRoute Scenario.options_route Scenario.table)
    "/graphql" "OPTIONS" = Some Scenario.options_route /\
  fst (Router.handleRequest Sample.streaming
         (Router.addRoute Scenario.options_route Scenario.table)
         (HttpRequest.make "options" "/graphql" (Parsed JNull)) init) =
    inl (Reply.make 204 EmptyString
           [("Access-Control-Allow-Origin", "*");
            ("Access-Control-Allow-Methods", "GET, POST, OPTIONS");
            ("Access-Control-Allow-Headers", "Content-Type, Authorization");
            ("Access-Control-Max-Age", "86400")]
           no_body).
Proof.
  split; [reflexivity|].
  rewrite (preflight_is_answered_first Sample.streaming
             (Router.addRoute Scenario.options_route Scenario.table)
             (HttpRequest.make "options" "/graphql" (Parsed JNull)) init eq_refl).
  reflexivity.
Defined.

(** X25.  A request that is not a preflight and has no route is
    answered with status 404 and a JSON body that names its method
    and path and lists the routes of the table, and it touches
    nothing but the clock.  Routes are matched on the exact path and
    on the method of the request put in upper case, so a route that
    was registered under a method not in upper case is never
    chosen. *)
Theorem unrouted_request_is_not_found env table request w :
  let method := toUpperCase (HttpRequest.method request) in
  let path := HttpRequest.pathname request in
  method <> "OPTIONS" ->
  (Router.findMatchingRoute table path method = None ->
   exists routes,
     Router.handleRequest env table request w =
       (inl (createJsonResponse
               (value_data
                  (JObj [("error", JStr "Not Found");
                         ("message",
                          JStr ("Route '" +:+ method +:+ " " +:+ path +:+ "' not found"));
                         ("availableRoutes", JArr routes);
                         ("suggestion",
                          JStr "Check the API documentation at / for available endpoints")]))
               404 []),
        tick w) /\
     length routes = length table) /\
  (forall route,
     Router.findMatchingRoute table path method = Some route ->
     Router.path route = path /\
     Router.method route = method /\
     toUpperCase (Router.method route) = Router.method route).
Proof.
  intros method path Hm. split.
  - intros Hnone. eexists. split.
    + unfold Router.handleRequest, Router.logRequest. run. fold method path.
      apply String.eqb_neq in Hm. rewrite Hm, Hnone. reflexivity.
    + apply length_map.
  - intros route H. apply RouterFacts.find_serves in H as (_ & Hp & Hmeth).
    split; [exact Hp|]. split; [exact Hmeth|].
    rewrite Hmeth. apply RouterFacts.toUpperCase_idempotent.
Qed.

(** X25 at a path with a slash too many. *)
Lemma unrouted_request_is_not_found_witness :
  exists reply w',
    Router.handleRequest Sample.streaming Scenario.table
      (HttpRequest.make "GET" "/graphql/" (Parsed JNull)) init = (inl reply, w') /\
    Reply.status reply = 404 /\
    chatSessions w' = chatSessions init.
Proof.
  destruct (unrouted_request_is_not_found Sample.streaming Scenario.table
              (HttpRequest.make "GET" "/graphql/" (Parsed JNull)) init) as [H _].
  - discriminate.
  - destruct H as (routes & H & _); [reflexivity|].
    eexists _, _. split; [exact H|]. split; reflexivity.
Defined.

(** X26.  A POST to /graphql goes through the router to
    [handleGraphQLRequest] and never fails the router.  A body that is
    not JSON is answered with status 400 and the message of the
    parser as details, and a body that is JSON null, which has no
    query to read, with status 500; neither touches the sessions.
    Any other body is handled by its query and variables: a JSON
    answer is sent as it is, and the stream of a send is sent with
    status 200 and its own four headers followed by the three of
    [createCorsHeaders]. *)
Theorem graphql_post_through_the_router env playground documentation request w :
  toUpperCase (HttpRequest.method request) = "POST" ->
  HttpRequest.pathname request = "/graphql" ->
  let table := Router.routes env playground documentation in
  (forall message,
     HttpRequest.json request = Malformed message ->
     Router.handleRequest env table request w =
       (inl (createJsonResponse
               (value_data
                  (JObj [("errors",
                          JArr [JObj [("message", JStr "Invalid JSON in request body");
                                      ("details", JStr message)]])]))
               400 []),
        tick w)) /\
  (forall body,
     HttpRequest.json request = Parsed body -> nullish body = true ->
     exists m,
       Router.handleRequest env table request w =
         (inl (createJsonResponse (result_data (errors_result [m])) 500 []), tick w)) /\
  (forall body,
     HttpRequest.json request = Parsed body -> nullish body = false ->
     let answer :=
       handleGraphQLRequest env
         (GraphQLRequest.make (own body "query") (own body "variables")
            (own body "operationName")) (tick w) in
     Router.handleRequest env table request w =
       (inl match fst answer with
            | json_response status result =>
                createJsonResponse (result_data result) status []
            | stream_response headers stream =>
                Reply.make 200 EmptyString
                  (headers ++
                   [("Access-Control-Allow-Origin", "*");
                    ("Access-Control-Allow-Methods", "GET, POST, OPTIONS");
                    ("Access-Control-Allow-Headers", "Content-Type, Authorization")])
                  (stream_body stream)
            end,
        snd answer)).
Proof.
  intros Hm Hp table.
  assert (Hrun : Router.handleRequest env table request w =
                 match Http.handleGraphQLRequest env request (tick w) with
                 | (inl response, w') =>
                     (inl (Router.addCorsHeaders response createCorsHeaders), w')
                 | (inr e, w') =>
                     (inl (Router.handleServerError e createCorsHeaders), w')
                 end).
  { unfold Router.handleRequest, Router.logRequest. run. rewrite Hm, Hp.
    subst table. cbn [String.eqb Ascii.eqb Bool.eqb Router.findMatchingRoute Router.routes
                      List.find Router.serves Router.path Router.method andb
                      Router.handler].
    fold (tick w).
    now destruct (Http.handleGraphQLRequest env request (tick w)) as [[r|e] w']. }
  rewrite Hrun. unfold Http.handleGraphQLRequest. split; [|split].
  - intros message ->. reflexivity.
  - intros body -> Hn. unfold member. rewrite Hn. eexists. reflexivity.
  - intros body -> Hn. cbv zeta. unfold member. rewrite Hn.
    destruct (handleGraphQLRequest env _ (tick w)) as [answer w'] eqn:E.
    cbn [fst snd]. destruct answer as [status result|headers stream].
    + reflexivity.
    + apply (f_equal fst) in E. cbn [fst] in E.
      apply RouterFacts.stream_headers in E as [id ->]. reflexivity.
Qed.

(** X26 at the send of scenario A. *)
Lemma graphql_post_through_the_router_witness :
  exists stream w',
    Router.handleRequest Sample.streaming Scenario.table
      (HttpRequest.make "post" "/graphql"
         (Parsed (JObj [("query", JStr "mutation { sendMessage }");
                        ("variables", Sample.vars [("message", "hi")])]))) init =
    (inl (Reply.make 200 EmptyString
            [("Content-Type", "text/event-stream");
             ("Cache-Control", "no-cache");
             ("Connection", "keep-alive");
             ("X-Session-Id", "id_r0me3hn9c1");
             ("Access-Control-Allow-Origin", "*");
             ("Access-Control-Allow-Methods", "GET, POST, OPTIONS");
             ("Access-Control-Allow-Headers", "Content-Type, Authorization")]
            (stream_body stream)), w').
Proof.
  pose proof (proj2 (proj2 (graphql_post_through_the_router Sample.streaming
                              "playground" (fun _ _ => "documentation")
                              (HttpRequest.make "post" "/graphql"
                                 (Parsed (JObj [("query", JStr "mutation { sendMessage }");
                                                ("variables",
                                                 Sample.vars [("message", "hi")])])))
                              init eq_refl eq_refl)) _ eq_refl eq_refl) as H.
  cbv zeta in H. eexists _, _. unfold Scenario.table. rewrite H.
  vm_compute. reflexivity.
Defined.

(** ** The table of routes *)

Module TableFacts.

Lemma serves_key path method route :
  Router.serves path method route = true <-> route_key route = (path, method).
Proof.
  unfold Router.serves, route_key. rewrite andb_true_iff, !String.eqb_eq.
  split; [now intros [-> ->]|now intros [= -> ->]].
Qed.

Lemma existsb_serves path method table :
  existsb (Router.serves path method) table = true <->
  In (path, method) (map route_key table).
Proof.
  rewrite existsb_exists, in_map_iff. split.
  - intros (r & Hin & H). exists r. split; [now apply serves_key|exact Hin].
  - intros (r & H & Hin). exists r. split; [exact Hin|now apply serves_key].
Qed.

Lemma find_app table more path method :
  Router.findMatchingRoute (table ++ more) path method =
    match Router.findMatchingRoute table path method with
    | Some r => Some r
    | None => Router.findMatchingRoute more path method
    end.
Proof.
  unfold Router.findMatchingRoute. induction table as [|r table IH]; [reflexivity|].
  cbn [app List.find]. now destruct (Router.serves path method r).
Qed.

Lemma find_none table path method :
  Router.findMatchingRoute table path method = None <->
  existsb (Router.serves path method) table = false.
Proof.
  unfold Router.findMatchingRoute. induction table as [|r table IH]; [easy|].
  cbn [List.find existsb]. destruct (Router.serves path method r); [easy|exact IH].
Qed.

Lemma one_route_per_key (table : list Router.RouteConfig) a b :
  NoDup (map route_key table) -> In a table -> In b table ->
  route_key a = route_key b -> a = b.
Proof.
  induction table as [|r table IH]; [easy|]. cbn [map].
  intros Hnd [->|Ha] [->|Hb] Hk.
  - reflexivity.
  - apply NoDup_cons in Hnd as [Hr _]. destruct Hr.
    rewrite Hk. apply list_elem_of_In, in_map, Hb.
  - apply NoDup_cons in Hnd as [Hr _]. destruct Hr.
    rewrite <- Hk. apply list_elem_of_In, in_map, Ha.
  - apply NoDup_cons in Hnd as [_ Hnd]. now apply IH.
Qed.

Lemma distinct_from seen l :
  NoDup seen ->
  let result :=
    fold_left (fun seen x => if existsb (String.eqb x) seen then seen else seen ++ [x])
      l seen in
  NoDup result /\ forall x, In x result <-> In x seen \/ In x l.
Proof.
  cbv zeta. revert seen. induction l as [|y l IH]; intros seen Hnd; cbn [fold_left].
  - split; [exact Hnd|]. intros x. cbn. tauto.
  - destruct (existsb (String.eqb y) seen) eqn:E.
    + destruct (IH seen Hnd) as [H1 H2]. split; [exact H1|].
      intros x. rewrite H2. cbn [In].
      apply existsb_exists in E as (z & Hz & Hyz). apply String.eqb_eq in Hyz. subst z.
      split; [tauto|]. intros [H|[<-|H]]; auto.
    + assert (Hy : ~ In y seen).
      { intros Hin. rewrite (proj2 (existsb_exists _ _)) in E; [discriminate|].
        exists y. split; [exact Hin|apply String.eqb_refl]. }
      destruct (IH (seen ++ [y])) as [H1 H2].
      * apply NoDup_app. split; [exact Hnd|]. split; [|apply NoDup_singleton].
        intros x Hx Hxy. apply list_elem_of_In in Hx, Hxy.
        destruct Hxy as [<-|[]]. contradiction.
      * split; [exact H1|]. intros x. rewrite H2, in_app_iff. cbn [In]. tauto.
Qed.

End TableFacts.

(** X27.  [addRoute] never replaces a route: a route whose path and
    method are already in the table is dropped and the table stays as
    it was, so the first route registered under a path and a method
    is the one that [findMatchingRoute] keeps returning; a route with
    a new path and method is found from then on.  Adding the same
    route twice adds it once, and a table without two routes under
    one path and method stays so, in which case a request has at most
    one route. *)
Theorem first_registration_wins route table path method :
  NoDup (map route_key table) ->
  NoDup (map route_key (Router.addRoute route table)) /\
  Router.findMatchingRoute (Router.addRoute route table) path method =
    match Router.findMatchingRoute table path method with
    | Some earlier => Some earlier
    | None => if Router.serves path method route then Some route else None
    end /\
  Router.addRoute route (Router.addRoute route table) = Router.addRoute route table /\
  (forall found other,
     Router.findMatchingRoute table path method = Some found ->
     In other table -> route_key other = (path, method) -> other = found).
Proof.
  intros Hnd. unfold Router.addRoute. cbv zeta.
  destruct (existsb (Router.serves (Router.path route) (Router.method route)) table) eqn:E.
  - split; [exact Hnd|]. split.
    + destruct (Router.findMatchingRoute table path method) as [r|] eqn:F; [reflexivity|].
      destruct (Router.serves path method route) eqn:S; [|reflexivity].
      apply TableFacts.serves_key in S. injection S as <- <-.
      apply TableFacts.find_none in F. congruence.
    + split; [now rewrite E|].
      intros found other F Hin Hk. apply RouterFacts.find_serves in F as (Hf & Hp & Hm).
      apply (TableFacts.one_route_per_key table); [exact Hnd|exact Hin|exact Hf|].
      rewrite Hk. unfold route_key. now rewrite Hp, Hm.
  - split.
    + rewrite map_app. apply NoDup_app. split; [exact Hnd|]. split; [|apply NoDup_singleton].
      intros k Hk Hk'. apply list_elem_of_In in Hk, Hk'. destruct Hk' as [<-|[]].
      apply TableFacts.existsb_serves in Hk. congruence.
    + split.
      * rewrite TableFacts.find_app.
        destruct (Router.findMatchingRoute table path method); [reflexivity|].
        unfold Router.findMatchingRoute. cbn [List.find].
        now destruct (Router.serves path method route).
      * split.
        -- rewrite existsb_app. cbn [existsb].
           rewrite (proj2 (TableFacts.serves_key _ _ route) eq_refl).
           now rewrite orb_true_r.
        -- intros found other F Hin Hk.
           apply RouterFacts.find_serves in F as (Hf & Hp & Hm).
           apply (TableFacts.one_route_per_key table); [exact Hnd|exact Hin|exact Hf|].
           rewrite Hk. unfold route_key. now rewrite Hp, Hm.
Qed.

(** X27 at the routes that the worker starts with and a second route
    for the playground. *)
Lemma first_registration_wins_witness :
  NoDup (map route_key Scenario.table) /\
  Router.findMatchingRoute
    (Router.addRoute
       {| Router.path := "/graphql"; Router.method := "GET";
          Router.handler := fun _ => ret (createErrorResponse "replaced" 500);
          Router.description := None |}
       Scenario.table) "/graphql" "GET" =
  Router.findMatchingRoute Scenario.table "/graphql" "GET".
Proof.
  assert (H : NoDup (map route_key Scenario.table)).
  { cbn. repeat constructor; rewrite ?list_elem_of_In; cbn; intuition discriminate. }
  split; [exact H|].
  rewrite (proj1 (proj2 (first_registration_wins
                           {| Router.path := "/graphql"; Router.method := "GET";
                              Router.handler :=
                                fun _ => ret (createErrorResponse "replaced" 500);
                              Router.description := None |}
                           Scenario.table "/graphql" "GET" H))).
  reflexivity.
Defined.

(** X28.  [getRouteStats] counts the routes of the table and lists
    them in order, each with a description that is not empty, the
    fixed text standing in for one that is missing or empty; the
    methods it reports are those of the routes, each once, in the
    order in which they first occur, which for the routes that the
    worker starts with is POST and then GET. *)
Theorem route_stats_summarise env playground documentation table :
  let stats := Router.getRouteStats table in
  Router.totalRoutes stats = length table /\
  map Router.info_path (Router.routes_info stats) = map Router.path table /\
  map Router.info_method (Router.routes_info stats) = map Router.method table /\
  Forall (fun info => Router.info_description info <> EmptyString)
    (Router.routes_info stats) /\
  NoDup (Router.supportedMethods stats) /\
  (forall m, In m (Router.supportedMethods stats) <->
             exists route, In route table /\ Router.method route = m) /\
  Router.supportedMethods
    (Router.getRouteStats (Router.routes env playground documentation)) =
    ["POST"; "GET"].
Proof.
  cbv zeta. unfold Router.getRouteStats.
  cbn [Router.totalRoutes Router.routes_info Router.supportedMethods].
  split; [reflexivity|]. split; [now rewrite map_map|]. split; [now rewrite map_map|].
  split.
  - apply Forall_forall. intros info Hin. apply list_elem_of_In, in_map_iff in Hin
      as (route & <- & _).
    cbn [Router.info_description]. unfold Router.description_or.
    destruct (Router.description route) as [[|c d]|]; discriminate.
  - destruct (TableFacts.distinct_from [] (map Router.method table)) as [H1 H2];
      [constructor|].
    split; [exact H1|]. split; [|reflexivity].
    intros m. unfold Router.distinct. rewrite H2, in_map_iff. cbn [In].
    split.
    + intros [[]|(r & <- & Hin)]. eauto.
    + intros (r & Hin & <-). right. eauto.
Qed.

(** ** The sessions of a running worker *)

Lemma contents_complete (h : list ChatMessage.t) (refs : list MessageRef) :
  Forall (fun r => (r < length h)%nat) refs ->
  length (omap (fun r => h !! r) refs) = length refs.
Proof.
  induction 1 as [|r refs Hr _ IH]; [reflexivity|].
  cbn [omap list_omap]. fold (@omap list _ _ _ (fun r => h !! r) refs).
  destruct (lookup_lt_is_Some_2 h r Hr) as [m ->]. cbn [length]. now rewrite IH.
Qed.

(** X29.  With a clock that never goes back, after any sequence of
    requests and consumed streams, started from the empty store,
    every stored session is well formed: its id is the key it is
    stored under and starts with id_, every message it refers to
    exists, so that none is lost when the session is read, and its
    last update is not after the clock.  Such a session can always be
    fetched: getChatSession with its id returns it. *)
Theorem stored_sessions_are_well_formed env steps key s q :
  clock_monotone env ->
  chatSessions (run env steps init) !! key = Some s ->
  classify q = getChatSession ->
  ChatSession.id s = key /\
  startsWith key "id_" = true /\
  Forall (fun r => is_Some (heap (run env steps init) !! r)) (ChatSession.messages s) /\
  length (contents (run env steps init) s) = length (ChatSession.messages s) /\
  ChatSession.updatedAt s <= clock env (ticks (run env steps init)) /\
  executeGraphQL env q (JObj [("id", JStr key)]) (run env steps init) =
    (data_result (getChatSession_data (Some s)), run env steps init).
Proof.
  intros Hm Hk Hc.
  destruct (run_sound env Hm steps init (sound_init env) key s Hk)
    as (H1 & H2 & H3 & H4 & H5).
  split; [exact H5|]. split; [exact H4|]. split.
  { eapply Forall_impl; [exact H3|]. cbn. intros r Hr. now apply lookup_lt_is_Some_2. }
  split; [now apply contents_complete|]. split; [exact H2|].
  assert (Hne : key <> EmptyString) by (intros ->; discriminate).
  rewrite (executeGraphQL_branch _ _ _ _ _ Hc). cbn [branch].
  rewrite (getChatSession_effect _ _ _ key).
  - now rewrite Hk.
  - rewrite resolveVariable_value by reflexivity.
    destruct key; [congruence|reflexivity].
  - exact Hne.
Qed.

(** X29 after a creation, a send that fails and a clear. *)
Lemma stored_sessions_are_well_formed_witness :
  clock_monotone Sample.failing /\
  executeGraphQL Sample.failing "query { getChatSession { id } }"
    (JObj [("id", JStr "id_r0me3hn9c0")]) (run Sample.failing Sample.three_steps init) =
    (data_result (getChatSession_data
                    (Some (ChatSession.make "id_r0me3hn9c0" [] 1754697600001 1754697600009))),
     run Sample.failing Sample.three_steps init).
Proof.
  split; [apply sample_clock_monotone|].
  apply (stored_sessions_are_well_formed Sample.failing Sample.three_steps
           "id_r0me3hn9c0"
           (ChatSession.make "id_r0me3hn9c0" [] 1754697600001 1754697600009)
           "query { getChatSession { id } }" (sample_clock_monotone _)).
  - vm_compute. reflexivity.
  - vm_compute. reflexivity.
Defined.
